(** * mongo-tools: the streaming transfer engine of [src/utils/mongo-client.ts]

    A shallow embedding of the [MongoClient] wrapper class: connection
    life cycle, catalogue queries, and the four transfers (same-cluster
    clone, cross-cluster clone, export to a directory, import from a
    directory), followed by the properties the specification states
    about them.

    The MongoDB driver, the file system and the JSON codecs are external
    to the repository.  The driver is modelled after the in-memory test
    double of [src/utils/mongo-client.test.ts] (one such store per
    cluster URI; a call fails only when its cluster is out of reach), the
    file system as a table of directories, and the codecs as an
    interface ([Codec]) whose laws appear as explicit hypotheses wherever
    a theorem needs them.  Counts are natural numbers, strings are byte
    strings, and time is not modelled.

    Layout: the model of the code; a reference codec for the examples;
    the vocabulary of the statements; sample worlds taken from the test
    suite; the code around the engine (the interactive operations, the
    cluster registry, the table cells); the properties, each claim under
    its own heading, then further properties of the same code. *)

From Stdlib Require Import String Ascii List ZArith NArith Arith Lia DecimalString.
From stdpp Require Import base tactics decidable option list strings.

Local Open Scope string_scope.
Local Open Scope list_scope.
Local Open Scope nat_scope.

(** ** JavaScript objects as insertion-ordered association lists

    A JS object keeps its string keys in insertion order; assigning to an
    existing key updates in place, assigning to a new key appends.
    [Object.keys] is the list of keys in that order. *)

Section AList.
Context {K V : Type} `{EqDecision K}.

Fixpoint alist_get (k : K) (m : list (K * V)) : option V :=
  match m with
  | [] => None
  | (k', v) :: m' => if decide (k = k') then Some v else alist_get k m'
  end.

Fixpoint alist_set (k : K) (v : V) (m : list (K * V)) : list (K * V) :=
  match m with
  | [] => [(k, v)]
  | (k', v') :: m' =>
      if decide (k = k') then (k, v) :: m' else (k', v') :: alist_set k v m'
  end.

Definition alist_keys (m : list (K * V)) : list K := map fst m.
End AList.

(** ** Documents *)

#[local] Set Warnings "-register-all".

Inductive Json : Type :=
| JNull
| JBool (b : bool)
| JNum (n : Z)
| JStr (s : string)
| JArr (items : list Json)
| JObj (fields : list (string * Json)).

(** [Document] of the driver: a field-name to value mapping.  An index
    descriptor ([IndexDescription]) is a document too. *)
Definition Document : Type := list (string * Json).

(** ** Errors *)

Inductive Exn : Type :=
| Error (message : string)                 (* [new Error(message)] of this module *)
| MongoServerSelectionError (uri : string) (* the driver could not reach the cluster *)
| MongoParseError (uri : string)           (* the driver does not accept the connection string *)
| SystemError (code path : string)         (* a failing [fs] call *)
| SyntaxError (text : string).             (* [JSON.parse] / [EJSON.parse] *)

(** The two errors the module raises itself (lines 26 and 174). *)
Definition NotConnected : Exn := Error "Not connected to a cluster.".
Definition SourceNotFound (inDir : string) : Exn :=
  Error ("Directory not found: " +:+ inDir).

Inductive Res (A : Type) : Type :=
| Ok (a : A)
| Throw (e : Exn).
Arguments Ok {A} a.
Arguments Throw {A} e.

(** ** The driver test double (one store per cluster)

    Field for field the [state] object of the test file; the mock keys
    its three per-collection tables by the string [`${dbName}.${colName}`],
    here the pair (database names hold no dot, so the string determines
    the pair).  The mock also registers an empty database the first time
    [db(name)] is called; only [listDatabases] could tell, and that
    registration is left out. *)

Definition Key : Type := string * string.

Record MockState : Type := mkMock {
  dbs : list (string * list (string * list Document));
  colIndexes : list (Key * list Document);
  insertBatches : list (Key * list (list Document));
  createdIndexes : list (Key * list (list Document))
}.

Definition emptyMock : MockState := mkMock [] [] [] [].

(** The descriptor [indexes()] reports when no index set was configured. *)
Definition implicitIndex : Document :=
  [("v", JNum 2); ("name", JStr "_id_"); ("key", JObj [("_id", JNum 1)])].

Definition mock_collections (dbName : string) (s : MockState) : list (string * list Document) :=
  default [] (alist_get dbName (dbs s)).

(** [find()]: a snapshot of the collection's documents. *)
Definition mock_find (dbName colName : string) (s : MockState) : list Document :=
  default [] (alist_get colName (mock_collections dbName s)).

Definition mock_insertMany (dbName colName : string) (batch : list Document)
    (s : MockState) : MockState :=
  mkMock
    (alist_set dbName
       (alist_set colName (mock_find dbName colName s ++ batch) (mock_collections dbName s))
       (dbs s))
    (colIndexes s)
    (alist_set (dbName, colName)
       (default [] (alist_get (dbName, colName) (insertBatches s)) ++ [batch])
       (insertBatches s))
    (createdIndexes s).

Definition mock_countDocuments (dbName colName : string) (s : MockState) : nat :=
  length (mock_find dbName colName s).

Definition mock_indexes (dbName colName : string) (s : MockState) : list Document :=
  default [implicitIndex] (alist_get (dbName, colName) (colIndexes s)).

Definition mock_createIndexes (dbName colName : string) (specs : list Document)
    (s : MockState) : MockState :=
  mkMock (dbs s) (colIndexes s) (insertBatches s)
    (alist_set (dbName, colName)
       (default [] (alist_get (dbName, colName) (createdIndexes s)) ++ [specs])
       (createdIndexes s)).

Definition mock_listCollections (dbName : string) (s : MockState) : list string :=
  alist_keys (mock_collections dbName s).

Definition mock_dropDatabase (dbName : string) (s : MockState) : MockState :=
  mkMock (alist_set dbName [] (dbs s)) (colIndexes s) (insertBatches s) (createdIndexes s).

Definition mock_listDatabases (s : MockState) : list (string * N) :=
  map (fun name => (name, 0%N)) (alist_keys (dbs s)).

(** ** File system

    A path names either a regular file or a directory; a directory maps
    entry names to file contents, in listing order.  [join(dir, name)] is
    the entry [name] of the directory [dir]. *)

Inductive FsNode : Type :=
| File (content : string)
| Dir (entries : list (string * string)).

(** ** The world: clusters by URI, the file system, and the record of
    progress callbacks made so far. *)

Record World : Type := mkWorld {
  clusters : list (string * MockState);
  fs : list (string * FsNode);
  progress : list (string * nat * nat)
}.

Definition set_clusters (c : list (string * MockState)) (w : World) : World :=
  mkWorld c (fs w) (progress w).
Definition set_fs (f : list (string * FsNode)) (w : World) : World :=
  mkWorld (clusters w) f (progress w).

(** ** Computations: state passing with exceptions.  A thrown exception
    keeps the effects made before it (nothing is rolled back). *)

Definition M (A : Type) : Type := World -> Res A * World.

Definition ret {A} (a : A) : M A := fun w => (Ok a, w).
Definition throw {A} (e : Exn) : M A := fun w => (Throw e, w).
Definition bind {A B} (m : M A) (k : A -> M B) : M B :=
  fun w => match m w with
           | (Ok a, w') => k a w'
           | (Throw e, w') => (Throw e, w')
           end.

Declare Scope js_scope.
Delimit Scope js_scope with js.
Notation "'let*' x ':=' m 'in' k" := (bind m (fun x => k))
  (at level 10, x pattern, m at level 100, k at level 200) : js_scope.
Notation "m ';;' k" := (bind m (fun _ => k))
  (at level 100, k at level 200, right associativity) : js_scope.
Local Open Scope js_scope.

(** [for (let i = 0; i < xs.length; i++)] with the loop-carried locals [s];
    also [for await (const x of xs)] (index unused). *)
Fixpoint for_loop {A St} (body : nat -> A -> St -> M St) (i : nat) (xs : list A) (s : St) : M St :=
  match xs with
  | [] => ret s
  | x :: xs' => let* s' := body i x s in for_loop body (S i) xs' s'
  end.

(** [Promise.all(xs.map(async x => f x))], the calls made in order. *)
Fixpoint map_async {A B} (f : A -> M B) (xs : list A) : M (list B) :=
  match xs with
  | [] => ret []
  | x :: xs' => let* y := f x in let* ys := map_async f xs' in ret (y :: ys)
  end.

(** ** Driver calls through a native handle

    [new NativeClient(uri, { serverSelectionTimeoutMS: 8000 })] reads the
    connection string and builds a handle, or throws a parse error on a
    string the driver does not accept; which strings it accepts is the
    driver's business, an interface here ([ConnectionStrings]; the test
    double accepts every string).  Every call through a handle reaches
    the cluster stored under its URI, and fails with a server-selection
    error when there is none.  What the real driver answers on a handle
    whose own connection attempt has failed is not modelled further: the
    statements about a failed [connect] say only that such a call gets
    past the guard of the wrapper. *)

Record NativeClient : Type := mkNative {
  uri : string;
  serverSelectionTimeoutMS : N
}.

Class ConnectionStrings : Type := { accepted : string -> bool }.

(** [new NativeClient(u, { serverSelectionTimeoutMS: timeout })] *)
Definition new_NativeClient {cs : ConnectionStrings} (u : string) (timeout : N) :
    Res NativeClient :=
  if accepted u then Ok (mkNative u timeout) else Throw (MongoParseError u).

Definition read_cluster {A} (h : NativeClient) (f : MockState -> A) : M A :=
  fun w => match alist_get (uri h) (clusters w) with
           | Some s => (Ok (f s), w)
           | None => (Throw (MongoServerSelectionError (uri h)), w)
           end.

Definition write_cluster (h : NativeClient) (f : MockState -> MockState) : M unit :=
  fun w => match alist_get (uri h) (clusters w) with
           | Some s => (Ok tt, set_clusters (alist_set (uri h) (f s) (clusters w)) w)
           | None => (Throw (MongoServerSelectionError (uri h)), w)
           end.

Definition native_connect (h : NativeClient) : M unit := read_cluster h (fun _ => tt).
Definition drv_listDatabases (h : NativeClient) : M (list (string * N)) :=
  read_cluster h mock_listDatabases.
Definition drv_listCollections (h : NativeClient) (dbName : string) : M (list string) :=
  read_cluster h (mock_listCollections dbName).
Definition drv_find (h : NativeClient) (dbName colName : string) : M (list Document) :=
  read_cluster h (mock_find dbName colName).
Definition drv_countDocuments (h : NativeClient) (dbName colName : string) : M nat :=
  read_cluster h (mock_countDocuments dbName colName).
Definition drv_indexes (h : NativeClient) (dbName colName : string) : M (list Document) :=
  read_cluster h (mock_indexes dbName colName).
Definition drv_insertMany (h : NativeClient) (dbName colName : string)
    (batch : list Document) : M unit :=
  write_cluster h (mock_insertMany dbName colName batch).
Definition drv_createIndexes (h : NativeClient) (dbName colName : string)
    (specs : list Document) : M unit :=
  write_cluster h (mock_createIndexes dbName colName specs).
Definition drv_dropDatabase (h : NativeClient) (dbName : string) : M unit :=
  write_cluster h (mock_dropDatabase dbName).

(** ** [fs] calls *)

Definition existsSync (path : string) (w : World) : bool :=
  bool_decide (is_Some (alist_get path (fs w))).

(** The file [join(dir, name)], if [dir] is a directory that has it. *)
Definition lookup_entry (fsys : list (string * FsNode)) (dir name : string) : option string :=
  match alist_get dir fsys with
  | Some (Dir entries) => alist_get name entries
  | _ => None
  end.

(** [existsSync(join(dir, name))] *)
Definition existsSync_in (dir name : string) : M bool :=
  fun w => (Ok (bool_decide (is_Some (lookup_entry (fs w) dir name))), w).

(** [mkdirSync(path, { recursive: true })] *)
Definition mkdirSync (path : string) : M unit :=
  fun w => match alist_get path (fs w) with
           | Some (Dir _) => (Ok tt, w)
           | Some (File _) => (Throw (SystemError "EEXIST" path), w)
           | None => (Ok tt, set_fs (alist_set path (Dir []) (fs w)) w)
           end.

Definition readdirSync (path : string) : M (list string) :=
  fun w => match alist_get path (fs w) with
           | Some (Dir entries) => (Ok (alist_keys entries), w)
           | Some (File _) => (Throw (SystemError "ENOTDIR" path), w)
           | None => (Throw (SystemError "ENOENT" path), w)
           end.

Definition readFileSync (dir name : string) : M string :=
  fun w => match lookup_entry (fs w) dir name with
           | Some content => (Ok content, w)
           | None => (Throw (SystemError "ENOENT" name), w)
           end.

(** [writeFileSync]: create or replace the entry. *)
Definition writeFileSync (dir name content : string) : M unit :=
  fun w => match alist_get dir (fs w) with
           | Some (Dir entries) =>
               (Ok tt, set_fs (alist_set dir (Dir (alist_set name content entries)) (fs w)) w)
           | _ => (Throw (SystemError "ENOENT" name), w)
           end.

(** [createWriteStream] opens the entry truncated; [stream.write]
    appends to it. *)
Definition createWriteStream (dir name : string) : M unit := writeFileSync dir name EmptyString.

Definition stream_write (dir name chunk : string) : M unit :=
  let* old := readFileSync dir name in writeFileSync dir name (old +:+ chunk).

(** ** Text

    [readline] ends a line at LF, CR LF or a lone CR and reports a last,
    unterminated line when it is not empty; [String.prototype.trim]
    removes white space at both ends.  A text is the sequence of its
    UTF-8 bytes, as it is on disk. *)

Definition LF : ascii := "010"%char.
Definition CR : ascii := "013"%char.

Fixpoint read_lines (cur : string) (s : string) : list string :=
  match s with
  | EmptyString => if decide (cur = EmptyString) then [] else [String.rev cur]
  | String c s' =>
      if decide (c = LF) then String.rev cur :: read_lines EmptyString s'
      else if decide (c = CR) then
        String.rev cur ::
          match s' with
          | String c' s'' => if decide (c' = LF) then read_lines EmptyString s'' else read_lines EmptyString s'
          | EmptyString => []
          end
      else read_lines (String c cur) s'
  end.

Definition readline (s : string) : list string := read_lines EmptyString s.

(** White space as [String.prototype.trim] sees it, the WhiteSpace and
    LineTerminator code points of ECMAScript, by its UTF-8 bytes: one
    byte for U+0009 to U+000D and U+0020 ([Ascii.is_space]), two for
    U+00A0, three for U+1680, U+2000 to U+200A, U+2028, U+2029, U+202F,
    U+205F, U+3000 and U+FEFF. *)
Definition space2 (b1 b2 : ascii) : bool :=
  (N_of_ascii b1 =? 194)%N && (N_of_ascii b2 =? 160)%N.

Definition space3 (b1 b2 b3 : ascii) : bool :=
  let n1 := N_of_ascii b1 in
  let n2 := N_of_ascii b2 in
  let n3 := N_of_ascii b3 in
  ((n1 =? 225) && (n2 =? 154) && (n3 =? 128)
   || (n1 =? 226) && (n2 =? 128) &&
      ((128 <=? n3) && (n3 <=? 138) || (n3 =? 168) || (n3 =? 169) || (n3 =? 175))
   || (n1 =? 226) && (n2 =? 129) && (n3 =? 159)
   || (n1 =? 227) && (n2 =? 128) && (n3 =? 128)
   || (n1 =? 239) && (n2 =? 187) && (n3 =? 191))%N.

(** The text without the white space it starts with, [two] and [three]
    telling the white space of two and of three bytes. *)
Fixpoint strip_spaces (two : ascii → ascii → bool) (three : ascii → ascii → ascii → bool)
    (s : string) : string :=
  match s with
  | EmptyString => EmptyString
  | String b1 s1 =>
      if Ascii.is_space b1 then strip_spaces two three s1
      else
        match s1 with
        | String b2 s2 =>
            if two b1 b2 then strip_spaces two three s2
            else
              match s2 with
              | String b3 s3 => if three b1 b2 b3 then strip_spaces two three s3 else s
              | EmptyString => s
              end
        | EmptyString => s
        end
  end.

Definition trimStart (s : string) : string := strip_spaces space2 space3 s.

(** From the end the bytes of a character come last first. *)
Definition trimEnd (s : string) : string :=
  String.rev
    (strip_spaces (fun b2 b1 => space2 b1 b2) (fun b3 b2 b1 => space3 b1 b2 b3)
       (String.rev s)).

Definition trim (s : string) : string := trimEnd (trimStart s).

Definition endsWith (s suffix : string) : bool :=
  bool_decide (String.length suffix <= String.length s) &&
  bool_decide (substring (String.length s - String.length suffix) (String.length suffix) s = suffix).

(** [s.replace(/\.jsonl$/, empty)]: the suffix is dropped. *)
Definition replace_jsonl (s : string) : string :=
  if endsWith s ".jsonl" then substring 0 (String.length s - 6) s else s.

(** ** Codecs: [EJSON] of the [bson] package and the built-in [JSON]
    ([JSON_stringify l] stands for [JSON.stringify(l, null, 2)]).

    [EJSON_parse] answers on the texts that hold an object and
    [JSON_parse] on those that hold an array of objects; a text they do
    not answer on is read as one the parser rejects.  Valid JSON of
    another shape (a number, [null], an object where an array is
    expected), which the code hands on unchecked, is outside the
    model. *)

Class Codec : Type := {
  EJSON_stringify : Document -> string;
  EJSON_parse : string -> option Document;
  JSON_stringify : list Document -> string;
  JSON_parse : string -> option (list Document)
}.

(** ** Result types ([src/config/types.ts]) and constants *)

Record DbInfo : Type := mkDbInfo { db_name : string; db_sizeOnDisk : N }.
Record CollectionInfo : Type := mkCollectionInfo { col_name : string; col_count : nat }.
Record DbStats : Type := mkDbStats {
  stats_name : string;
  stats_collections : list CollectionInfo;
  stats_totalDocuments : nat
}.
Record ExportResult : Type := mkExportResult {
  export_collections : nat;
  export_documents : nat;
  export_path : string
}.
Record ImportResult : Type := mkImportResult {
  import_collections : nat;
  import_documents : nat
}.

Definition SYSTEM_DBS : list string := ["admin"; "local"; "config"].
Definition BATCH_SIZE : nat := 500.

(** ** Index descriptors (lines 81-83, 121-123, 162 and 208-210) *)

(** [idx.name !== "_id_"] *)
Definition not_id_index (idx : Document) : bool :=
  match alist_get "name" idx with
  | Some (JStr s) => negb (bool_decide (s = "_id_"))
  | _ => true
  end.

(** [({ v: _v, ns: _ns, ...rest }) => rest] *)
Definition strip_v_ns (idx : Document) : Document :=
  List.filter (fun kv => negb (bool_decide (fst kv = "v")) && negb (bool_decide (fst kv = "ns"))) idx.

(** [indexes.filter(...).map(...)] of the three live sinks. *)
Definition userIndexes_of (indexes : list Document) : list Document :=
  map strip_v_ns (List.filter not_id_index indexes).

(** ** The wrapper class *)

Record MongoClient : Type := mkClient { client : option NativeClient }.

(** [new MongoClient()] *)
Definition new_MongoClient : MongoClient := mkClient None.

(** The optional [onCollection] argument: [true] when the caller passed a
    callback; every call it receives is appended to [progress]. *)
Definition call_onCollection (onCollection : bool) (name : string) (index total : nat) : M unit :=
  fun w => if onCollection
           then (Ok tt, mkWorld (clusters w) (fs w) (progress w ++ [(name, index, total)]))
           else (Ok tt, w).

(** [connect] builds the handle, stores it, and awaits its connection
    last: a constructor that throws leaves [this.client] as it was, a
    connection attempt that fails leaves the new handle in it.  The
    updated object is returned next to the outcome. *)
Definition connect {cs : ConnectionStrings} (this : MongoClient) (u : string) (w : World) :
    MongoClient * Res unit :=
  match new_NativeClient u 8000 with
  | Throw e => (this, Throw e)
  | Ok c =>
      let this := mkClient (Some c) in
      (this, match client this with
             | Some c => fst (native_connect c w)
             | None => Ok tt
             end)
  end.

(** [await this.client?.close(); this.client = null] *)
Definition disconnect (this : MongoClient) : MongoClient * Res unit :=
  (mkClient None, Ok tt).

(** The private getter [db]. *)
Definition db (this : MongoClient) : M NativeClient :=
  match client this with
  | None => throw NotConnected
  | Some c => ret c
  end.

Definition listDatabases (this : MongoClient) : M (list DbInfo) :=
  let* h := db this in
  let* result := drv_listDatabases h in
  ret (map (fun d => mkDbInfo (fst d) (snd d))
         (List.filter (fun d => negb (bool_decide (fst d ∈ SYSTEM_DBS))) result)).

Definition listCollections (this : MongoClient) (dbName : string) : M (list CollectionInfo) :=
  let* h := db this in
  let* collections := drv_listCollections h dbName in
  map_async (fun col =>
      let* n := drv_countDocuments h dbName col in
      ret (mkCollectionInfo col n))
    collections.

Definition getDbStats (this : MongoClient) (dbName : string) : M DbStats :=
  let* collections := listCollections this dbName in
  let totalDocuments := fold_left (fun sum c => sum + col_count c) collections 0 in
  ret (mkDbStats dbName collections totalDocuments).

(** *** Batching (lines 68-78, 106-118 and 189-203) *)

(** One turn of [cloneDb]'s document loop. *)
Definition cloneDb_push (target : NativeClient) (targetDb col : string)
    (doc : Document) (batch : list Document) : M (list Document) :=
  let batch := batch ++ [doc] in
  if BATCH_SIZE <=? length batch then
    drv_insertMany target targetDb col batch;;
    ret []
  else ret batch.

(** One turn of the document loop of [cloneDbToClient] and [importDb],
    which also count: the locals are [(batch, totalDocuments)]. *)
Definition counted_push (target : NativeClient) (targetDb col : string)
    (doc : Document) (st : list Document * nat) : M (list Document * nat) :=
  let batch := fst st ++ [doc] in
  if BATCH_SIZE <=? length batch then
    drv_insertMany target targetDb col batch;;
    ret ([], snd st + length batch)
  else ret (batch, snd st).

(** [if (batch.length > 0) { insertMany(batch); totalDocuments += batch.length }] *)
Definition counted_rest (target : NativeClient) (targetDb col : string)
    (st : list Document * nat) : M nat :=
  if 0 <? length (fst st) then
    drv_insertMany target targetDb col (fst st);;
    ret (snd st + length (fst st))
  else ret (snd st).

(** [if (userIndexes.length > 0) createIndexes(userIndexes)] *)
Definition create_userIndexes (target : NativeClient) (targetDb col : string)
    (userIndexes : list Document) : M unit :=
  if 0 <? length userIndexes then drv_createIndexes target targetDb col userIndexes
  else ret tt.

(** *** [cloneDb] *)

Definition cloneDb_collection (source target : NativeClient) (sourceDb targetDb : string)
    (onCollection : bool) (total : nat) (i : nat) (col : string) : M unit :=
  call_onCollection onCollection col (i + 1) total;;
  let* cursor := drv_find source sourceDb col in
  let* batch := for_loop (fun _ => cloneDb_push target targetDb col) 0 cursor [] in
  (if 0 <? length batch then drv_insertMany target targetDb col batch else ret tt);;
  let* indexes := drv_indexes source sourceDb col in
  create_userIndexes target targetDb col (userIndexes_of indexes).

Definition cloneDb (this : MongoClient) (sourceDb targetDb : string)
    (onCollection : bool) : M unit :=
  let* source := db this in
  let* target := db this in
  let* collections := drv_listCollections source sourceDb in
  for_loop
    (fun i col _ =>
       cloneDb_collection source target sourceDb targetDb onCollection (length collections) i col)
    0 collections tt.

(** *** [cloneDbToClient] *)

Definition cloneDbToClient_collection (source target : NativeClient)
    (sourceDb targetDb : string) (onCollection : bool) (total : nat)
    (i : nat) (col : string) (totalDocuments : nat) : M nat :=
  call_onCollection onCollection col (i + 1) total;;
  let* cursor := drv_find source sourceDb col in
  let* st := for_loop (fun _ => counted_push target targetDb col) 0 cursor ([], totalDocuments) in
  let* totalDocuments := counted_rest target targetDb col st in
  let* indexes := drv_indexes source sourceDb col in
  create_userIndexes target targetDb col (userIndexes_of indexes);;
  ret totalDocuments.

Definition cloneDbToClient (this : MongoClient) (sourceDb : string)
    (targetClient : MongoClient) (targetDb : string) (onCollection : bool) : M ImportResult :=
  let* source := db this in
  let* target := db targetClient in
  let* collections := drv_listCollections source sourceDb in
  let* totalDocuments :=
    for_loop
      (cloneDbToClient_collection source target sourceDb targetDb onCollection (length collections))
      0 collections 0 in
  ret (mkImportResult (length collections) totalDocuments).

Definition dropDb (this : MongoClient) (dbName : string) : M unit :=
  let* h := db this in drv_dropDatabase h dbName.

Section WithCodec.
Context {codec : Codec}.

(** *** [exportDb] *)

Definition exportDb_collection (h : NativeClient) (dbName outDir : string)
    (onCollection : bool) (total : nat) (i : nat) (col : string)
    (totalDocuments : nat) : M nat :=
  call_onCollection onCollection col (i + 1) total;;
  createWriteStream outDir (col +:+ ".jsonl");;
  let* cursor := drv_find h dbName col in
  let* totalDocuments :=
    for_loop
      (fun _ doc totalDocuments =>
         stream_write outDir (col +:+ ".jsonl") (EJSON_stringify doc +:+ String LF EmptyString);;
         ret (totalDocuments + 1))
      0 cursor totalDocuments in
  let* indexes := drv_indexes h dbName col in
  let userIndexes := List.filter not_id_index indexes in
  writeFileSync outDir (col +:+ ".indexes.json") (JSON_stringify userIndexes);;
  ret totalDocuments.

Definition exportDb (this : MongoClient) (dbName outDir : string)
    (onCollection : bool) : M ExportResult :=
  mkdirSync outDir;;
  let* h := db this in
  let* collections := drv_listCollections h dbName in
  let* totalDocuments :=
    for_loop (exportDb_collection h dbName outDir onCollection (length collections))
      0 collections 0 in
  ret (mkExportResult (length collections) totalDocuments outDir).

(** *** [importDb] *)

(** One turn of the line loop (lines 190-199). *)
Definition importDb_line (h : NativeClient) (dbName colName : string)
    (line : string) (st : list Document * nat) : M (list Document * nat) :=
  let trimmed := trim line in
  if decide (trimmed = EmptyString) then ret st
  else
    match EJSON_parse trimmed with
    | None => throw (SyntaxError trimmed)
    | Some doc => counted_push h dbName colName doc st
    end.

Definition importDb_file (h : NativeClient) (dbName inDir : string)
    (onCollection : bool) (total : nat) (i : nat) (file : string)
    (totalDocuments : nat) : M nat :=
  let colName := replace_jsonl file in
  call_onCollection onCollection colName (i + 1) total;;
  let* text := readFileSync inDir file in
  let* st := for_loop (fun _ => importDb_line h dbName colName) 0 (readline text)
               ([], totalDocuments) in
  let* totalDocuments := counted_rest h dbName colName st in
  let indexFile := colName +:+ ".indexes.json" in
  let* present := existsSync_in inDir indexFile in
  (if present : bool then
     let* text := readFileSync inDir indexFile in
     match JSON_parse text with
     | None => throw (SyntaxError text)
     | Some rawIndexes => create_userIndexes h dbName colName (userIndexes_of rawIndexes)
     end
   else ret tt);;
  ret totalDocuments.

Definition importDb (this : MongoClient) (dbName inDir : string)
    (onCollection : bool) : M ImportResult :=
  fun w =>
    if negb (existsSync inDir w) then (Throw (SourceNotFound inDir), w)
    else
      (let* h := db this in
       let* entries := readdirSync inDir in
       let files := List.filter (fun f => endsWith f ".jsonl") entries in
       let* totalDocuments :=
         for_loop (importDb_file h dbName inDir onCollection (length files)) 0 files 0 in
       ret (mkImportResult (length files) totalDocuments)) w.
End WithCodec.

(** ** A reference codec

    A compact JSON printer and a recursive-descent reader for the
    fragment of JSON that [Json] covers.  The theorems below hold for
    every [Codec]; this instance runs the examples. *)

Module MiniJson.

(** Leading white space between the tokens of a text. *)
Fixpoint skip_spaces (s : string) : string :=
  match s with
  | String c s' => if Ascii.is_space c then skip_spaces s' else s
  | EmptyString => EmptyString
  end.

(** The double-quote character. *)
Definition DQ : ascii := "034"%char.

Definition quote_char (c : ascii) (rest : string) : string :=
  if decide (c = DQ) then String "\" (String DQ rest)
  else if decide (c = "\"%char) then String "\" (String "\" rest)
  else if decide (c = LF) then String "\" (String "n" rest)
  else if decide (c = CR) then String "\" (String "r" rest)
  else String c rest.

Fixpoint quote_body (s : string) : string :=
  match s with
  | EmptyString => String DQ EmptyString
  | String c s' => quote_char c (quote_body s')
  end.

Definition quote (s : string) : string := String DQ (quote_body s).

Fixpoint join_comma (l : list string) : string :=
  match l with
  | [] => EmptyString
  | [x] => x
  | x :: l' => x +:+ "," +:+ join_comma l'
  end.

Fixpoint print (j : Json) : string :=
  match j with
  | JNull => "null"
  | JBool true => "true"
  | JBool false => "false"
  | JNum n => NilZero.string_of_int (Z.to_int n)
  | JStr s => quote s
  | JArr items => "[" +:+ join_comma (map print items) +:+ "]"
  | JObj fields =>
      "{" +:+ join_comma (map (fun kv => match kv with
                                         | (k, v) => quote k +:+ ":" +:+ print v
                                         end) fields) +:+ "}"
  end.

(** Reading: every function returns the value read and the rest of the
    input. *)

Fixpoint read_string (acc : string) (s : string) : option (string * string) :=
  match s with
  | EmptyString => None
  | String c s' =>
      if decide (c = DQ) then Some (String.rev acc, s')
      else if decide (c = "\"%char) then
        match s' with
        | String e s'' =>
            let c' := if decide (e = "n"%char) then LF
                      else if decide (e = "r"%char) then CR else e in
            read_string (String c' acc) s''
        | EmptyString => None
        end
      else read_string (String c acc) s'
  end.

Definition is_num_char (c : ascii) : bool :=
  bool_decide (c = "-"%char) || bool_decide (is_Some (Ascii.is_nat c)).

Fixpoint read_num (acc : string) (s : string) : string * string :=
  match s with
  | String c s' => if is_num_char c then read_num (String c acc) s' else (String.rev acc, s)
  | EmptyString => (String.rev acc, s)
  end.

Definition expect (word : string) (j : Json) (s : string) : option (Json * string) :=
  if String.prefix word s
  then Some (j, substring (String.length word) (String.length s - String.length word) s)
  else None.

Fixpoint read_value (fuel : nat) (s : string) : option (Json * string) :=
  match fuel with
  | 0 => None
  | S fuel =>
      match skip_spaces s with
      | EmptyString => None
      | String c rest =>
          if decide (c = "n"%char) then expect "ull" JNull rest
          else if decide (c = "t"%char) then expect "rue" (JBool true) rest
          else if decide (c = "f"%char) then expect "alse" (JBool false) rest
          else if decide (c = DQ) then
            match read_string EmptyString rest with
            | Some (str, rest') => Some (JStr str, rest')
            | None => None
            end
          else if decide (c = "["%char) then
            match skip_spaces rest with
            | String "]" rest' => Some (JArr [], rest')
            | _ => match read_items fuel rest with
                   | Some (items, rest') => Some (JArr items, rest')
                   | None => None
                   end
            end
          else if decide (c = "{"%char) then
            match skip_spaces rest with
            | String "}" rest' => Some (JObj [], rest')
            | _ => match read_fields fuel rest with
                   | Some (fields, rest') => Some (JObj fields, rest')
                   | None => None
                   end
            end
          else
            match read_num EmptyString (String c rest) with
            | (digits, rest') =>
                match NilZero.int_of_string digits with
                | Some n => Some (JNum (Z.of_int n), rest')
                | None => None
                end
            end
      end
  end
with read_items (fuel : nat) (s : string) : option (list Json * string) :=
  match fuel with
  | 0 => None
  | S fuel =>
      match read_value fuel s with
      | Some (j, rest) =>
          match skip_spaces rest with
          | String "," rest' =>
              match read_items fuel rest' with
              | Some (items, rest'') => Some (j :: items, rest'')
              | None => None
              end
          | String "]" rest' => Some ([j], rest')
          | _ => None
          end
      | None => None
      end
  end
with read_fields (fuel : nat) (s : string) : option (list (string * Json) * string) :=
  match fuel with
  | 0 => None
  | S fuel =>
      match skip_spaces s with
      | String "034" rest =>
          match read_string EmptyString rest with
          | Some (k, rest1) =>
              match skip_spaces rest1 with
              | String ":" rest2 =>
                  match read_value fuel rest2 with
                  | Some (v, rest3) =>
                      match skip_spaces rest3 with
                      | String "," rest4 =>
                          match read_fields fuel rest4 with
                          | Some (fields, rest5) => Some ((k, v) :: fields, rest5)
                          | None => None
                          end
                      | String "}" rest4 => Some ([(k, v)], rest4)
                      | _ => None
                      end
                  | None => None
                  end
              | _ => None
              end
          | None => None
          end
      | _ => None
      end
  end.

(** The whole text must be one value. *)
Definition read (s : string) : option Json :=
  match read_value (S (String.length s)) s with
  | Some (j, rest) => if decide (skip_spaces rest = EmptyString) then Some j else None
  | None => None
  end.

Definition as_document (j : Json) : option Document :=
  match j with JObj fields => Some fields | _ => None end.

Fixpoint as_documents (items : list Json) : option (list Document) :=
  match items with
  | [] => Some []
  | j :: items' =>
      match as_document j, as_documents items' with
      | Some d, Some ds => Some (d :: ds)
      | _, _ => None
      end
  end.

#[export] Instance codec : Codec := {|
  EJSON_stringify d := print (JObj d);
  EJSON_parse s := match read s with Some j => as_document j | None => None end;
  JSON_stringify l := print (JArr (map JObj l));
  JSON_parse s := match read s with
                  | Some (JArr items) => as_documents items
                  | _ => None
                  end
|}.

End MiniJson.

(** * Vocabulary of the statements

    Pure replays of the loops, the effects of a transfer on a store and
    on a directory, and the measures the theorems speak about.  Each is
    tied to the code by a lemma of the form [code w = (Ok r, effect w)]. *)

Section Vocabulary.
Context {codec : Codec}.

(** ** Worlds *)

(** The store of the cluster [u] replaced by [s]. *)
Definition put_cluster (u : string) (s : MockState) (w : World) : World :=
  set_clusters (alist_set u s (clusters w)) w.

(** The directory [dir] replaced by (or created with) [entries]. *)
Definition set_dir (dir : string) (entries : list (string * string)) (w : World) : World :=
  set_fs (alist_set dir (Dir entries) (fs w)) w.

(** The file [join(dir, name)] of a world, if it exists. *)
Definition read_entry (dir name : string) (w : World) : option string :=
  lookup_entry (fs w) dir name.

(** The world after one progress call. *)
Definition log_progress (cb : bool) (name : string) (index total : nat) (w : World) : World :=
  if cb then mkWorld (clusters w) (fs w) (progress w ++ [(name, index, total)]) else w.

(** The world after the progress calls of a whole collection loop that
    starts at position [i]. *)
Fixpoint log_all (cb : bool) (total i : nat) (names : list string) (w : World) : World :=
  match names with
  | [] => w
  | name :: names' => log_all cb total (S i) names' (log_progress cb name (i + 1) total w)
  end.

(** ** Batches *)

(** [run_batches batch docs] replays the document loop on [docs] from
    the pending [batch] without the driver: the batches it hands to
    [insertMany] while reading, and the batch still pending at the end. *)
Fixpoint run_batches (batch docs : list Document) : list (list Document) * list Document :=
  match docs with
  | [] => ([], batch)
  | doc :: docs' =>
      if BATCH_SIZE <=? length (batch ++ [doc]) then
        ((batch ++ [doc]) :: fst (run_batches [] docs'), snd (run_batches [] docs'))
      else run_batches (batch ++ [doc]) docs'
  end.

(** All the flushes of [docs]: those of the loop, then the pending batch
    if it is not empty. *)
Definition flushes (docs : list Document) : list (list Document) :=
  fst (run_batches [] docs) ++
  (if 0 <? length (snd (run_batches [] docs)) then [snd (run_batches [] docs)] else []).

(** [ceil(D / C)] on naturals. *)
Definition ceil_div (D C : nat) : nat := (D + (C - 1)) / C.

(** The claimed shape of the flushes of [D] documents: [ceil(D/500)] of
    them, all but the last of exactly 500, the last of
    [D - 500 * (ceil(D/500) - 1)]. *)
Definition batched (D : nat) (batches : list (list Document)) : Prop :=
  length batches = ceil_div D BATCH_SIZE ∧
  (∀ i b, i < length batches - 1 → batches !! i = Some b → length b = BATCH_SIZE) ∧
  (∃ final, last batches = Some final ∧
            length final = D - BATCH_SIZE * (ceil_div D BATCH_SIZE - 1)).

(** ** Stores *)

(** The store after a sequence of bulk inserts into one collection. *)
Definition insert_batches (dbName col : string) (batches : list (list Document))
    (s : MockState) : MockState :=
  fold_left (fun s b => mock_insertMany dbName col b s) batches s.

(** The store after the guarded [createIndexes]. *)
Definition create_if_any (dbName col : string) (specs : list Document)
    (s : MockState) : MockState :=
  if 0 <? length specs then mock_createIndexes dbName col specs s else s.

(** The bulk inserts recorded for a collection ([state.insertBatches]). *)
Definition batches_of (dbName col : string) (s : MockState) : list (list Document) :=
  default [] (alist_get (dbName, col) (insertBatches s)).

(** The [createIndexes] calls recorded for a collection
    ([state.createdIndexes]). *)
Definition created_of (dbName col : string) (s : MockState) : list (list Document) :=
  default [] (alist_get (dbName, col) (createdIndexes s)).

(** The documents of all bulk inserts a store has recorded. *)
Definition inserted (s : MockState) : nat :=
  list_sum (map (fun kv => length (concat (snd kv))) (insertBatches s)).

(** The documents of a database, over a list of collection names. *)
Definition count_docs (dbName : string) (s : MockState) (cols : list string) : nat :=
  list_sum (map (fun col => length (mock_find dbName col s)) cols).

(** The target store after one collection has been cloned from the
    source store [ss]. *)
Definition clone_effect (sourceDb targetDb col : string) (ss st : MockState) : MockState :=
  create_if_any targetDb col (userIndexes_of (mock_indexes sourceDb col ss))
    (insert_batches targetDb col (flushes (mock_find sourceDb col ss)) st).

(** The target store after a whole clone of [cols]; [same] tells
    whether source and target are one cluster, in which case every
    collection is read from the store the previous ones were written to. *)
Fixpoint clone_all (same : bool) (sourceDb targetDb : string) (cols : list string)
    (ss st : MockState) : MockState :=
  match cols with
  | [] => st
  | col :: cols' =>
      clone_all same sourceDb targetDb cols'
        (if same then clone_effect sourceDb targetDb col ss st else ss)
        (clone_effect sourceDb targetDb col ss st)
  end.

(** ** Record files and sidecars *)

(** A text without line terminator. *)
Fixpoint no_line_break (s : string) : bool :=
  match s with
  | EmptyString => true
  | String c s' =>
      negb (bool_decide (c = LF)) && negb (bool_decide (c = CR)) && no_line_break s'
  end.

(** The text [exportDb] writes for a list of documents, given the line
    of each. *)
Fixpoint record_text (lines : list string) : string :=
  match lines with
  | [] => EmptyString
  | line :: lines' => (line +:+ String LF EmptyString) +:+ record_text lines'
  end.

(** The documents the line loop pushes for the lines of a record file:
    blank lines are skipped, every other line must parse. *)
Fixpoint parse_lines (lines : list string) : option (list Document) :=
  match lines with
  | [] => Some []
  | line :: lines' =>
      if decide (trim line = EmptyString) then parse_lines lines'
      else
        match EJSON_parse (trim line), parse_lines lines' with
        | Some doc, Some docs => Some (doc :: docs)
        | _, _ => None
        end
  end.

(** The raw descriptors of a sidecar: none when the file is absent. *)
Definition sidecar_indexes (sidecar : option string) : option (list Document) :=
  match sidecar with
  | None => Some []
  | Some text => JSON_parse text
  end.

(** The record files of a directory listing. *)
Definition record_files (entries : list (string * string)) : list string :=
  List.filter (fun f => endsWith f ".jsonl") (alist_keys entries).

(** A record file whose lines parse to [docs_of file] and whose sidecar,
    if there is one, parses to [raw_of file]. *)
Definition readable (entries : list (string * string))
    (docs_of raw_of : string → list Document) (file : string) : Prop :=
  ∃ text,
    alist_get file entries = Some text ∧
    parse_lines (readline text) = Some (docs_of file) ∧
    sidecar_indexes (alist_get (replace_jsonl file +:+ ".indexes.json") entries)
    = Some (raw_of file).

(** What the codec must do for a document to survive the record file:
    its text is one non-blank line that parses. *)
Definition line_ok (doc : Document) : Prop :=
  no_line_break (EJSON_stringify doc) = true ∧
  trim (EJSON_stringify doc) ≠ EmptyString ∧
  is_Some (EJSON_parse (trim (EJSON_stringify doc))).


(** ** Effects of an export and of an import *)

(** The directory after the two files of one collection are written. *)
Definition export_files (dbName col : string) (s : MockState)
    (entries : list (string * string)) : list (string * string) :=
  alist_set (col +:+ ".indexes.json")
    (JSON_stringify (List.filter not_id_index (mock_indexes dbName col s)))
    (alist_set (col +:+ ".jsonl")
       (record_text (map EJSON_stringify (mock_find dbName col s))) entries).

(** The directory after a whole export. *)
Definition export_all (dbName : string) (s : MockState) (cols : list string)
    (entries : list (string * string)) : list (string * string) :=
  fold_left (fun e col => export_files dbName col s e) cols entries.

(** The names an export of [cols] writes, in order. *)
Definition export_names (cols : list string) : list string :=
  concat (map (fun col => [col +:+ ".jsonl"; col +:+ ".indexes.json"]) cols).

(** The target store after one record file has been imported. *)
Definition import_effect (dbName colName : string) (docs raw : list Document)
    (s : MockState) : MockState :=
  create_if_any dbName colName (userIndexes_of raw)
    (insert_batches dbName colName (flushes docs) s).

(** The target store after a whole import. *)
Definition import_all (dbName : string) (files : list string)
    (docs_of raw_of : string → list Document) (s : MockState) : MockState :=
  fold_left
    (fun s file => import_effect dbName (replace_jsonl file) (docs_of file) (raw_of file) s)
    files s.

(** The documents of a list of record files. *)
Definition count_lines (docs_of : string → list Document) (files : list string) : nat :=
  list_sum (map (fun file => length (docs_of file)) files).

(** ** Independence of the file system *)

(** [m] behaves the same when the file system [fs0] it runs on is
    replaced by [f], and leaves the file system alone. *)
Definition fs_indep {A} (fs0 f : list (string * FsNode)) (m : M A) : Prop :=
  ∀ w, fs w = fs0 →
       m (set_fs f w) = (fst (m w), set_fs f (snd (m w))) ∧ fs (snd (m w)) = fs0.

End Vocabulary.

(** ** Return values *)

(** The aggregate [{collections, documents}] carried by a return value,
    if it carries one. *)
Class Aggregate (R : Type) : Type := aggregate : R → option (nat * nat).

#[export] Instance aggregate_void : Aggregate unit := fun _ => None.

#[export] Instance aggregate_import : Aggregate ImportResult :=
  fun r => Some (import_collections r, import_documents r).

#[export] Instance aggregate_export : Aggregate ExportResult :=
  fun r => Some (export_collections r, export_documents r).

(** The aggregate carried by the outcome of a call. *)
Definition returned_aggregate {R} `{Aggregate R} (r : Res R) : option (nat * nat) :=
  match r with
  | Ok v => aggregate v
  | Throw _ => None
  end.

(** * Sample worlds: the scenarios of the test suite *)

Module Examples.

Definition mockUri : string := "mongodb://mock".

(** A reader of connection strings that asks for the scheme only. *)
Definition scheme_only : ConnectionStrings :=
  {| accepted u :=
       bool_decide (substring 0 10 u = "mongodb://") ||
       bool_decide (substring 0 14 u = "mongodb+srv://") |}.

(** A client after a successful [connect(mockUri)]. *)
Definition connected : MongoClient := mkClient (Some (mkNative mockUri 8000)).

(** [Array.from({ length: n }, (_, i) => ({ i }))] *)
Definition docs (n : nat) : list Document :=
  map (fun i => [("i", JNum (Z.of_nat i))]) (seq 0 n).

Definition emptyWorld : World := mkWorld [] [] [].

(** One cluster holding [db1] with [users] (10 documents) and [posts] (5). *)
Definition statsWorld : World :=
  mkWorld
    [(mockUri, mkMock [("db1", [("users", docs 10); ("posts", docs 5)])] [] [] [])]
    [] [].

End Examples.

Module Scenarios.
Import Examples.

Definition handle : NativeClient := mkNative mockUri 8000.

(** [{ v: 2, name: "email_1", key: { email: 1 }, unique: true }] *)
Definition emailIndex : Document :=
  [("v", JNum 2); ("name", JStr "email_1"); ("key", JObj [("email", JNum 1)]);
   ("unique", JBool true)].

(** The same descriptor as a live server reports it, with its namespace. *)
Definition emailIndexNs : Document :=
  [("v", JNum 2); ("ns", JStr "src.users"); ("name", JStr "email_1");
   ("key", JObj [("email", JNum 1)]); ("unique", JBool true)].

Definition alice : Document := [("name", JStr "alice"); ("age", JNum 30)].
Definition bob : Document := [("name", JStr "bob"); ("age", JNum 25)].

(** [src] holds [big] (1001 documents) and [users] (two documents, one
    unique index besides the implicit one). *)
Definition cloneStore : MockState :=
  mkMock [("src", [("big", docs 1001); ("users", [alice; bob])])]
         [(("src", "users"), [implicitIndex; emailIndexNs])] [] [].

Definition cloneWorld : World := mkWorld [(mockUri, cloneStore)] [] [].

(** [original] holds [users] (two documents, one index) and an empty
    collection. *)
Definition originalStore : MockState :=
  mkMock [("original", [("users", [alice; bob]); ("empty", [])])]
         [(("original", "users"), [implicitIndex; emailIndex])] [] [].

Definition originalWorld : World := mkWorld [(mockUri, originalStore)] [] [].

(** A dump directory with one record file and its sidecar. *)
Definition dumpEntries : list (string * string) :=
  [("users.jsonl", @EJSON_stringify MiniJson.codec alice +:+ String LF EmptyString);
   ("users.indexes.json", @JSON_stringify MiniJson.codec [emailIndex])].

Definition dumpWorld : World :=
  mkWorld [(mockUri, emptyMock)] [("/dump", Dir dumpEntries)] [].

(** The sizes of the bulk inserts recorded for a collection. *)
Definition batch_sizes (dbName col : string) (w : World) : list nat :=
  match alist_get mockUri (clusters w) with
  | Some s => map (@length Document) (batches_of dbName col s)
  | None => []
  end.

Definition created_indexes (dbName col : string) (w : World) : list (list Document) :=
  match alist_get mockUri (clusters w) with
  | Some s => created_of dbName col s
  | None => []
  end.

End Scenarios.

(** * Around the engine

    Three more notions for the statements, then the code that uses the
    wrapper class or stands next to it: the interactive operations of
    [src/operations], the cluster registry of
    [src/utils/cluster-manager.ts] and the table cells of
    [src/ui/visualizers.ts]. *)

(** ** What a computation leaves alone *)

(** [m] never changes the part [proj] of the world, whatever its outcome. *)
Definition keeps {A B} (proj : World → B) (m : M A) : Prop :=
  ∀ w, proj (snd (m w)) = proj w.

(** [m] never fails with the error of the wrapper's guard. *)
Definition passes_guard {A} (m : M A) : Prop :=
  ∀ w, fst (m w) ≠ Throw NotConnected.

(** ** Progress calls *)

(** The calls a transfer over [names] makes to its callback: one per
    name, in order, with the positions [1..n] and the total [n]. *)
Definition progress_calls (names : list string) : list (string * nat * nat) :=
  imap (fun k name => (name, k + 1, length names)) names.

(** ** A codec that loses nothing on a document *)

(** The text of [doc] is one non-blank line that parses back to [doc]. *)
Definition faithful_line {codec : Codec} (doc : Document) : Prop :=
  no_line_break (EJSON_stringify doc) = true ∧
  trim (EJSON_stringify doc) ≠ EmptyString ∧
  EJSON_parse (trim (EJSON_stringify doc)) = Some doc.

(** ** The interactive operations ([src/operations])

    An operation talks to the user between its calls to the client.
    What the user answers is an argument here (a theorem that holds for
    every answer holds however the answer was chosen), what the
    operation prints is left out, and a cancelled prompt, which ends the
    operation before it has written anything, is not modelled.  [tasks]
    of the prompt library runs its enabled tasks in order and stops at
    the first that throws. *)

(** [dbs.find((d) => d.name === targetDb)], as a truth value. *)
Definition listed (dbs : list DbInfo) (targetDb : string) : bool :=
  existsb (fun d => bool_decide (db_name d = targetDb)) dbs.

(** [dbs.find(...) ? await client.getDbStats(targetDb) : null] *)
Definition targetStats_of (client : MongoClient) (dbs : list DbInfo) (targetDb : string) :
    M (option DbStats) :=
  if listed dbs targetDb
  then let* stats := getDbStats client targetDb in ret (Some stats)
  else ret None.

(** The task [Clearing], enabled when [targetStats] is not null. *)
Definition clearing (client : MongoClient) (targetStats : option DbStats) (targetDb : string) :
    M unit :=
  match targetStats with
  | Some _ => dropDb client targetDb
  | None => ret tt
  end.

(** [cloneOperation] when the target chosen is a database of the same
    cluster (lines 11-58 of [clone.ts]): [sourceDb] and [targetDb] are
    the answers of the two selections, [confirmed] that of the
    confirmation.  The result is the pair [showSummary] is called with
    (collections, documents), or nothing when the user declined. *)
Definition cloneOperation_same (client : MongoClient) (sourceDb targetDb : string)
    (confirmed : bool) : M (option (nat * nat)) :=
  let* dbs := listDatabases client in
  let* sourceStats := getDbStats client sourceDb in
  let* targetStats := targetStats_of client dbs targetDb in
  if negb confirmed then ret None
  else
    clearing client targetStats targetDb;;
    cloneDb client sourceDb targetDb true;;
    ret (Some (length (stats_collections sourceStats), stats_totalDocuments sourceStats)).

Section OperationsWithCodec.
Context {codec : Codec}.

(** [uploadOperation] ([upload.ts]): [localPath] and [targetDb] are the
    answers of the path prompt and of the selection.  The result is the
    [ImportResult] the summary is made of, or nothing when the path does
    not exist or the user declined. *)
Definition uploadOperation (client : MongoClient) (localPath targetDb : string)
    (confirmed : bool) : M (option ImportResult) :=
  fun w =>
    if negb (existsSync localPath w) then (Ok None, w)
    else
      (let* dbs := listDatabases client in
       let* targetStats := targetStats_of client dbs targetDb in
       if negb confirmed then ret None
       else
         clearing client targetStats targetDb;;
         let* result := importDb client targetDb localPath true in
         ret (Some result)) w.

(** [dropOperation]: [dbName] is the database selected,
    [wantsBackup] and [confirmed] the answers of the two confirmations,
    [outDir] the path given for the backup.  The result tells whether
    the database was dropped. *)
Definition dropOperation (client : MongoClient) (dbName : string) (wantsBackup : bool)
    (outDir : string) (confirmed : bool) : M bool :=
  let* dbs := listDatabases client in
  (if wantsBackup then let* result := exportDb client dbName outDir true in ret tt
   else ret tt);;
  if negb confirmed then ret false
  else
    dropDb client dbName;;
    ret true.

End OperationsWithCodec.

(** ** The cluster registry ([src/utils/cluster-manager.ts])

    [CONFIG_DIR] is fixed when the program starts (an environment
    variable, or a directory under the home directory): a parameter
    here.  [CLUSTERS_FILE] is its entry [clusters.json].  The cast
    [as Cluster[]] checks nothing, so a stored cluster is whatever object
    the file holds, a [Document], and [c.name] is its field [name]; as
    for the sidecars, [JSON_parse] answers on texts that hold an array of
    objects.  On a text that is no JSON the code catches the parser's
    error and goes on with the empty list, as [loadClusters] does here;
    on JSON of another shape it hands the parsed value on unchecked, and
    what [some], [filter] or [map] then do is not what they do on the
    empty list: such a file is outside this model, and
    [registry_readable] names the worlds that have none.  File modes
    ([0o700], [0o600]) are not modelled. *)

Record Cluster : Type := mkCluster { cluster_name : string; cluster_uri : string }.

(** The object [{ name, uri }]. *)
Definition cluster_object (c : Cluster) : Document :=
  [("name", JStr (cluster_name c)); ("uri", JStr (cluster_uri c))].

(** [c.name === name], for a string [name]. *)
Definition name_is (name : string) (c : Document) : bool :=
  match alist_get "name" c with
  | Some (JStr s) => bool_decide (s = name)
  | _ => false
  end.

(** [try { m } catch { handler }] *)
Definition try_catch {A} (m : M A) (handler : M A) : M A :=
  fun w => match m w with
           | (Ok a, w') => (Ok a, w')
           | (Throw _, w') => handler w'
           end.

(** [chmodSync(join(dir, name), mode)]: fails on a missing file. *)
Definition chmodSync (dir name : string) : M unit :=
  fun w => match lookup_entry (fs w) dir name with
           | Some _ => (Ok tt, w)
           | None => (Throw (SystemError "ENOENT" name), w)
           end.

Section ClusterManager.
Context {codec : Codec}.
Variable CONFIG_DIR : string.

Definition ensureConfigDir : M unit :=
  fun w => if negb (existsSync CONFIG_DIR w) then mkdirSync CONFIG_DIR w else (Ok tt, w).

Definition loadClusters : M (list Document) :=
  ensureConfigDir;;
  let* present := existsSync_in CONFIG_DIR "clusters.json" in
  if negb present then ret []
  else
    try_catch
      (let* text := readFileSync CONFIG_DIR "clusters.json" in
       match JSON_parse text with
       | Some parsed => ret parsed
       | None => throw (SyntaxError text)
       end)
      (ret []).

Definition saveClusters (clusters : list Document) : M unit :=
  ensureConfigDir;;
  writeFileSync CONFIG_DIR "clusters.json" (JSON_stringify clusters);;
  chmodSync CONFIG_DIR "clusters.json".

Definition addCluster (cluster : Cluster) : M unit :=
  let* clusters := loadClusters in
  if existsb (name_is (cluster_name cluster)) clusters
  then throw (Error ("A cluster named '" +:+ cluster_name cluster +:+ "' already exists."))
  else saveClusters (clusters ++ [cluster_object cluster]).

Definition removeCluster (name : string) : M unit :=
  let* loaded := loadClusters in
  saveClusters (List.filter (fun c => negb (name_is name c)) loaded).

(** [{ ...c, name: newName }] keeps the fields of [c] in their order. *)
Definition renameCluster (oldName newName : string) : M unit :=
  let* loaded := loadClusters in
  saveClusters
    (map (fun c => if name_is oldName c then alist_set "name" (JStr newName) c else c) loaded).

(** The clusters a world has on record: the parsed text of the file, and
    none if the file is missing or does not parse. *)
Definition stored_clusters (w : World) : list Document :=
  match lookup_entry (fs w) CONFIG_DIR "clusters.json" with
  | Some text => default [] (JSON_parse text)
  | None => []
  end.

(** The registry file, if there is one, holds an array of objects. *)
Definition registry_readable (w : World) : Prop :=
  match lookup_entry (fs w) CONFIG_DIR "clusters.json" with
  | Some text => is_Some (JSON_parse text)
  | None => True
  end.

(** The world once the configuration directory is there. *)
Definition ensured (w : World) : World :=
  if existsSync CONFIG_DIR w then w else set_dir CONFIG_DIR [] w.

End ClusterManager.

(** The renaming [renameCluster] applies to every stored cluster. *)
Definition renamed (oldName newName : string) (c : Document) : Document :=
  if name_is oldName c then alist_set "name" (JStr newName) c else c.

(** The names of a list of clusters (the field [name] of each). *)
Definition cluster_names (l : list Document) : list (option Json) :=
  map (alist_get "name") l.


(** ** Table cells ([src/ui/visualizers.ts])

    A JavaScript string is a sequence of UTF-16 code units, and
    [length], [slice], [repeat] and concatenation count in code units. *)

Definition JsString : Type := list N.

(** ["…"] and [" "] *)
Definition ELLIPSIS : N := 8230%N.
Definition SPACE : N := 32%N.

(** [str.slice(start)]: a negative [start] counts from the end. *)
Definition js_slice (str : JsString) (start : Z) : JsString :=
  let len := Z.of_nat (length str) in
  let from := if (start <? 0)%Z then Z.max (len + start) 0 else Z.min start len in
  drop (Z.to_nat from) str.

Definition truncate (str : JsString) (width : Z) : JsString :=
  if (Z.of_nat (length str) <=? width)%Z then str
  else ELLIPSIS :: js_slice str (- (width - 1)).

Definition pad (str : JsString) (width : Z) : JsString :=
  let s := truncate str width in
  if (width <=? Z.of_nat (length s))%Z then s
  else s ++ repeat SPACE (Z.to_nat (width - Z.of_nat (length s))).

(** * Further sample worlds *)

Module Cases.
Import Examples Scenarios.

(** A cluster with two user databases among the server's own. *)
Definition catalogueStore : MockState :=
  mkMock [("admin", []); ("db1", [("users", docs 2)]); ("local", []); ("db2", [])] [] [] [].

Definition catalogueWorld : World := mkWorld [(mockUri, catalogueStore)] [] [].

(** [original] next to an output directory that still has the record
    file of a collection dropped since. *)
Definition staleEntries : list (string * string) := [("gone.jsonl", "stale")].

Definition staleWorld : World :=
  mkWorld [(mockUri, originalStore)] [("/out", Dir staleEntries)] [].



(** A target database that already holds a collection. *)
Definition busyStore : MockState :=
  mkMock [("src", [("users", [alice])]); ("tgt", [("users", [bob]); ("old", [bob])])] [] [] [].

Definition busyWorld : World := mkWorld [(mockUri, busyStore)] [] [].

Definition busyDumpWorld : World :=
  mkWorld [(mockUri, busyStore)] [("/dump", Dir dumpEntries)] [].

(** The registry of the test suite: [prod] and [staging]. *)
Definition configDir : string := "/home/user/.config/mongo-tools".

Definition prod : Cluster := mkCluster "prod" "mongodb://localhost:27017".
Definition staging : Cluster := mkCluster "staging" "mongodb://localhost:27018".

Definition registryWorld : World :=
  mkWorld []
    [(configDir,
      Dir [("clusters.json",
            @JSON_stringify MiniJson.codec [cluster_object prod; cluster_object staging])])]
    [].

(** The text of a cell label, one code unit per character. *)
Definition units (s : string) : JsString :=
  map (fun c => N.of_nat (nat_of_ascii c)) (list_ascii_of_string s).

End Cases.

(** * Properties

    Every method is first run symbolically: a lemma named [..._run]
    gives its outcome and its end world in terms of the vocabulary above.
    The claims follow from these. *)

(** ** Association lists *)

Section AListFacts.
Context {K V : Type} `{EqDecision K}.
Implicit Types (m : list (K * V)) (k : K) (v : V).

Lemma alist_get_set_eq k v m : alist_get k (alist_set k v m) = Some v.
Proof.
  induction m as [|[k' v'] m IH]; simpl.
  - by rewrite decide_True.
  - destruct (decide (k = k')) as [->|Hne]; simpl.
    + by rewrite decide_True.
    + by rewrite decide_False.
Qed.

Lemma alist_get_set_ne k k' v m :
  k ≠ k' → alist_get k' (alist_set k v m) = alist_get k' m.
Proof.
  intros Hne. induction m as [|[k0 v0] m IH]; simpl.
  - rewrite decide_False; [done|congruence].
  - destruct (decide (k = k0)) as [->|Hne0]; simpl.
    + rewrite !decide_False; [done|congruence..].
    + by rewrite IH.
Qed.

Lemma alist_set_set k v1 v2 m : alist_set k v2 (alist_set k v1 m) = alist_set k v2 m.
Proof.
  induction m as [|[k0 v0] m IH]; simpl.
  - by rewrite decide_True.
  - destruct (decide (k = k0)) as [->|Hne]; simpl.
    + by rewrite decide_True.
    + rewrite decide_False; [|done]. by rewrite IH.
Qed.

Lemma alist_set_same k v m : alist_get k m = Some v → alist_set k v m = m.
Proof.
  induction m as [|[k0 v0] m IH]; simpl; [done|].
  destruct (decide (k = k0)) as [->|Hne]; intros Hg.
  - congruence.
  - by rewrite IH.
Qed.

Lemma alist_get_None k m : alist_get k m = None ↔ k ∉ alist_keys m.
Proof.
  induction m as [|[k0 v0] m IH]; simpl.
  - split; [intros _; apply not_elem_of_nil|done].
  - destruct (decide (k = k0)) as [->|Hne].
    + split; [done|]. intros []. by left.
    + rewrite IH. unfold alist_keys. simpl. rewrite not_elem_of_cons. tauto.
Qed.

Lemma alist_set_fresh k v m : alist_get k m = None → alist_set k v m = m ++ [(k, v)].
Proof.
  induction m as [|[k0 v0] m IH]; simpl; [done|].
  destruct (decide (k = k0)); [done|]. intros Hg. by rewrite IH.
Qed.

Lemma alist_get_app k m1 m2 :
  alist_get k (m1 ++ m2) =
  match alist_get k m1 with Some v => Some v | None => alist_get k m2 end.
Proof.
  induction m1 as [|[k0 v0] m1 IH]; simpl; [done|].
  by destruct (decide (k = k0)).
Qed.
End AListFacts.

(** ** Running computations *)

Lemma bind_ok {A B} (m : M A) (k : A → M B) w a w' :
  m w = (Ok a, w') → bind m k w = k a w'.
Proof. unfold bind. by intros ->. Qed.

Lemma bind_throw {A B} (m : M A) (k : A → M B) w e w' :
  m w = (Throw e, w') → bind m k w = (Throw e, w').
Proof. unfold bind. by intros ->. Qed.

Lemma world_eta w : mkWorld (clusters w) (fs w) (progress w) = w.
Proof. by destruct w. Qed.

Lemma put_cluster_get u s w : alist_get u (clusters (put_cluster u s w)) = Some s.
Proof. apply alist_get_set_eq. Qed.

Lemma put_cluster_get_ne u u' s w :
  u ≠ u' → alist_get u' (clusters (put_cluster u s w)) = alist_get u' (clusters w).
Proof. apply alist_get_set_ne. Qed.

Lemma put_cluster_put u s1 s2 w : put_cluster u s2 (put_cluster u s1 w) = put_cluster u s2 w.
Proof. unfold put_cluster, set_clusters. simpl. by rewrite alist_set_set. Qed.

Lemma put_cluster_same u s w : alist_get u (clusters w) = Some s → put_cluster u s w = w.
Proof.
  intros Hg. unfold put_cluster, set_clusters. rewrite alist_set_same; [|done].
  apply world_eta.
Qed.

Lemma read_cluster_ok {A} h (f : MockState → A) w s :
  alist_get (uri h) (clusters w) = Some s → read_cluster h f w = (Ok (f s), w).
Proof. unfold read_cluster. by intros ->. Qed.

Lemma read_cluster_down {A} h (f : MockState → A) w :
  alist_get (uri h) (clusters w) = None →
  read_cluster h f w = (Throw (MongoServerSelectionError (uri h)), w).
Proof. unfold read_cluster. by intros ->. Qed.

Lemma write_cluster_ok h f w s :
  alist_get (uri h) (clusters w) = Some s →
  write_cluster h f w = (Ok tt, put_cluster (uri h) (f s) w).
Proof. unfold write_cluster. by intros ->. Qed.

Lemma write_cluster_down h f w :
  alist_get (uri h) (clusters w) = None →
  write_cluster h f w = (Throw (MongoServerSelectionError (uri h)), w).
Proof. unfold write_cluster. by intros ->. Qed.

Lemma db_connected this h w : client this = Some h → db this w = (Ok h, w).
Proof. unfold db. by intros ->. Qed.

Lemma db_disconnected this w : client this = None → db this w = (Throw NotConnected, w).
Proof. unfold db. by intros ->. Qed.

(** ** Catalogue *)

Lemma map_async_counts h dbName s w cols :
  alist_get (uri h) (clusters w) = Some s →
  map_async (fun col =>
      let* n := drv_countDocuments h dbName col in
      ret (mkCollectionInfo col n)) cols w
  = (Ok (map (fun col => mkCollectionInfo col (length (mock_find dbName col s))) cols), w).
Proof.
  intros Hs. induction cols as [|c cols IH]; simpl; [done|].
  erewrite bind_ok; last first.
  { erewrite bind_ok; [reflexivity|]. by apply read_cluster_ok. }
  erewrite bind_ok; [|exact IH]. done.
Qed.

Lemma listCollections_ok this h dbName s w :
  client this = Some h →
  alist_get (uri h) (clusters w) = Some s →
  listCollections this dbName w
  = (Ok (map (fun col => mkCollectionInfo col (length (mock_find dbName col s)))
           (mock_listCollections dbName s)), w).
Proof.
  intros Hc Hs. unfold listCollections.
  erewrite bind_ok; [|by apply db_connected].
  erewrite bind_ok; [|by apply read_cluster_ok].
  by apply map_async_counts.
Qed.

Lemma fold_left_add_counts (l : list CollectionInfo) (n : nat) :
  fold_left (fun sum c => sum + col_count c) l n = n + list_sum (map col_count l).
Proof.
  revert n. induction l as [|c l IH]; intros n; simpl; [lia|].
  rewrite IH. lia.
Qed.

(** ** C9: catalogue statistics *)

(** C9. For every database reachable through a connected client,
    [getDbStats] succeeds without changing anything and returns the
    database name, one entry per listed collection (in listing order,
    each with that collection's document count) and a [totalDocuments]
    that is the sum of those counts; on a database of two collections
    with 10 and 5 documents the total is 15 and the list has 2 entries. *)
Theorem getDbStats_sums_counts (this : MongoClient) (h : NativeClient)
    (dbName : string) (s : MockState) (w : World) :
  client this = Some h →
  alist_get (uri h) (clusters w) = Some s →
  ∃ stats,
    getDbStats this dbName w = (Ok stats, w) ∧
    stats_name stats = dbName ∧
    map col_name (stats_collections stats) = mock_listCollections dbName s ∧
    (∀ c, c ∈ stats_collections stats →
          col_count c = length (mock_find dbName (col_name c) s)) ∧
    stats_totalDocuments stats = list_sum (map col_count (stats_collections stats)) ∧
    (∀ a b docs_a docs_b,
        a ≠ b →
        mock_collections dbName s = [(a, docs_a); (b, docs_b)] →
        length docs_a = 10 → length docs_b = 5 →
        stats_totalDocuments stats = 15 ∧ length (stats_collections stats) = 2).
Proof.
  intros Hc Hs. unfold getDbStats.
  erewrite bind_ok; [|by eapply listCollections_ok].
  eexists. split; [reflexivity|]. simpl.
  split; [done|]. split.
  { rewrite map_map. simpl. by rewrite map_id. }
  split.
  { intros c [col [-> _]]%list_elem_of_fmap. done. }
  split.
  { by rewrite fold_left_add_counts. }
  intros a b da db_ Hab Hcols Ha Hb.
  rewrite fold_left_add_counts, map_map. simpl.
  unfold mock_listCollections, mock_find. rewrite Hcols. simpl.
  rewrite decide_True by done. rewrite decide_False by done.
  rewrite decide_True by done. simpl. rewrite Ha, Hb. done.
Qed.

Lemma getDbStats_sums_counts_witness :
  ∃ stats,
    getDbStats Examples.connected "db1" Examples.statsWorld = (Ok stats, Examples.statsWorld) ∧
    stats_totalDocuments stats = 15 ∧ length (stats_collections stats) = 2.
Proof.
  destruct (getDbStats_sums_counts Examples.connected
              (mkNative Examples.mockUri 8000) "db1"
              (mkMock [("db1", [("users", Examples.docs 10); ("posts", Examples.docs 5)])] [] [] [])
              Examples.statsWorld eq_refl eq_refl)
    as (stats & Hrun & _ & _ & _ & _ & Hex).
  exists stats. split; [exact Hrun|].
  exact (Hex "users" "posts" (Examples.docs 10) (Examples.docs 5)
           ltac:(discriminate) eq_refl eq_refl eq_refl).
Defined.

(** ** C7 and C8: guards *)

Section Guards.
Context {codec : Codec}.

Lemma importDb_missing (this : MongoClient) (dbName inDir : string) (cb : bool) (w : World) :
  existsSync inDir w = false →
  importDb this dbName inDir cb w = (Throw (SourceNotFound inDir), w).
Proof. intros Hx. unfold importDb. by rewrite Hx. Qed.

Lemma importDb_present_disconnected (this : MongoClient) (dbName inDir : string)
    (cb : bool) (w : World) :
  client this = None → existsSync inDir w = true →
  importDb this dbName inDir cb w = (Throw NotConnected, w).
Proof.
  intros Hc Hx. unfold importDb. rewrite Hx. simpl.
  erewrite bind_throw; [done|]. by apply db_disconnected.
Qed.

(** C7. Whatever the state of the client, of the clusters and of the
    rest of the file system, [importDb] on a path that does not exist
    throws [Error("Directory not found: " + inDir)] and leaves the world
    as it was: no insert, no index, no file written, no progress call. *)
Theorem importDb_source_not_found (this : MongoClient) (dbName inDir : string)
    (cb : bool) (w : World) :
  existsSync inDir w = false →
  importDb this dbName inDir cb w = (Throw (SourceNotFound inDir), w).
Proof. apply importDb_missing. Qed.

(** C8 (amended). On a client with no handle every data operation fails.
    The six operations that start at the getter throw
    [Error("Not connected to a cluster.")] with no effect; [exportDb]
    first makes the output directory (failing there if the path is a
    regular file) and then throws it; [importDb] throws it only if its
    source directory exists, and the directory-not-found error
    otherwise. *)
Theorem disconnected_operations_fail (this : MongoClient) (w : World) :
  client this = None →
  listDatabases this w = (Throw NotConnected, w) ∧
  (∀ dbName, listCollections this dbName w = (Throw NotConnected, w)) ∧
  (∀ dbName, getDbStats this dbName w = (Throw NotConnected, w)) ∧
  (∀ sourceDb targetDb cb, cloneDb this sourceDb targetDb cb w = (Throw NotConnected, w)) ∧
  (∀ sourceDb targetClient targetDb cb,
      cloneDbToClient this sourceDb targetClient targetDb cb w = (Throw NotConnected, w)) ∧
  (∀ dbName, dropDb this dbName w = (Throw NotConnected, w)) ∧
  (∀ dbName outDir cb,
      exportDb this dbName outDir cb w =
      match alist_get outDir (fs w) with
      | Some (File _) => (Throw (SystemError "EEXIST" outDir), w)
      | Some (Dir _) => (Throw NotConnected, w)
      | None => (Throw NotConnected, set_fs (alist_set outDir (Dir []) (fs w)) w)
      end) ∧
  (∀ dbName inDir cb,
      importDb this dbName inDir cb w =
      (Throw (if existsSync inDir w then NotConnected else SourceNotFound inDir), w)).
Proof.
  intros Hc.
  assert (Hdb : ∀ w', db this w' = (Throw NotConnected, w'))
    by (intros; by apply db_disconnected).
  repeat split; intros.
  - unfold listDatabases. by erewrite bind_throw.
  - unfold listCollections. by erewrite bind_throw.
  - unfold getDbStats, listCollections. erewrite bind_throw; [done|]. by erewrite bind_throw.
  - unfold cloneDb. by erewrite bind_throw.
  - unfold cloneDbToClient. by erewrite bind_throw.
  - unfold dropDb. by erewrite bind_throw.
  - unfold exportDb, bind at 1, mkdirSync.
    destruct (alist_get outDir (fs w)) as [[?|?]|]; [done| |]; by erewrite bind_throw.
  - destruct (existsSync inDir w) eqn:Hx.
    + by apply importDb_present_disconnected.
    + by apply importDb_missing.
Qed.

End Guards.

Lemma importDb_source_not_found_witness :
  importDb (codec := MiniJson.codec) Examples.connected "db1" "/nonexistent/xyz" false
    Examples.statsWorld
  = (Throw (SourceNotFound "/nonexistent/xyz"), Examples.statsWorld).
Proof.
  exact (importDb_source_not_found (codec := MiniJson.codec) Examples.connected "db1"
           "/nonexistent/xyz" false Examples.statsWorld eq_refl).
Defined.

Lemma disconnected_operations_fail_witness :
  listDatabases new_MongoClient Examples.statsWorld = (Throw NotConnected, Examples.statsWorld) ∧
  dropDb new_MongoClient "db1" Examples.statsWorld = (Throw NotConnected, Examples.statsWorld).
Proof.
  destruct (disconnected_operations_fail (codec := MiniJson.codec) new_MongoClient
              Examples.statsWorld eq_refl) as (H1 & _ & _ & _ & _ & H6 & _).
  split; [exact H1 | exact (H6 "db1")].
Defined.

(** C8 as stated fails: a client that never connected, asked to import
    from a directory that does not exist, gets the directory-not-found
    error, which is not the not-connected one. *)
Lemma importDb_disconnected_not_NotConnected :
  importDb (codec := MiniJson.codec) new_MongoClient "db1" "/nonexistent/xyz" false
    Examples.emptyWorld
  = (Throw (Error "Directory not found: /nonexistent/xyz"), Examples.emptyWorld)
  ∧ Error "Directory not found: /nonexistent/xyz" ≠ NotConnected.
Proof. split; [reflexivity | discriminate]. Qed.

(** ** C3: a failed [connect] *)

(** *** Past the guard *)

Lemma passes_ret {A} (a : A) : passes_guard (ret a).
Proof. by intros w. Qed.

Lemma passes_throw {A} e : e ≠ NotConnected → passes_guard (@throw A e).
Proof. intros He w. unfold throw. simpl. congruence. Qed.

Lemma passes_existsSync_in dir name : passes_guard (existsSync_in dir name).
Proof. by intros w. Qed.

Lemma passes_mkdirSync path : passes_guard (mkdirSync path).
Proof. intros w. unfold mkdirSync. by destruct (alist_get path (fs w)) as [[]|]. Qed.

Lemma passes_readdirSync path : passes_guard (readdirSync path).
Proof. intros w. unfold readdirSync. by destruct (alist_get path (fs w)) as [[]|]. Qed.

Lemma passes_readFileSync dir name : passes_guard (readFileSync dir name).
Proof. intros w. unfold readFileSync. by destruct (lookup_entry (fs w) dir name). Qed.

Lemma passes_writeFileSync dir name content : passes_guard (writeFileSync dir name content).
Proof. intros w. unfold writeFileSync. by destruct (alist_get dir (fs w)) as [[]|]. Qed.

Lemma passes_bind {A B} (m : M A) (k : A → M B) :
  passes_guard m → (∀ a, passes_guard (k a)) → passes_guard (bind m k).
Proof.
  intros Hm Hk w. unfold bind. specialize (Hm w).
  destruct (m w) as [[a|e] w']; simpl in *; [apply Hk|].
  intros [= ->]. by apply Hm.
Qed.

Lemma passes_for_loop {A St} (body : nat → A → St → M St) xs :
  (∀ i x st, passes_guard (body i x st)) →
  ∀ i st, passes_guard (for_loop body i xs st).
Proof.
  intros Hbody. induction xs as [|x xs IH]; intros i st; simpl.
  - apply passes_ret.
  - apply passes_bind; [apply Hbody|]. intros st'. apply IH.
Qed.

Lemma passes_map_async {A B} (f : A → M B) xs :
  (∀ x, passes_guard (f x)) → passes_guard (map_async f xs).
Proof.
  intros Hf. induction xs as [|x xs IH]; simpl.
  - apply passes_ret.
  - apply passes_bind; [apply Hf|]. intros y.
    apply passes_bind; [apply IH|]. intros ys. apply passes_ret.
Qed.

Lemma passes_db this h : client this = Some h → passes_guard (db this).
Proof. intros Hc w. unfold db. by rewrite Hc. Qed.

Lemma passes_read_cluster {A} h (f : MockState → A) : passes_guard (read_cluster h f).
Proof. intros w. unfold read_cluster. by destruct (alist_get (uri h) (clusters w)). Qed.

Lemma passes_write_cluster h f : passes_guard (write_cluster h f).
Proof. intros w. unfold write_cluster. by destruct (alist_get (uri h) (clusters w)). Qed.

Lemma passes_call_onCollection cb name i t : passes_guard (call_onCollection cb name i t).
Proof. intros w. unfold call_onCollection. by destruct cb. Qed.

Lemma passes_create_userIndexes h dbName col specs :
  passes_guard (create_userIndexes h dbName col specs).
Proof.
  unfold create_userIndexes. destruct (0 <? length specs);
    [apply passes_write_cluster|apply passes_ret].
Qed.

Lemma passes_counted_push h dbName col doc st : passes_guard (counted_push h dbName col doc st).
Proof.
  unfold counted_push. destruct (BATCH_SIZE <=? _); [|apply passes_ret].
  apply passes_bind; [apply passes_write_cluster|]. intros _. apply passes_ret.
Qed.

Lemma passes_counted_rest h dbName col st : passes_guard (counted_rest h dbName col st).
Proof.
  unfold counted_rest. destruct (0 <? _); [|apply passes_ret].
  apply passes_bind; [apply passes_write_cluster|]. intros _. apply passes_ret.
Qed.

Lemma passes_cloneDb_push h dbName col doc batch :
  passes_guard (cloneDb_push h dbName col doc batch).
Proof.
  unfold cloneDb_push. destruct (BATCH_SIZE <=? _); [|apply passes_ret].
  apply passes_bind; [apply passes_write_cluster|]. intros _. apply passes_ret.
Qed.

Lemma passes_listDatabases this h : client this = Some h → passes_guard (listDatabases this).
Proof.
  intros Hc. unfold listDatabases. apply passes_bind; [by eapply passes_db|]. intros h'.
  apply passes_bind; [apply passes_read_cluster|]. intros r. apply passes_ret.
Qed.

Lemma passes_listCollections this h dbName :
  client this = Some h → passes_guard (listCollections this dbName).
Proof.
  intros Hc. unfold listCollections. apply passes_bind; [by eapply passes_db|]. intros h'.
  apply passes_bind; [apply passes_read_cluster|]. intros cols.
  apply passes_map_async. intros col.
  apply passes_bind; [apply passes_read_cluster|]. intros n. apply passes_ret.
Qed.

Lemma passes_getDbStats this h dbName :
  client this = Some h → passes_guard (getDbStats this dbName).
Proof.
  intros Hc. unfold getDbStats. apply passes_bind; [by eapply passes_listCollections|].
  intros cols. apply passes_ret.
Qed.

Lemma passes_dropDb this h dbName : client this = Some h → passes_guard (dropDb this dbName).
Proof.
  intros Hc. unfold dropDb. apply passes_bind; [by eapply passes_db|]. intros h'.
  apply passes_write_cluster.
Qed.

Lemma passes_cloneDb this h sourceDb targetDb cb :
  client this = Some h → passes_guard (cloneDb this sourceDb targetDb cb).
Proof.
  intros Hc. unfold cloneDb.
  apply passes_bind; [by eapply passes_db|]. intros source.
  apply passes_bind; [by eapply passes_db|]. intros target.
  apply passes_bind; [apply passes_read_cluster|]. intros cols.
  apply passes_for_loop. intros i col _. unfold cloneDb_collection.
  apply passes_bind; [apply passes_call_onCollection|]. intros _.
  apply passes_bind; [apply passes_read_cluster|]. intros cursor.
  apply passes_bind; [apply passes_for_loop; intros; apply passes_cloneDb_push|].
  intros batch. apply passes_bind.
  { destruct (0 <? _); [apply passes_write_cluster|apply passes_ret]. }
  intros _. apply passes_bind; [apply passes_read_cluster|]. intros indexes.
  apply passes_create_userIndexes.
Qed.

Lemma passes_cloneDbToClient this h target ht sourceDb targetDb cb :
  client this = Some h → client target = Some ht →
  passes_guard (cloneDbToClient this sourceDb target targetDb cb).
Proof.
  intros Hc Ht. unfold cloneDbToClient.
  apply passes_bind; [by eapply passes_db|]. intros hs.
  apply passes_bind; [by eapply passes_db|]. intros ht'.
  apply passes_bind; [apply passes_read_cluster|]. intros cols.
  apply passes_bind; [|intros n; apply passes_ret].
  apply passes_for_loop. intros i col n. unfold cloneDbToClient_collection.
  apply passes_bind; [apply passes_call_onCollection|]. intros _.
  apply passes_bind; [apply passes_read_cluster|]. intros cursor.
  apply passes_bind; [apply passes_for_loop; intros; apply passes_counted_push|].
  intros st. apply passes_bind; [apply passes_counted_rest|]. intros m.
  apply passes_bind; [apply passes_read_cluster|]. intros indexes.
  apply passes_bind; [apply passes_create_userIndexes|]. intros _. apply passes_ret.
Qed.

Section FailedConnect.
Context {codec : Codec} {cs : ConnectionStrings}.

Lemma passes_stream_write dir name chunk : passes_guard (stream_write dir name chunk).
Proof.
  unfold stream_write. apply passes_bind; [apply passes_readFileSync|]. intros old.
  apply passes_writeFileSync.
Qed.

Lemma passes_exportDb this h dbName outDir cb :
  client this = Some h → passes_guard (exportDb this dbName outDir cb).
Proof.
  intros Hc. unfold exportDb.
  apply passes_bind; [apply passes_mkdirSync|]. intros _.
  apply passes_bind; [by eapply passes_db|]. intros h'.
  apply passes_bind; [apply passes_read_cluster|]. intros cols.
  apply passes_bind; [|intros n; apply passes_ret].
  apply passes_for_loop. intros i col n. unfold exportDb_collection.
  repeat first
    [ apply passes_ret | apply passes_call_onCollection | apply passes_read_cluster
    | apply passes_writeFileSync | apply passes_stream_write
    | apply passes_for_loop; intros
    | apply passes_bind; [|intros] ].
Qed.

Lemma passes_importDb_line h dbName colName line st :
  passes_guard (importDb_line h dbName colName line st).
Proof.
  unfold importDb_line. destruct (decide _); [apply passes_ret|].
  destruct (EJSON_parse _); [apply passes_counted_push|by apply passes_throw].
Qed.

Lemma passes_importDb this h dbName inDir cb :
  client this = Some h → passes_guard (importDb this dbName inDir cb).
Proof.
  intros Hc w. unfold importDb. destruct (negb _); [done|]. revert w.
  change (passes_guard
    (let* h := db this in
     let* entries := readdirSync inDir in
     let files := List.filter (fun f => endsWith f ".jsonl") entries in
     let* totalDocuments :=
       for_loop (importDb_file h dbName inDir cb (length files)) 0 files 0 in
     ret (mkImportResult (length files) totalDocuments))).
  apply passes_bind; [by eapply passes_db|]. intros h'.
  apply passes_bind; [apply passes_readdirSync|]. intros entries.
  apply passes_bind; [|intros n; apply passes_ret].
  apply passes_for_loop. intros i file n. unfold importDb_file.
  apply passes_bind; [apply passes_call_onCollection|]. intros _.
  apply passes_bind; [apply passes_readFileSync|]. intros text.
  apply passes_bind; [apply passes_for_loop; intros; apply passes_importDb_line|].
  intros st. apply passes_bind; [apply passes_counted_rest|]. intros m.
  apply passes_bind; [apply passes_existsSync_in|]. intros present.
  apply passes_bind; [|intros _; apply passes_ret].
  destruct present; [|apply passes_ret].
  apply passes_bind; [apply passes_readFileSync|]. intros side.
  destruct (JSON_parse side); [apply passes_create_userIndexes|by apply passes_throw].
Qed.

Lemma connect_handle (this : MongoClient) (u : string) (w : World) :
  accepted u = true → client (fst (connect this u w)) = Some (mkNative u 8000).
Proof. intros Hu. unfold connect, new_NativeClient. by rewrite Hu. Qed.

(** C3 (amended). A [connect(uri)] that fails has failed in one of two
    places.  Either the driver did not accept the string when the handle
    was built: its parse error is thrown before anything is stored and
    the wrapper is as it was.  Or the handle was built and the
    connection attempt failed: the error is that attempt's and the
    wrapper keeps the new handle, so that in every later world the
    getter answers with it and no data operation (listing, statistics,
    drop, either copy, export, import) fails with the not-connected
    error of the guard. *)
Theorem connect_failure_keeps_handle
    (this : MongoClient) (u : string) (w : World) (e : Exn) :
  snd (connect this u w) = Throw e →
  (accepted u = false ∧ e = MongoParseError u ∧ fst (connect this u w) = this) ∨
  (accepted u = true ∧
   fst (native_connect (mkNative u 8000) w) = Throw e ∧
   client (fst (connect this u w)) = Some (mkNative u 8000) ∧
   (∀ w', db (fst (connect this u w)) w' = (Ok (mkNative u 8000), w')) ∧
   (∀ w', fst (listDatabases (fst (connect this u w)) w') ≠ Throw NotConnected) ∧
   (∀ w' dbName,
       fst (listCollections (fst (connect this u w)) dbName w') ≠ Throw NotConnected) ∧
   (∀ w' dbName,
       fst (getDbStats (fst (connect this u w)) dbName w') ≠ Throw NotConnected) ∧
   (∀ w' dbName,
       fst (dropDb (fst (connect this u w)) dbName w') ≠ Throw NotConnected) ∧
   (∀ w' sourceDb targetDb cb,
       fst (cloneDb (fst (connect this u w)) sourceDb targetDb cb w') ≠ Throw NotConnected) ∧
   (∀ w' sourceDb target ht targetDb cb,
       client target = Some ht →
       fst (cloneDbToClient (fst (connect this u w)) sourceDb target targetDb cb w')
       ≠ Throw NotConnected) ∧
   (∀ w' dbName outDir cb,
       fst (exportDb (fst (connect this u w)) dbName outDir cb w') ≠ Throw NotConnected) ∧
   (∀ w' dbName inDir cb,
       fst (importDb (fst (connect this u w)) dbName inDir cb w') ≠ Throw NotConnected)).
Proof.
  unfold connect, new_NativeClient.
  destruct (accepted u) eqn:Hu; simpl.
  - intros He. right. split; [done|]. split; [exact He|].
    set (h := mkNative u 8000). set (this' := mkClient (Some h)).
    assert (Hc : client this' = Some h) by done.
    split; [done|]. split; [done|].
    split; [intros w'; by eapply passes_listDatabases|].
    split; [intros w' dbName; by eapply passes_listCollections|].
    split; [intros w' dbName; by eapply passes_getDbStats|].
    split; [intros w' dbName; by eapply passes_dropDb|].
    split; [intros w' sourceDb targetDb cb; by eapply passes_cloneDb|].
    split; [intros w' sourceDb target ht targetDb cb Ht; by eapply passes_cloneDbToClient|].
    split; [intros w' dbName outDir cb; by eapply passes_exportDb|].
    intros w' dbName inDir cb. by eapply passes_importDb.
  - intros [= <-]. by left.
Qed.

End FailedConnect.

Lemma connect_failure_keeps_handle_witness :
  client (fst (connect (cs := Examples.scheme_only) new_MongoClient "mongodb://down"
                 Examples.statsWorld))
  = Some (mkNative "mongodb://down" 8000) ∧
  fst (listDatabases
         (fst (connect (cs := Examples.scheme_only) new_MongoClient "mongodb://down"
                 Examples.statsWorld))
         Examples.statsWorld)
  ≠ Throw NotConnected.
Proof.
  destruct (connect_failure_keeps_handle (codec := MiniJson.codec)
              (cs := Examples.scheme_only) new_MongoClient
              "mongodb://down" Examples.statsWorld
              (MongoServerSelectionError "mongodb://down") eq_refl)
    as [(Hno & _)|(_ & _ & Hhandle & _ & Hlist & _)]; [discriminate Hno|].
  split; [exact Hhandle | exact (Hlist Examples.statsWorld)].
Defined.

(** C3 as stated fails: after a failed [connect] the wrapper is not back
    in the state of a fresh or disconnected one, and the next operation
    does not throw the not-connected error. *)
Lemma connect_failure_not_disconnected :
  snd (connect (cs := Examples.scheme_only) new_MongoClient "mongodb://down"
         Examples.emptyWorld)
  = Throw (MongoServerSelectionError "mongodb://down")
  ∧ client (fst (connect (cs := Examples.scheme_only) new_MongoClient "mongodb://down"
                   Examples.emptyWorld)) ≠ None
  ∧ fst (listDatabases
           (fst (connect (cs := Examples.scheme_only) new_MongoClient "mongodb://down"
                   Examples.emptyWorld))
           Examples.emptyWorld)
    ≠ Throw NotConnected.
Proof. repeat split; [discriminate | discriminate]. Qed.

(** ** Batching: the arithmetic of the flushes *)

Lemma BATCH_SIZE_pos : 0 < BATCH_SIZE.
Proof. unfold BATCH_SIZE. lia. Qed.

#[global] Opaque BATCH_SIZE.

Lemma run_batches_inv (batch docs : list Document) :
  length batch < BATCH_SIZE →
  concat (fst (run_batches batch docs)) ++ snd (run_batches batch docs) = batch ++ docs ∧
  Forall (fun b => length b = BATCH_SIZE) (fst (run_batches batch docs)) ∧
  length (snd (run_batches batch docs)) < BATCH_SIZE.
Proof.
  revert batch. induction docs as [|doc docs IH]; intros batch Hlt; simpl.
  - rewrite app_nil_r. auto.
  - destruct (BATCH_SIZE <=? length (batch ++ [doc])) eqn:Hfull; simpl.
    + apply Nat.leb_le in Hfull. rewrite length_app in Hfull. simpl in Hfull.
      destruct (IH [] BATCH_SIZE_pos) as (Hcat & Hall & Hr). simpl in Hcat.
      split; [|split; [|done]].
      * rewrite <- !app_assoc. simpl. by rewrite Hcat.
      * constructor; [|done]. rewrite length_app. simpl. lia.
    + apply Nat.leb_gt in Hfull.
      destruct (IH (batch ++ [doc]) Hfull) as (Hcat & Hall & Hr).
      split; [|done]. rewrite Hcat, <- app_assoc. done.
Qed.

Lemma concat_length_full (bs : list (list Document)) :
  Forall (fun b => length b = BATCH_SIZE) bs →
  length (concat bs) = BATCH_SIZE * length bs.
Proof.
  induction 1 as [|b bs Hb _ IH]; simpl; [lia|].
  rewrite length_app, IH, Hb. lia.
Qed.

Lemma run_batches_count (docs : list Document) :
  length docs = BATCH_SIZE * length (fst (run_batches [] docs))
                + length (snd (run_batches [] docs)).
Proof.
  destruct (run_batches_inv [] docs BATCH_SIZE_pos) as (Hcat & Hall & _).
  simpl in Hcat. rewrite <- Hcat at 1.
  by rewrite length_app, concat_length_full.
Qed.

Lemma flushes_concat (docs : list Document) : concat (flushes docs) = docs.
Proof.
  destruct (run_batches_inv [] docs BATCH_SIZE_pos) as (Hcat & _ & _).
  simpl in Hcat. unfold flushes. rewrite concat_app.
  destruct (0 <? length (snd (run_batches [] docs))) eqn:Hr; simpl.
  - by rewrite app_nil_r.
  - apply Nat.ltb_ge in Hr.
    destruct (snd (run_batches [] docs)); [|simpl in Hr; lia].
    by rewrite app_nil_r in *.
Qed.

Lemma ceil_div_decompose (q r : nat) :
  r < BATCH_SIZE →
  ceil_div (BATCH_SIZE * q + r) BATCH_SIZE = q + (if 0 <? r then 1 else 0).
Proof.
  intros Hr. unfold ceil_div.
  pose proof BATCH_SIZE_pos as Hpos.
  destruct (0 <? r) eqn:H0.
  - apply Nat.ltb_lt in H0. symmetry.
    apply (Nat.div_unique _ _ _ (r - 1)); lia.
  - apply Nat.ltb_ge in H0. symmetry.
    apply (Nat.div_unique _ _ _ (BATCH_SIZE - 1)); lia.
Qed.

(** The arithmetic of the flushes: how many, how large, and in which
    order. *)
Lemma flushes_shape (docs : list Document) :
  0 < length docs →
  length (flushes docs) = ceil_div (length docs) BATCH_SIZE ∧
  (∀ i b, i < length (flushes docs) - 1 → flushes docs !! i = Some b →
          length b = BATCH_SIZE) ∧
  (∃ final, last (flushes docs) = Some final ∧
            length final = length docs - BATCH_SIZE * (ceil_div (length docs) BATCH_SIZE - 1)) ∧
  Forall (fun b => 0 < length b ≤ BATCH_SIZE) (flushes docs) ∧
  concat (flushes docs) = docs.
Proof.
  intros Hpos.
  enough (length (flushes docs) = ceil_div (length docs) BATCH_SIZE ∧
          (∀ i b, i < length (flushes docs) - 1 → flushes docs !! i = Some b →
                  length b = BATCH_SIZE) ∧
          (∃ final, last (flushes docs) = Some final ∧
             length final
             = length docs - BATCH_SIZE * (ceil_div (length docs) BATCH_SIZE - 1)) ∧
          Forall (fun b => 0 < length b ≤ BATCH_SIZE) (flushes docs)) as (H1 & H2 & H3 & H4).
  { repeat split; try done. apply flushes_concat. }
  destruct (run_batches_inv [] docs BATCH_SIZE_pos) as (_ & Hall & Hr).
  pose proof (run_batches_count docs) as Hcount.
  pose proof (ceil_div_decompose (length (fst (run_batches [] docs))) _ Hr) as Hceil.
  rewrite <- Hcount in Hceil.
  pose proof BATCH_SIZE_pos as HB.
  unfold flushes in *.
  set (full := fst (run_batches [] docs)) in *.
  set (rest := snd (run_batches [] docs)) in *.
  destruct (0 <? length rest) eqn:H0.
  - apply Nat.ltb_lt in H0.
    split; [rewrite length_app; simpl; lia|].
    split.
    { intros i b Hi Hb. rewrite length_app in Hi. simpl in Hi.
      rewrite lookup_app_l in Hb by lia.
      rewrite Forall_forall in Hall. apply Hall.
      by eapply list_elem_of_lookup_2. }
    split.
    { exists rest. split; [by rewrite last_snoc|]. rewrite Hceil. nia. }
    apply Forall_app. split.
    + eapply Forall_impl; [exact Hall|]. simpl. intros b ->. lia.
    + constructor; [lia|constructor].
  - apply Nat.ltb_ge in H0. rewrite app_nil_r.
    assert (Hq : 0 < length full) by nia.
    split; [lia|].
    split.
    { intros i b Hi Hb. rewrite Forall_forall in Hall. apply Hall.
      by eapply list_elem_of_lookup_2. }
    split.
    { destruct (last full) as [final|] eqn:Hlast.
      - exists final. split; [done|].
        assert (length final = BATCH_SIZE) as ->.
        { rewrite Forall_forall in Hall. apply Hall.
          apply last_Some in Hlast as [l' ->]. apply elem_of_app. right. by left. }
        rewrite Hceil. nia.
      - apply last_None in Hlast. rewrite Hlast in Hq. simpl in Hq. lia. }
    eapply Forall_impl; [exact Hall|]. simpl. intros b ->. lia.
Qed.

(** *** What the batches do to a store *)

Lemma insert_batches_app dbName col bs1 bs2 s :
  insert_batches dbName col (bs1 ++ bs2) s
  = insert_batches dbName col bs2 (insert_batches dbName col bs1 s).
Proof. unfold insert_batches. by rewrite fold_left_app. Qed.

Lemma mock_insertMany_batches dbName col b s :
  batches_of dbName col (mock_insertMany dbName col b s) = batches_of dbName col s ++ [b].
Proof. unfold batches_of. simpl. by rewrite alist_get_set_eq. Qed.

Lemma mock_insertMany_find dbName col b s :
  mock_find dbName col (mock_insertMany dbName col b s) = mock_find dbName col s ++ b.
Proof.
  unfold mock_find at 1, mock_collections at 1. simpl.
  rewrite alist_get_set_eq. simpl. by rewrite alist_get_set_eq.
Qed.

Lemma insert_batches_batches dbName col bs s :
  batches_of dbName col (insert_batches dbName col bs s) = batches_of dbName col s ++ bs.
Proof.
  revert s. induction bs as [|b bs IH]; intros s; simpl.
  - by rewrite app_nil_r.
  - change (insert_batches dbName col (b :: bs) s)
      with (insert_batches dbName col bs (mock_insertMany dbName col b s)).
    rewrite IH, mock_insertMany_batches, <- app_assoc. done.
Qed.

Lemma insert_batches_find dbName col bs s :
  mock_find dbName col (insert_batches dbName col bs s)
  = mock_find dbName col s ++ concat bs.
Proof.
  revert s. induction bs as [|b bs IH]; intros s; simpl.
  - by rewrite app_nil_r.
  - change (insert_batches dbName col (b :: bs) s)
      with (insert_batches dbName col bs (mock_insertMany dbName col b s)).
    rewrite IH, mock_insertMany_find, <- app_assoc. done.
Qed.

Lemma insert_batches_colIndexes dbName col bs s :
  colIndexes (insert_batches dbName col bs s) = colIndexes s.
Proof.
  revert s. induction bs as [|b bs IH]; intros s; [done|].
  change (insert_batches dbName col (b :: bs) s)
    with (insert_batches dbName col bs (mock_insertMany dbName col b s)).
  by rewrite IH.
Qed.

Lemma insert_batches_createdIndexes dbName col bs s :
  createdIndexes (insert_batches dbName col bs s) = createdIndexes s.
Proof.
  revert s. induction bs as [|b bs IH]; intros s; [done|].
  change (insert_batches dbName col (b :: bs) s)
    with (insert_batches dbName col bs (mock_insertMany dbName col b s)).
  by rewrite IH.
Qed.

Lemma create_if_any_created dbName col specs s :
  created_of dbName col (create_if_any dbName col specs s)
  = created_of dbName col s ++ (if 0 <? length specs then [specs] else []).
Proof.
  unfold create_if_any, created_of. destruct (0 <? length specs); simpl.
  - by rewrite alist_get_set_eq.
  - by rewrite app_nil_r.
Qed.

Lemma create_if_any_dbs dbName col specs s :
  dbs (create_if_any dbName col specs s) = dbs s.
Proof. unfold create_if_any. by destruct (0 <? length specs). Qed.

Lemma create_if_any_colIndexes dbName col specs s :
  colIndexes (create_if_any dbName col specs s) = colIndexes s.
Proof. unfold create_if_any. by destruct (0 <? length specs). Qed.

Lemma create_if_any_insertBatches dbName col specs s :
  insertBatches (create_if_any dbName col specs s) = insertBatches s.
Proof. unfold create_if_any. by destruct (0 <? length specs). Qed.

(** *** The document loops, run *)

Lemma insertMany_run h dbName col b w s :
  alist_get (uri h) (clusters w) = Some s →
  drv_insertMany h dbName col b w
  = (Ok tt, put_cluster (uri h) (mock_insertMany dbName col b s) w).
Proof. apply write_cluster_ok. Qed.

Lemma counted_loop_run h dbName col docs batch total i w s :
  alist_get (uri h) (clusters w) = Some s →
  for_loop (fun _ => counted_push h dbName col) i docs (batch, total) w
  = (Ok (snd (run_batches batch docs),
         total + length (concat (fst (run_batches batch docs)))),
     put_cluster (uri h) (insert_batches dbName col (fst (run_batches batch docs)) s) w).
Proof.
  revert batch total i w s.
  induction docs as [|doc docs IH]; intros batch total i w s Hs; simpl.
  - rewrite Nat.add_0_r. unfold ret. by rewrite put_cluster_same.
  - unfold counted_push at 1. simpl.
    destruct (BATCH_SIZE <=? length (batch ++ [doc])) eqn:Hfull; simpl.
    + erewrite bind_ok; last first.
      { erewrite bind_ok; [reflexivity|]. by apply insertMany_run. }
      erewrite IH; [|apply put_cluster_get].
      rewrite put_cluster_put, !length_app. do 3 f_equal. simpl. lia.
    + erewrite bind_ok; [|reflexivity]. by apply IH.
Qed.

Lemma cloneDb_loop_run h dbName col docs batch i w s :
  alist_get (uri h) (clusters w) = Some s →
  for_loop (fun _ => cloneDb_push h dbName col) i docs batch w
  = (Ok (snd (run_batches batch docs)),
     put_cluster (uri h) (insert_batches dbName col (fst (run_batches batch docs)) s) w).
Proof.
  revert batch i w s.
  induction docs as [|doc docs IH]; intros batch i w s Hs; simpl.
  - unfold ret. by rewrite put_cluster_same.
  - unfold cloneDb_push at 1. simpl.
    destruct (BATCH_SIZE <=? length (batch ++ [doc])) eqn:Hfull; simpl.
    + erewrite bind_ok; last first.
      { erewrite bind_ok; [reflexivity|]. by apply insertMany_run. }
      erewrite IH; [|apply put_cluster_get].
      by rewrite put_cluster_put.
    + erewrite bind_ok; [|reflexivity]. by apply IH.
Qed.

Lemma insert_batches_flushes dbName col docs s :
  insert_batches dbName col (flushes docs) s
  = (if 0 <? length (snd (run_batches [] docs))
     then mock_insertMany dbName col (snd (run_batches [] docs))
     else fun s => s)
      (insert_batches dbName col (fst (run_batches [] docs)) s).
Proof.
  unfold flushes. rewrite insert_batches_app.
  by destruct (0 <? length (snd (run_batches [] docs))).
Qed.

(** The counting loop followed by the final flush moves every document:
    the count grows by their number, the store receives [flushes docs]. *)
Lemma counted_transfer_run h dbName col docs total i w s :
  alist_get (uri h) (clusters w) = Some s →
  (let* st := for_loop (fun _ => counted_push h dbName col) i docs ([], total) in
   counted_rest h dbName col st) w
  = (Ok (total + length docs),
     put_cluster (uri h) (insert_batches dbName col (flushes docs) s) w).
Proof.
  intros Hs. erewrite bind_ok; [|by apply counted_loop_run].
  pose proof (run_batches_inv [] docs BATCH_SIZE_pos) as (Hcat & _ & _).
  simpl in Hcat. apply (f_equal length) in Hcat. rewrite length_app in Hcat.
  rewrite insert_batches_flushes. unfold counted_rest. simpl.
  destruct (0 <? length (snd (run_batches [] docs))) eqn:Hr.
  - erewrite bind_ok; [|apply insertMany_run, put_cluster_get].
    unfold ret. rewrite put_cluster_put. f_equal. f_equal. lia.
  - apply Nat.ltb_ge in Hr. unfold ret. f_equal. f_equal. lia.
Qed.

Lemma cloneDb_transfer_run h dbName col docs i w s :
  alist_get (uri h) (clusters w) = Some s →
  (let* batch := for_loop (fun _ => cloneDb_push h dbName col) i docs [] in
   if 0 <? length batch then drv_insertMany h dbName col batch else ret tt) w
  = (Ok tt, put_cluster (uri h) (insert_batches dbName col (flushes docs) s) w).
Proof.
  intros Hs. erewrite bind_ok; [|by apply cloneDb_loop_run].
  rewrite insert_batches_flushes.
  destruct (0 <? length (snd (run_batches [] docs))) eqn:Hr.
  - erewrite insertMany_run; [|apply put_cluster_get]. by rewrite put_cluster_put.
  - done.
Qed.

Lemma bind_assoc_run {A B C} (m : M A) (f : A → M B) (g : B → M C) w :
  bind (bind m f) g w = bind m (fun x => bind (f x) g) w.
Proof. unfold bind. by destruct (m w) as [[a|e] w']. Qed.

(** *** Progress calls *)

Lemma call_onCollection_run cb name i t w :
  call_onCollection cb name i t w = (Ok tt, log_progress cb name i t w).
Proof. unfold call_onCollection, log_progress. by destruct cb. Qed.

Lemma log_progress_clusters cb name i t w : clusters (log_progress cb name i t w) = clusters w.
Proof. unfold log_progress. by destruct cb. Qed.

Lemma log_progress_fs cb name i t w : fs (log_progress cb name i t w) = fs w.
Proof. unfold log_progress. by destruct cb. Qed.

Lemma put_cluster_fs u s w : fs (put_cluster u s w) = fs w.
Proof. done. Qed.

Lemma put_cluster_progress u s w : progress (put_cluster u s w) = progress w.
Proof. done. Qed.

(** *** One collection of a live-to-live transfer *)

Lemma indexes_after_insert hs ht sourceDb targetDb col bs w ss st :
  alist_get (uri hs) (clusters w) = Some ss →
  alist_get (uri ht) (clusters w) = Some st →
  drv_indexes hs sourceDb col (put_cluster (uri ht) (insert_batches targetDb col bs st) w)
  = (Ok (mock_indexes sourceDb col ss),
     put_cluster (uri ht) (insert_batches targetDb col bs st) w).
Proof.
  intros Hss Hst. unfold drv_indexes.
  destruct (decide (uri ht = uri hs)) as [Heq|Hne].
  - erewrite read_cluster_ok; [|rewrite <- Heq; apply put_cluster_get].
    rewrite Heq, Hss in Hst. injection Hst as ->.
    unfold mock_indexes. by rewrite insert_batches_colIndexes.
  - erewrite read_cluster_ok; [done|]. by rewrite put_cluster_get_ne.
Qed.

Lemma create_userIndexes_run h dbName col specs w s :
  alist_get (uri h) (clusters w) = Some s →
  create_userIndexes h dbName col specs w
  = (Ok tt, put_cluster (uri h) (create_if_any dbName col specs s) w).
Proof.
  intros Hs. unfold create_userIndexes, create_if_any.
  destruct (0 <? length specs).
  - by apply write_cluster_ok.
  - unfold ret. by rewrite put_cluster_same.
Qed.

Lemma cloneDbToClient_collection_run hs ht sourceDb targetDb cb total i col n w ss st :
  alist_get (uri hs) (clusters w) = Some ss →
  alist_get (uri ht) (clusters w) = Some st →
  cloneDbToClient_collection hs ht sourceDb targetDb cb total i col n w
  = (Ok (n + length (mock_find sourceDb col ss)),
     put_cluster (uri ht) (clone_effect sourceDb targetDb col ss st)
       (log_progress cb col (i + 1) total w)).
Proof.
  intros Hss Hst. unfold cloneDbToClient_collection.
  erewrite bind_ok; [|apply call_onCollection_run].
  set (w1 := log_progress cb col (i + 1) total w).
  assert (Hss1 : alist_get (uri hs) (clusters w1) = Some ss)
    by (unfold w1; by rewrite log_progress_clusters).
  assert (Hst1 : alist_get (uri ht) (clusters w1) = Some st)
    by (unfold w1; by rewrite log_progress_clusters).
  erewrite bind_ok; [|by apply read_cluster_ok].
  rewrite <- bind_assoc_run.
  erewrite bind_ok; [|by apply counted_transfer_run].
  erewrite bind_ok; [|by apply indexes_after_insert].
  erewrite bind_ok; [|apply create_userIndexes_run, put_cluster_get].
  unfold ret. by rewrite put_cluster_put.
Qed.

Lemma cloneDb_collection_run h sourceDb targetDb cb total i col w s :
  alist_get (uri h) (clusters w) = Some s →
  cloneDb_collection h h sourceDb targetDb cb total i col w
  = (Ok tt,
     put_cluster (uri h) (clone_effect sourceDb targetDb col s s)
       (log_progress cb col (i + 1) total w)).
Proof.
  intros Hs. unfold cloneDb_collection.
  erewrite bind_ok; [|apply call_onCollection_run].
  set (w1 := log_progress cb col (i + 1) total w).
  assert (Hs1 : alist_get (uri h) (clusters w1) = Some s)
    by (unfold w1; by rewrite log_progress_clusters).
  erewrite bind_ok; [|by apply read_cluster_ok].
  rewrite <- bind_assoc_run.
  erewrite bind_ok; [|by apply cloneDb_transfer_run].
  erewrite bind_ok; [|by apply indexes_after_insert].
  erewrite create_userIndexes_run; [|apply put_cluster_get].
  by rewrite put_cluster_put.
Qed.

(** *** One record file of an import *)

Section ImportFile.
Context {codec : Codec}.

Lemma bind_ext_run {A B} (m : M A) (k1 k2 : A → M B) w :
  (∀ a w', k1 a w' = k2 a w') → bind m k1 w = bind m k2 w.
Proof. intros Hk. unfold bind. destruct (m w) as [[a|e] w']; [apply Hk|done]. Qed.

Lemma bind_cong_run {A B} (m1 m2 : M A) (k : A → M B) w :
  m1 w = m2 w → bind m1 k w = bind m2 k w.
Proof. unfold bind. by intros ->. Qed.

Lemma import_loop_as_docs h dbName colName lines docs st i j w :
  parse_lines lines = Some docs →
  for_loop (fun _ => importDb_line h dbName colName) i lines st w
  = for_loop (fun _ => counted_push h dbName colName) j docs st w.
Proof.
  revert docs st i j w.
  induction lines as [|line lines IH]; intros docs st i j w Hp; simpl in Hp.
  - by injection Hp as <-.
  - simpl. unfold importDb_line at 1.
    destruct (decide (trim line = EmptyString)) as [Hblank|Hline].
    + erewrite bind_ok; [|reflexivity]. by apply IH.
    + destruct (EJSON_parse (trim line)) as [doc|]; [|done].
      destruct (parse_lines lines) as [docs'|] eqn:Hrest; [|done].
      injection Hp as <-. simpl.
      apply bind_ext_run. intros st' w'. by apply IH.
Qed.

Lemma readFileSync_run inDir name w entries text :
  alist_get inDir (fs w) = Some (Dir entries) →
  alist_get name entries = Some text →
  readFileSync inDir name w = (Ok text, w).
Proof. intros Hd Hf. unfold readFileSync, lookup_entry. by rewrite Hd, Hf. Qed.

Lemma existsSync_in_run inDir name w entries :
  alist_get inDir (fs w) = Some (Dir entries) →
  existsSync_in inDir name w = (Ok (bool_decide (is_Some (alist_get name entries))), w).
Proof. intros Hd. unfold existsSync_in, lookup_entry. by rewrite Hd. Qed.

Lemma importDb_file_run h dbName inDir cb total i file n w s entries text docs raw :
  alist_get (uri h) (clusters w) = Some s →
  alist_get inDir (fs w) = Some (Dir entries) →
  alist_get file entries = Some text →
  parse_lines (readline text) = Some docs →
  sidecar_indexes (alist_get (replace_jsonl file +:+ ".indexes.json") entries) = Some raw →
  importDb_file h dbName inDir cb total i file n w
  = (Ok (n + length docs),
     put_cluster (uri h) (import_effect dbName (replace_jsonl file) docs raw s)
       (log_progress cb (replace_jsonl file) (i + 1) total w)).
Proof.
  intros Hs Hdir Hfile Hdocs Hraw. unfold importDb_file.
  erewrite bind_ok; [|apply call_onCollection_run].
  set (colName := replace_jsonl file) in *.
  set (w1 := log_progress cb colName (i + 1) total w).
  assert (Hs1 : alist_get (uri h) (clusters w1) = Some s)
    by (unfold w1; by rewrite log_progress_clusters).
  assert (Hdir1 : alist_get inDir (fs w1) = Some (Dir entries))
    by (unfold w1; by rewrite log_progress_fs).
  erewrite bind_ok; [|by eapply readFileSync_run].
  erewrite bind_cong_run; [|by apply (import_loop_as_docs _ _ _ _ docs _ 0 0)].
  rewrite <- bind_assoc_run.
  erewrite bind_ok; [|by apply counted_transfer_run].
  set (s1 := insert_batches dbName colName (flushes docs) s).
  erewrite bind_ok; [|by apply (existsSync_in_run inDir _ _ entries)].
  unfold sidecar_indexes in Hraw.
  destruct (alist_get (colName +:+ ".indexes.json") entries) as [itext|] eqn:Hside.
  - rewrite bool_decide_true by eauto.
    erewrite bind_ok; last first.
    { erewrite bind_ok; [|by eapply readFileSync_run].
      rewrite Hraw. apply create_userIndexes_run, put_cluster_get. }
    unfold ret. by rewrite put_cluster_put.
  - rewrite bool_decide_false by (by intros [? ?]).
    injection Hraw as <-.
    erewrite bind_ok; [|reflexivity].
    unfold ret, import_effect, create_if_any. simpl. done.
Qed.

End ImportFile.

(** ** The flushes of one collection *)

Lemma flushes_batched (docs : list Document) :
  0 < length docs → batched (length docs) (flushes docs).
Proof. intros Hpos. destruct (flushes_shape docs Hpos) as (?&?&?&_). by repeat split. Qed.

Lemma clone_effect_batches sourceDb targetDb col ss st :
  batches_of targetDb col (clone_effect sourceDb targetDb col ss st)
  = batches_of targetDb col st ++ flushes (mock_find sourceDb col ss).
Proof.
  unfold clone_effect, batches_of. rewrite create_if_any_insertBatches.
  apply insert_batches_batches.
Qed.

Lemma clone_effect_created sourceDb targetDb col ss st :
  created_of targetDb col (clone_effect sourceDb targetDb col ss st)
  = created_of targetDb col st ++
    (if 0 <? length (userIndexes_of (mock_indexes sourceDb col ss))
     then [userIndexes_of (mock_indexes sourceDb col ss)] else []).
Proof.
  unfold clone_effect. rewrite create_if_any_created. f_equal.
  unfold created_of. by rewrite insert_batches_createdIndexes.
Qed.

Lemma pending_counted h dbName col pre batch total w s :
  alist_get (uri h) (clusters w) = Some s →
  length batch < BATCH_SIZE →
  ∃ st w', for_loop (fun _ => counted_push h dbName col) 0 pre (batch, total) w = (Ok st, w') ∧
           length (fst st) < BATCH_SIZE.
Proof.
  intros Hs Hb. erewrite counted_loop_run by done.
  do 2 eexists. split; [reflexivity|]. simpl.
  by apply run_batches_inv.
Qed.

(** ** Index descriptors handed to the sink *)

Lemma strip_v_ns_get (idx : Document) (k : string) :
  alist_get k (strip_v_ns idx)
  = if decide (k = "v" ∨ k = "ns") then None else alist_get k idx.
Proof.
  unfold strip_v_ns. induction idx as [|[k' v'] idx IH]; simpl.
  - by destruct (decide _).
  - destruct (bool_decide (k' = "v")) eqn:Hv; simpl.
    { apply bool_decide_eq_true in Hv as ->. rewrite IH.
      destruct (decide (k = "v" ∨ k = "ns")) as [Hk|Hk]; [done|].
      rewrite decide_False; [done|]. intros ->. apply Hk. by left. }
    destruct (bool_decide (k' = "ns")) eqn:Hns; simpl.
    { apply bool_decide_eq_true in Hns as ->. rewrite IH.
      destruct (decide (k = "v" ∨ k = "ns")) as [Hk|Hk]; [done|].
      rewrite decide_False; [done|]. intros ->. apply Hk. by right. }
    apply bool_decide_eq_false in Hv, Hns.
    destruct (decide (k = k')) as [->|Hne].
    + rewrite decide_False; [done|]. by intros [|].
    + apply IH.
Qed.

Lemma strip_v_ns_not_id (idx : Document) :
  not_id_index (strip_v_ns idx) = not_id_index idx.
Proof. unfold not_id_index. rewrite strip_v_ns_get. by rewrite decide_False by (by intros [|]). Qed.

Lemma strip_v_ns_sublist (idx : Document) : sublist (strip_v_ns idx) idx.
Proof.
  unfold strip_v_ns. induction idx as [|kv idx IH]; simpl; [constructor|].
  destruct (_ && _); by constructor.
Qed.

Lemma userIndexes_of_elem (raw : list Document) (d : Document) :
  d ∈ userIndexes_of raw →
  ∃ idx, idx ∈ raw ∧ not_id_index idx = true ∧ d = strip_v_ns idx.
Proof.
  unfold userIndexes_of. intros (idx & -> & Hin)%list_elem_of_fmap.
  exists idx. apply list_elem_of_In, filter_In in Hin as [Hin Hid].
  by rewrite <- list_elem_of_In in Hin.
Qed.

(** ** Strings *)

Lemma s_app_nil_l (b : string) : EmptyString +:+ b = b.
Proof. reflexivity. Qed.

Lemma s_app_cons (c : ascii) (a b : string) : String c a +:+ b = String c (a +:+ b).
Proof. reflexivity. Qed.

Lemma s_app_nil_r (a : string) : a +:+ EmptyString = a.
Proof. induction a as [|c a IH]; [done|]. by rewrite s_app_cons, IH. Qed.

Lemma s_app_assoc (a b c : string) : (a +:+ b) +:+ c = a +:+ (b +:+ c).
Proof. induction a as [|x a IH]; [done|]. by rewrite !s_app_cons, IH. Qed.

Lemma s_length_app (a b : string) :
  String.length (a +:+ b) = String.length a + String.length b.
Proof. induction a as [|x a IH]; [done|]. rewrite ?s_app_cons. simpl. by rewrite IH. Qed.

Lemma substring_all (b : string) : substring 0 (String.length b) b = b.
Proof. induction b as [|x b IH]; [done|]. simpl. by rewrite IH. Qed.

Lemma substring_app_drop (a b : string) :
  substring (String.length a) (String.length b) (a +:+ b) = b.
Proof.
  induction a as [|x a IH]; simpl.
  - rewrite ?s_app_nil_l. apply substring_all.
  - rewrite ?s_app_cons. simpl. exact IH.
Qed.

Lemma substring_app_take (a b : string) : substring 0 (String.length a) (a +:+ b) = a.
Proof.
  induction a as [|x a IH]; simpl.
  - by destruct (EmptyString +:+ b).
  - rewrite ?s_app_cons. simpl. by rewrite IH.
Qed.

Lemma s_app_inj_r (a b s : string) : a +:+ s = b +:+ s → a = b.
Proof.
  revert b. induction a as [|x a IH]; intros [|y b] Heq; [done| | |].
  - apply (f_equal String.length) in Heq. rewrite s_app_nil_l, s_length_app in Heq.
    simpl in Heq. lia.
  - apply (f_equal String.length) in Heq. rewrite s_app_nil_l, s_length_app in Heq.
    simpl in Heq. lia.
  - rewrite !s_app_cons in Heq. injection Heq as -> Heq. f_equal. by apply IH.
Qed.

Lemma endsWith_app (a suffix : string) : endsWith (a +:+ suffix) suffix = true.
Proof.
  unfold endsWith. rewrite s_length_app.
  rewrite bool_decide_true by lia.
  replace (String.length a + String.length suffix - String.length suffix)
    with (String.length a) by lia.
  by rewrite substring_app_drop, bool_decide_true.
Qed.

Lemma replace_jsonl_app (col : string) : replace_jsonl (col +:+ ".jsonl") = col.
Proof.
  unfold replace_jsonl. rewrite endsWith_app, s_length_app. simpl.
  replace (String.length col + 6 - 6) with (String.length col) by lia.
  apply substring_app_take.
Qed.

Lemma endsWith_sidecar (col : string) : endsWith (col +:+ ".indexes.json") ".jsonl" = false.
Proof.
  unfold endsWith.
  change ".indexes.json" with (".indexe" +:+ "s.json").
  rewrite <- s_app_assoc, s_length_app.
  change (String.length ".jsonl") with (String.length "s.json").
  replace (String.length (col +:+ ".indexe") + String.length "s.json" - String.length "s.json")
    with (String.length (col +:+ ".indexe")) by lia.
  rewrite substring_app_drop. rewrite andb_false_intro2; [done|].
  by apply bool_decide_eq_false.
Qed.

Lemma jsonl_ne_sidecar (a b : string) : a +:+ ".jsonl" ≠ b +:+ ".indexes.json".
Proof.
  intros Heq. pose proof (endsWith_app a ".jsonl") as Ha.
  rewrite Heq, endsWith_sidecar in Ha. done.
Qed.

Lemma rev_app_rev_app (s t u : string) :
  String.rev_app (String.rev_app s t) u = String.rev_app t (s +:+ u).
Proof.
  revert t u. induction s as [|c s IH]; intros t u; simpl; [done|].
  by rewrite IH.
Qed.

Lemma s_rev_involutive (s : string) : String.rev (String.rev s) = s.
Proof. unfold String.rev. rewrite rev_app_rev_app. simpl. apply s_app_nil_r. Qed.

(** *** Lines *)

Lemma read_lines_line (cur s rest : string) :
  no_line_break s = true →
  read_lines cur (s +:+ String LF rest)
  = String.rev (String.rev_app s cur) :: read_lines EmptyString rest.
Proof.
  revert cur. induction s as [|c s IH]; intros cur Hs.
  - rewrite s_app_nil_l. by simpl.
  - simpl in Hs. apply andb_prop in Hs as [Hc Hs]. apply andb_prop in Hc as [Hlf Hcr].
    apply negb_true_iff, bool_decide_eq_false in Hlf, Hcr.
    rewrite ?s_app_cons. simpl.
    rewrite decide_False by done. rewrite decide_False by done.
    by rewrite IH.
Qed.

Lemma readline_record_text (lines : list string) :
  Forall (fun line => no_line_break line = true) lines →
  readline (record_text lines) = lines.
Proof.
  unfold readline. induction 1 as [|line lines Hline _ IH]; simpl; [done|].
  rewrite s_app_assoc. change (String LF EmptyString +:+ record_text lines)
    with (String LF (record_text lines)).
  rewrite read_lines_line by done. rewrite IH. f_equal. apply s_rev_involutive.
Qed.

(** ** Directories *)

Lemma set_dir_get dir entries w : alist_get dir (fs (set_dir dir entries w)) = Some (Dir entries).
Proof. apply alist_get_set_eq. Qed.

Lemma set_dir_set_dir dir e1 e2 w : set_dir dir e2 (set_dir dir e1 w) = set_dir dir e2 w.
Proof. unfold set_dir, set_fs. simpl. by rewrite alist_set_set. Qed.

Lemma set_dir_same dir entries w :
  alist_get dir (fs w) = Some (Dir entries) → set_dir dir entries w = w.
Proof.
  intros Hg. unfold set_dir, set_fs. rewrite alist_set_same; [|done]. apply world_eta.
Qed.

Lemma set_dir_clusters dir entries w : clusters (set_dir dir entries w) = clusters w.
Proof. done. Qed.

Lemma log_progress_set_dir cb name i t dir entries w :
  log_progress cb name i t (set_dir dir entries w)
  = set_dir dir entries (log_progress cb name i t w).
Proof. unfold log_progress. by destruct cb. Qed.

Lemma log_progress_put_cluster cb name i t u s w :
  log_progress cb name i t (put_cluster u s w) = put_cluster u s (log_progress cb name i t w).
Proof. unfold log_progress. by destruct cb. Qed.

Lemma writeFileSync_run dir name content w entries :
  alist_get dir (fs w) = Some (Dir entries) →
  writeFileSync dir name content w
  = (Ok tt, set_dir dir (alist_set name content entries) w).
Proof. intros Hd. unfold writeFileSync. by rewrite Hd. Qed.

Lemma log_all_set_dir cb total i names dir entries w :
  log_all cb total i names (set_dir dir entries w)
  = set_dir dir entries (log_all cb total i names w).
Proof.
  revert i w. induction names as [|name names IH]; intros i w; simpl; [done|].
  by rewrite log_progress_set_dir, IH.
Qed.

Lemma log_all_put_cluster cb total i names u s w :
  log_all cb total i names (put_cluster u s w)
  = put_cluster u s (log_all cb total i names w).
Proof.
  revert i w. induction names as [|name names IH]; intros i w; simpl; [done|].
  by rewrite log_progress_put_cluster, IH.
Qed.

Lemma log_all_clusters cb total i names w : clusters (log_all cb total i names w) = clusters w.
Proof.
  revert i w. induction names as [|name names IH]; intros i w; simpl; [done|].
  by rewrite IH, log_progress_clusters.
Qed.

Lemma log_all_fs cb total i names w : fs (log_all cb total i names w) = fs w.
Proof.
  revert i w. induction names as [|name names IH]; intros i w; simpl; [done|].
  by rewrite IH, log_progress_fs.
Qed.

(** ** [exportDb], run *)

Section ExportRun.
Context {codec : Codec}.

Lemma export_write_loop outDir file docs n i w entries cur :
  alist_get outDir (fs w) = Some (Dir entries) →
  alist_get file entries = Some cur →
  for_loop
    (fun _ doc totalDocuments =>
       stream_write outDir file (EJSON_stringify doc +:+ String LF EmptyString);;
       ret (totalDocuments + 1))
    i docs n w
  = (Ok (n + length docs),
     set_dir outDir
       (alist_set file (cur +:+ record_text (map EJSON_stringify docs)) entries) w).
Proof.
  revert n i w entries cur.
  induction docs as [|doc docs IH]; intros n i w entries cur Hdir Hfile; simpl.
  - rewrite s_app_nil_r, Nat.add_0_r, (alist_set_same file cur) by done.
    unfold ret. by rewrite set_dir_same.
  - erewrite bind_ok; last first.
    { erewrite bind_ok; [reflexivity|]. unfold stream_write.
      erewrite bind_ok; [|by eapply readFileSync_run].
      by apply writeFileSync_run. }
    erewrite IH; [|apply set_dir_get|apply alist_get_set_eq].
    rewrite set_dir_set_dir, alist_set_set, s_app_assoc.
    do 2 f_equal. lia.
Qed.

Lemma exportDb_collection_run h dbName outDir cb total i col n w s entries :
  alist_get (uri h) (clusters w) = Some s →
  alist_get outDir (fs w) = Some (Dir entries) →
  exportDb_collection h dbName outDir cb total i col n w
  = (Ok (n + length (mock_find dbName col s)),
     set_dir outDir (export_files dbName col s entries)
       (log_progress cb col (i + 1) total w)).
Proof.
  intros Hs Hdir. unfold exportDb_collection.
  erewrite bind_ok; [|apply call_onCollection_run].
  set (w1 := log_progress cb col (i + 1) total w).
  assert (Hdir1 : alist_get outDir (fs w1) = Some (Dir entries))
    by (unfold w1; by rewrite log_progress_fs).
  erewrite bind_ok; [|by apply writeFileSync_run].
  erewrite bind_ok; last first.
  { apply read_cluster_ok. rewrite set_dir_clusters. unfold w1.
    by rewrite log_progress_clusters. }
  erewrite bind_ok; last first.
  { apply export_write_loop; [apply set_dir_get|apply alist_get_set_eq]. }
  rewrite set_dir_set_dir, alist_set_set, s_app_nil_l.
  erewrite bind_ok; last first.
  { apply read_cluster_ok. rewrite set_dir_clusters. unfold w1.
    by rewrite log_progress_clusters. }
  erewrite bind_ok; [|apply writeFileSync_run, set_dir_get].
  unfold ret. by rewrite set_dir_set_dir.
Qed.

Lemma exportDb_loop_run h dbName outDir cb total cols i n w s entries :
  alist_get (uri h) (clusters w) = Some s →
  alist_get outDir (fs w) = Some (Dir entries) →
  for_loop (exportDb_collection h dbName outDir cb total) i cols n w
  = (Ok (n + count_docs dbName s cols),
     set_dir outDir (export_all dbName s cols entries) (log_all cb total i cols w)).
Proof.
  revert i n w entries.
  induction cols as [|col cols IH]; intros i n w entries Hs Hdir; simpl.
  - unfold count_docs. simpl. rewrite Nat.add_0_r. unfold ret. by rewrite set_dir_same.
  - erewrite bind_ok; [|by apply exportDb_collection_run].
    erewrite IH; last first.
    { apply set_dir_get. }
    { rewrite set_dir_clusters. by rewrite log_progress_clusters. }
    rewrite log_all_set_dir, set_dir_set_dir.
    unfold count_docs. simpl. do 2 f_equal. lia.
Qed.

(** [exportDb] on a connected client and a path that is free or a
    directory. *)
Lemma exportDb_run this h dbName outDir cb w s entries :
  client this = Some h →
  alist_get (uri h) (clusters w) = Some s →
  alist_get outDir (fs w) = None ∧ entries = [] ∨ alist_get outDir (fs w) = Some (Dir entries) →
  exportDb this dbName outDir cb w
  = (Ok (mkExportResult (length (mock_listCollections dbName s))
           (count_docs dbName s (mock_listCollections dbName s)) outDir),
     set_dir outDir (export_all dbName s (mock_listCollections dbName s) entries)
       (log_all cb (length (mock_listCollections dbName s)) 0
          (mock_listCollections dbName s) w)).
Proof.
  intros Hc Hs Hdir. unfold exportDb.
  assert (Hmk : mkdirSync outDir w = (Ok tt, set_dir outDir entries w)).
  { unfold mkdirSync. destruct Hdir as [[-> ->]|Hd]; [done|].
    rewrite Hd. by rewrite set_dir_same. }
  erewrite bind_ok; [|exact Hmk].
  erewrite bind_ok; [|by apply db_connected].
  erewrite bind_ok; [|by apply read_cluster_ok].
  erewrite bind_ok; last first.
  { apply exportDb_loop_run; [done|apply set_dir_get]. }
  unfold ret. by rewrite log_all_set_dir, set_dir_set_dir.
Qed.

End ExportRun.

(** ** [importDb], run on record files that parse *)

Section ImportRun.
Context {codec : Codec}.

Lemma importDb_loop_run h dbName inDir cb total files i n w s entries docs_of raw_of :
  alist_get (uri h) (clusters w) = Some s →
  alist_get inDir (fs w) = Some (Dir entries) →
  Forall (readable entries docs_of raw_of) files →
  for_loop (importDb_file h dbName inDir cb total) i files n w
  = (Ok (n + count_lines docs_of files),
     put_cluster (uri h) (import_all dbName files docs_of raw_of s)
       (log_all cb total i (map replace_jsonl files) w)).
Proof.
  intros Hs Hdir Hall. revert i n w s Hs Hdir.
  induction Hall as [|file files (text & Hfile & Hdocs & Hraw) _ IH];
    intros i n w s Hs Hdir; simpl.
  - unfold count_lines. simpl. rewrite Nat.add_0_r. unfold ret. by rewrite put_cluster_same.
  - erewrite bind_ok; [|by eapply importDb_file_run].
    erewrite IH; [|apply put_cluster_get|by rewrite put_cluster_fs, log_progress_fs].
    rewrite log_all_put_cluster, put_cluster_put.
    unfold count_lines. simpl. do 2 f_equal. lia.
Qed.

Lemma existsSync_dir inDir w entries :
  alist_get inDir (fs w) = Some (Dir entries) → existsSync inDir w = true.
Proof. intros Hd. unfold existsSync. rewrite Hd. by apply bool_decide_eq_true. Qed.

Lemma importDb_run this h dbName inDir cb w s entries docs_of raw_of :
  client this = Some h →
  alist_get (uri h) (clusters w) = Some s →
  alist_get inDir (fs w) = Some (Dir entries) →
  Forall (readable entries docs_of raw_of) (record_files entries) →
  importDb this dbName inDir cb w
  = (Ok (mkImportResult (length (record_files entries))
           (count_lines docs_of (record_files entries))),
     put_cluster (uri h) (import_all dbName (record_files entries) docs_of raw_of s)
       (log_all cb (length (record_files entries)) 0
          (map replace_jsonl (record_files entries)) w)).
Proof.
  intros Hc Hs Hdir Hall. unfold importDb.
  rewrite (existsSync_dir _ _ entries) by done. simpl.
  erewrite bind_ok; [|by apply db_connected].
  erewrite bind_ok; [|unfold readdirSync; by rewrite Hdir].
  fold (record_files entries).
  erewrite bind_ok; [|by eapply importDb_loop_run].
  done.
Qed.

End ImportRun.

(** ** What an export leaves in its directory *)

Section Exported.
Context {codec : Codec}.

Lemma s_app_inj_suffix (a b suffix : string) : a +:+ suffix = b +:+ suffix ↔ a = b.
Proof. split; [apply s_app_inj_r|by intros ->]. Qed.

Lemma export_files_sidecar dbName s col col' entries :
  alist_get (col +:+ ".indexes.json") (export_files dbName col' s entries)
  = if decide (col' = col)
    then Some (JSON_stringify (List.filter not_id_index (mock_indexes dbName col s)))
    else alist_get (col +:+ ".indexes.json") entries.
Proof.
  unfold export_files. destruct (decide (col' = col)) as [->|Hne].
  - apply alist_get_set_eq.
  - rewrite alist_get_set_ne by (by rewrite s_app_inj_suffix).
    rewrite alist_get_set_ne; [done|]. apply jsonl_ne_sidecar.
Qed.

Lemma export_files_record dbName s col col' entries :
  alist_get (col +:+ ".jsonl") (export_files dbName col' s entries)
  = if decide (col' = col)
    then Some (record_text (map EJSON_stringify (mock_find dbName col s)))
    else alist_get (col +:+ ".jsonl") entries.
Proof.
  unfold export_files.
  rewrite alist_get_set_ne by (intros Heq; by apply (jsonl_ne_sidecar col col')).
  destruct (decide (col' = col)) as [->|Hne].
  - apply alist_get_set_eq.
  - rewrite alist_get_set_ne; [done|]. by rewrite s_app_inj_suffix.
Qed.

Lemma export_all_sidecar dbName s cols col entries :
  col ∈ cols →
  alist_get (col +:+ ".indexes.json") (export_all dbName s cols entries)
  = Some (JSON_stringify (List.filter not_id_index (mock_indexes dbName col s))).
Proof.
  unfold export_all. revert entries.
  induction cols as [|c cols IH] using rev_ind; intros entries Hin.
  - by apply elem_of_nil in Hin.
  - rewrite fold_left_app. simpl. rewrite export_files_sidecar.
    destruct (decide (c = col)) as [|Hne]; [done|].
    apply IH. apply elem_of_app in Hin as [|Hin]; [done|].
    apply list_elem_of_singleton in Hin. congruence.
Qed.

Lemma export_all_record dbName s cols col entries :
  col ∈ cols →
  alist_get (col +:+ ".jsonl") (export_all dbName s cols entries)
  = Some (record_text (map EJSON_stringify (mock_find dbName col s))).
Proof.
  unfold export_all. revert entries.
  induction cols as [|c cols IH] using rev_ind; intros entries Hin.
  - by apply elem_of_nil in Hin.
  - rewrite fold_left_app. simpl. rewrite export_files_record.
    destruct (decide (c = col)) as [|Hne]; [done|].
    apply IH. apply elem_of_app in Hin as [|Hin]; [done|].
    apply list_elem_of_singleton in Hin. congruence.
Qed.

Lemma export_names_elem name cols :
  name ∈ export_names cols ↔
  ∃ col, col ∈ cols ∧ (name = col +:+ ".jsonl" ∨ name = col +:+ ".indexes.json").
Proof.
  unfold export_names. induction cols as [|c cols IH]; simpl.
  - split; [by intros ?%elem_of_nil|]. by intros (? & ?%elem_of_nil & _).
  - rewrite !elem_of_cons, IH. split.
    + intros [->|[->|(col & Hin & Hor)]].
      * exists c. split; [by left|by left].
      * exists c. split; [by left|by right].
      * exists col. split; [by right|done].
    + intros (col & [->|Hin]%elem_of_cons & Hor).
      * destruct Hor; auto.
      * right. right. by exists col.
Qed.

Lemma alist_keys_app {K V} (m1 m2 : list (K * V)) :
  alist_keys (m1 ++ m2) = alist_keys m1 ++ alist_keys m2.
Proof. unfold alist_keys. apply map_app. Qed.

Lemma export_all_keys dbName s cols entries :
  NoDup cols →
  (∀ name, name ∈ export_names cols → name ∉ alist_keys entries) →
  alist_keys (export_all dbName s cols entries) = alist_keys entries ++ export_names cols.
Proof.
  unfold export_all. revert entries.
  induction cols as [|c cols IH]; intros entries Hnd Hfresh; simpl.
  - by rewrite app_nil_r.
  - apply NoDup_cons in Hnd as [Hc Hnd].
    assert (Hrec : alist_get (c +:+ ".jsonl") entries = None).
    { apply alist_get_None, Hfresh, export_names_elem. exists c. split; [by left|by left]. }
    assert (Hside : alist_get (c +:+ ".indexes.json") entries = None).
    { apply alist_get_None, Hfresh, export_names_elem. exists c. split; [by left|by right]. }
    unfold export_files at 2.
    rewrite (alist_set_fresh (c +:+ ".jsonl")) by done.
    rewrite (alist_set_fresh (c +:+ ".indexes.json")); last first.
    { rewrite alist_get_app, Hside. simpl.
      rewrite decide_False; [done|]. intros Heq. by apply (jsonl_ne_sidecar c c). }
    rewrite IH; [|done|].
    + rewrite !alist_keys_app. simpl. by rewrite <- !app_assoc.
    + intros name Hname. rewrite !alist_keys_app. simpl.
      rewrite !elem_of_app, !list_elem_of_singleton.
      intros [[Hin| ->]| ->].
      * revert Hin. apply Hfresh. simpl. by do 2 right.
      * apply export_names_elem in Hname as (col & Hin & [Heq|Heq]).
        -- apply s_app_inj_suffix in Heq as ->. done.
        -- by apply (jsonl_ne_sidecar c col).
      * apply export_names_elem in Hname as (col & Hin & [Heq|Heq]).
        -- by apply (jsonl_ne_sidecar col c).
        -- apply s_app_inj_suffix in Heq as ->. done.
Qed.

Lemma record_files_export_names cols :
  List.filter (fun f => endsWith f ".jsonl") (export_names cols)
  = map (fun col => col +:+ ".jsonl") cols.
Proof.
  unfold export_names. induction cols as [|c cols IH]; simpl; [done|].
  by rewrite endsWith_app, endsWith_sidecar, IH.
Qed.

Lemma export_all_record_files dbName s cols :
  NoDup cols →
  record_files (export_all dbName s cols []) = map (fun col => col +:+ ".jsonl") cols.
Proof.
  intros Hnd. unfold record_files.
  rewrite export_all_keys; [|done|intros ? _; apply not_elem_of_nil].
  apply record_files_export_names.
Qed.

End Exported.

(** ** Counting what a transfer inserts *)

Lemma inserted_alist_set (k : Key) (b : list Document) (m : list (Key * list (list Document))) :
  list_sum (map (fun kv => length (concat (snd kv)))
              (alist_set k (default [] (alist_get k m) ++ [b]) m))
  = list_sum (map (fun kv => length (concat (snd kv))) m) + length b.
Proof.
  induction m as [|[k' bs] m IH]; simpl.
  - rewrite app_nil_r. lia.
  - destruct (decide (k = k')) as [->|Hne]; simpl.
    + rewrite concat_app, length_app. simpl. rewrite app_nil_r. lia.
    + rewrite IH. lia.
Qed.

Lemma inserted_insertMany dbName col b s :
  inserted (mock_insertMany dbName col b s) = inserted s + length b.
Proof. unfold inserted. simpl. apply inserted_alist_set. Qed.

Lemma inserted_insert_batches dbName col bs s :
  inserted (insert_batches dbName col bs s) = inserted s + length (concat bs).
Proof.
  revert s. induction bs as [|b bs IH]; intros s; simpl; [lia|].
  change (insert_batches dbName col (b :: bs) s)
    with (insert_batches dbName col bs (mock_insertMany dbName col b s)).
  rewrite IH, inserted_insertMany, length_app. lia.
Qed.

Lemma inserted_create_if_any dbName col specs s :
  inserted (create_if_any dbName col specs s) = inserted s.
Proof. unfold inserted. by rewrite create_if_any_insertBatches. Qed.

Lemma inserted_clone_effect sourceDb targetDb col ss st :
  inserted (clone_effect sourceDb targetDb col ss st)
  = inserted st + length (mock_find sourceDb col ss).
Proof.
  unfold clone_effect.
  by rewrite inserted_create_if_any, inserted_insert_batches, flushes_concat.
Qed.

(** ** The live-to-live loops, run *)

Lemma cloneDbToClient_loop_ok hs ht sourceDb targetDb cb total cols i n w ss st :
  alist_get (uri hs) (clusters w) = Some ss →
  alist_get (uri ht) (clusters w) = Some st →
  ∃ n' w' st',
    for_loop (cloneDbToClient_collection hs ht sourceDb targetDb cb total) i cols n w
    = (Ok n', w') ∧
    alist_get (uri ht) (clusters w') = Some st' ∧
    n' + inserted st = n + inserted st' ∧
    fs w' = fs w.
Proof.
  revert i n w ss st.
  induction cols as [|col cols IH]; intros i n w ss st Hss Hst; simpl.
  - by exists n, w, st.
  - erewrite bind_ok; [|by apply cloneDbToClient_collection_run].
    set (st1 := clone_effect sourceDb targetDb col ss st).
    set (w1 := put_cluster (uri ht) st1 (log_progress cb col (i + 1) total w)).
    assert (Hst1 : alist_get (uri ht) (clusters w1) = Some st1) by apply put_cluster_get.
    assert (∃ ss1, alist_get (uri hs) (clusters w1) = Some ss1) as [ss1 Hss1].
    { destruct (decide (uri ht = uri hs)) as [Heq|Hne].
      - exists st1. by rewrite <- Heq.
      - exists ss. unfold w1. by rewrite put_cluster_get_ne, log_progress_clusters. }
    destruct (IH (S i) (n + length (mock_find sourceDb col ss)) w1 ss1 st1 Hss1 Hst1)
      as (n' & w' & st' & Hrun & Hst' & Hcount & Hfs).
    exists n', w', st'. split; [done|]. split; [done|]. split.
    + unfold st1 in Hcount. rewrite inserted_clone_effect in Hcount. lia.
    + rewrite Hfs. unfold w1. by rewrite put_cluster_fs, log_progress_fs.
Qed.

Lemma cloneDb_loop_ok h sourceDb targetDb cb total cols i w s :
  alist_get (uri h) (clusters w) = Some s →
  ∃ w',
    for_loop (fun i col _ => cloneDb_collection h h sourceDb targetDb cb total i col)
      i cols tt w
    = (Ok tt, w').
Proof.
  revert i w s.
  induction cols as [|col cols IH]; intros i w s Hs; simpl.
  - by exists w.
  - erewrite bind_ok; [|by apply cloneDb_collection_run].
    eapply IH, put_cluster_get.
Qed.

(** ** C1: the index sidecar of an export *)

Section Sidecar.
Context {codec : Codec}.

(** C1 (amended). For every collection an export lists, the sidecar
    [<collection>.indexes.json] holds the JSON text of the collection's
    raw descriptors other than the one named [_id_], in their order and
    unchanged: the [v] and [ns] fields of a descriptor stay in the file. *)
Theorem exportDb_sidecar_contents (this : MongoClient) (h : NativeClient)
    (dbName outDir : string) (cb : bool) (w : World) (s : MockState)
    (entries : list (string * string)) :
  client this = Some h →
  alist_get (uri h) (clusters w) = Some s →
  alist_get outDir (fs w) = None ∧ entries = [] ∨ alist_get outDir (fs w) = Some (Dir entries) →
  ∃ r w',
    exportDb this dbName outDir cb w = (Ok r, w') ∧
    ∀ col, col ∈ mock_listCollections dbName s →
      read_entry outDir (col +:+ ".indexes.json") w'
      = Some (JSON_stringify (List.filter not_id_index (mock_indexes dbName col s))) ∧
      (∀ idx, idx ∈ List.filter not_id_index (mock_indexes dbName col s) ↔
              idx ∈ mock_indexes dbName col s ∧ not_id_index idx = true).
Proof.
  intros Hc Hs Hdir. eexists _, _. split; [by eapply exportDb_run|].
  intros col Hcol. split.
  - unfold read_entry, lookup_entry. rewrite set_dir_get. by apply export_all_sidecar.
  - intros idx. rewrite !list_elem_of_In. apply filter_In.
Qed.

End Sidecar.

(** ** C4: what the transfers return *)

Lemma inserted_import_all {codec : Codec} dbName files docs_of raw_of s :
  inserted (import_all dbName files docs_of raw_of s)
  = inserted s + count_lines docs_of files.
Proof.
  unfold import_all, count_lines. revert s.
  induction files as [|file files IH]; intros s; simpl; [lia|].
  rewrite IH. unfold import_effect.
  rewrite inserted_create_if_any, inserted_insert_batches, flushes_concat. lia.
Qed.

Section Returns.
Context {codec : Codec}.

(** C4 (amended). On success [cloneDbToClient] and [importDb] return
    [{collections, documents}] and [exportDb] returns
    [{collections, documents, path}]: [collections] is the number of
    collections (record files) enumerated, [documents] the number of
    documents the call inserted into the target (written to the record
    files, for an export), [path] the output directory.  [cloneDb]
    succeeds on the same inputs and returns nothing. *)
Theorem transfer_results :
  (∀ this hs target ht sourceDb targetDb cb w ss st,
      client this = Some hs → client target = Some ht →
      alist_get (uri hs) (clusters w) = Some ss →
      alist_get (uri ht) (clusters w) = Some st →
      ∃ r w' st',
        cloneDbToClient this sourceDb target targetDb cb w = (Ok r, w') ∧
        alist_get (uri ht) (clusters w') = Some st' ∧
        aggregate r = Some (length (mock_listCollections sourceDb ss),
                            inserted st' - inserted st) ∧
        inserted st ≤ inserted st') ∧
  (∀ this h dbName outDir cb w s entries,
      client this = Some h →
      alist_get (uri h) (clusters w) = Some s →
      alist_get outDir (fs w) = None ∧ entries = [] ∨
      alist_get outDir (fs w) = Some (Dir entries) →
      ∃ r w',
        exportDb this dbName outDir cb w = (Ok r, w') ∧
        aggregate r = Some (length (mock_listCollections dbName s),
                            count_docs dbName s (mock_listCollections dbName s)) ∧
        export_path r = outDir) ∧
  (∀ this h dbName inDir cb w s entries docs_of raw_of,
      client this = Some h →
      alist_get (uri h) (clusters w) = Some s →
      alist_get inDir (fs w) = Some (Dir entries) →
      Forall (readable entries docs_of raw_of) (record_files entries) →
      ∃ r w' s',
        importDb this dbName inDir cb w = (Ok r, w') ∧
        alist_get (uri h) (clusters w') = Some s' ∧
        aggregate r = Some (length (record_files entries), inserted s' - inserted s) ∧
        inserted s ≤ inserted s') ∧
  (∀ this h sourceDb targetDb cb w s,
      client this = Some h →
      alist_get (uri h) (clusters w) = Some s →
      ∃ w', cloneDb this sourceDb targetDb cb w = (Ok tt, w') ∧ aggregate tt = None).
Proof.
  split; [|split; [|split]].
  - intros this hs target ht sourceDb targetDb cb w ss st Hc Ht Hss Hst.
    unfold cloneDbToClient.
    erewrite bind_ok; [|by apply db_connected].
    erewrite bind_ok; [|by apply db_connected].
    erewrite bind_ok; [|by apply read_cluster_ok].
    destruct (cloneDbToClient_loop_ok hs ht sourceDb targetDb cb
                (length (mock_listCollections sourceDb ss))
                (mock_listCollections sourceDb ss) 0 0 w ss st Hss Hst)
      as (n' & w' & st' & Hrun & Hst' & Hcount & _).
    erewrite bind_ok; [|exact Hrun].
    eexists _, w', st'. split; [reflexivity|]. split; [done|].
    unfold aggregate, aggregate_import. simpl. split; [|lia].
    do 2 f_equal. lia.
  - intros this h dbName outDir cb w s entries Hc Hs Hdir.
    eexists _, _. split; [by eapply exportDb_run|]. done.
  - intros this h dbName inDir cb w s entries docs_of raw_of Hc Hs Hdir Hall.
    eexists _, _, _. split; [by eapply importDb_run|].
    split; [apply put_cluster_get|].
    rewrite inserted_import_all. unfold aggregate, aggregate_import. simpl.
    split; [|lia]. do 2 f_equal. lia.
  - intros this h sourceDb targetDb cb w s Hc Hs. unfold cloneDb.
    erewrite bind_ok; [|by apply db_connected].
    erewrite bind_ok; [|by apply db_connected].
    erewrite bind_ok; [|by apply read_cluster_ok].
    destruct (cloneDb_loop_ok h sourceDb targetDb cb
                (length (mock_listCollections sourceDb s))
                (mock_listCollections sourceDb s) 0 w s Hs) as (w' & Hrun).
    exists w'. by split.
Qed.

End Returns.

(** ** C6: export, then import *)

Lemma mock_find_insertMany_ne dbName col col' b s :
  col ≠ col' →
  mock_find dbName col (mock_insertMany dbName col' b s) = mock_find dbName col s.
Proof.
  intros Hne. unfold mock_find at 1, mock_collections at 1. simpl.
  rewrite alist_get_set_eq. simpl. by rewrite alist_get_set_ne.
Qed.

Lemma mock_find_insert_batches_ne dbName col col' bs s :
  col ≠ col' →
  mock_find dbName col (insert_batches dbName col' bs s) = mock_find dbName col s.
Proof.
  intros Hne. revert s. induction bs as [|b bs IH]; intros s; [done|].
  change (insert_batches dbName col' (b :: bs) s)
    with (insert_batches dbName col' bs (mock_insertMany dbName col' b s)).
  by rewrite IH, mock_find_insertMany_ne.
Qed.

Lemma mock_find_create_if_any dbName dbName' col col' specs s :
  mock_find dbName col (create_if_any dbName' col' specs s) = mock_find dbName col s.
Proof. unfold mock_find, mock_collections. by rewrite create_if_any_dbs. Qed.

Lemma created_of_create_if_any_ne dbName col col' specs s :
  col ≠ col' →
  created_of dbName col (create_if_any dbName col' specs s) = created_of dbName col s.
Proof.
  intros Hne. unfold create_if_any, created_of. destruct (0 <? length specs); [|done].
  simpl. rewrite alist_get_set_ne; [done|]. congruence.
Qed.



Section RoundTrip.
Context {codec : Codec}.


Lemma import_effect_find dbName col docs raw s :
  mock_find dbName col (import_effect dbName col docs raw s)
  = mock_find dbName col s ++ docs.
Proof.
  unfold import_effect.
  by rewrite mock_find_create_if_any, insert_batches_find, flushes_concat.
Qed.

Lemma import_effect_find_ne dbName col col' docs raw s :
  col ≠ col' →
  mock_find dbName col (import_effect dbName col' docs raw s) = mock_find dbName col s.
Proof.
  intros Hne. unfold import_effect.
  by rewrite mock_find_create_if_any, mock_find_insert_batches_ne.
Qed.

Lemma import_effect_created dbName col docs raw s :
  created_of dbName col (import_effect dbName col docs raw s)
  = created_of dbName col s ++
    (if 0 <? length (userIndexes_of raw) then [userIndexes_of raw] else []).
Proof.
  unfold import_effect. rewrite create_if_any_created. f_equal.
  unfold created_of. by rewrite insert_batches_createdIndexes.
Qed.

Lemma import_effect_created_ne dbName col col' docs raw s :
  col ≠ col' →
  created_of dbName col (import_effect dbName col' docs raw s) = created_of dbName col s.
Proof.
  intros Hne. unfold import_effect. rewrite created_of_create_if_any_ne by done.
  unfold created_of. by rewrite insert_batches_createdIndexes.
Qed.

Lemma import_all_other dbName files docs_of raw_of col s :
  col ∉ map replace_jsonl files →
  mock_find dbName col (import_all dbName files docs_of raw_of s) = mock_find dbName col s ∧
  created_of dbName col (import_all dbName files docs_of raw_of s) = created_of dbName col s.
Proof.
  unfold import_all. revert s.
  induction files as [|file files IH]; intros s Hnot; simpl; [done|].
  simpl in Hnot. apply not_elem_of_cons in Hnot as [Hne Hnot].
  destruct (IH (import_effect dbName (replace_jsonl file) (docs_of file) (raw_of file) s) Hnot)
    as [-> ->].
  by rewrite import_effect_find_ne, import_effect_created_ne.
Qed.

Lemma import_all_at dbName files docs_of raw_of file s :
  NoDup (map replace_jsonl files) →
  file ∈ files →
  mock_find dbName (replace_jsonl file) (import_all dbName files docs_of raw_of s)
  = mock_find dbName (replace_jsonl file) s ++ docs_of file ∧
  created_of dbName (replace_jsonl file) (import_all dbName files docs_of raw_of s)
  = created_of dbName (replace_jsonl file) s ++
    (if 0 <? length (userIndexes_of (raw_of file)) then [userIndexes_of (raw_of file)] else []).
Proof.
  revert s. induction files as [|f files IH]; intros s Hnd Hin.
  - by apply elem_of_nil in Hin.
  - simpl in Hnd. apply NoDup_cons in Hnd as [Hf Hnd].
    change (import_all dbName (f :: files) docs_of raw_of s)
      with (import_all dbName files docs_of raw_of
              (import_effect dbName (replace_jsonl f) (docs_of f) (raw_of f) s)).
    apply elem_of_cons in Hin as [->|Hin].
    + destruct (import_all_other dbName files docs_of raw_of (replace_jsonl f)
                  (import_effect dbName (replace_jsonl f) (docs_of f) (raw_of f) s) Hf)
        as [-> ->].
      by rewrite import_effect_find, import_effect_created.
    + destruct (IH (import_effect dbName (replace_jsonl f) (docs_of f) (raw_of f) s) Hnd Hin)
        as [-> ->].
      assert (replace_jsonl file ≠ replace_jsonl f) as Hne.
      { intros Heq. apply Hf. rewrite <- Heq.
        apply list_elem_of_In, in_map, list_elem_of_In, Hin. }
      by rewrite import_effect_find_ne, import_effect_created_ne.
Qed.

Lemma map_replace_jsonl (cols : list string) :
  map replace_jsonl (map (fun col => col +:+ ".jsonl") cols) = cols.
Proof.
  induction cols as [|c cols IH]; simpl; [done|]. by rewrite replace_jsonl_app, IH.
Qed.



End RoundTrip.

(** ** C10: what [importDb] reads of its directory *)

Lemma fs_indep_ret {A} fs0 f (a : A) : fs_indep fs0 f (ret a).
Proof. by intros w Hw. Qed.

Lemma fs_indep_throw {A} fs0 f e : fs_indep fs0 f (@throw A e).
Proof. by intros w Hw. Qed.

Lemma fs_indep_bind {A B} fs0 f (m : M A) (k : A → M B) :
  fs_indep fs0 f m → (∀ a, fs_indep fs0 f (k a)) → fs_indep fs0 f (bind m k).
Proof.
  intros Hm Hk w Hw. destruct (Hm w Hw) as [Hrun Hfs]. unfold bind. rewrite Hrun.
  destruct (m w) as [[a|e] w']; simpl in *; [by apply Hk|done].
Qed.

Lemma fs_indep_for_loop {A St} fs0 f (body : nat → A → St → M St) xs :
  (∀ i x s, x ∈ xs → fs_indep fs0 f (body i x s)) →
  ∀ i s, fs_indep fs0 f (for_loop body i xs s).
Proof.
  induction xs as [|x xs IH]; intros Hbody i s; simpl.
  - apply fs_indep_ret.
  - apply fs_indep_bind.
    + apply Hbody. by left.
    + intros s'. apply IH. intros. apply Hbody. by right.
Qed.

Lemma fs_indep_read_cluster {A} fs0 f h (g : MockState → A) :
  fs_indep fs0 f (read_cluster h g).
Proof. intros w Hw. unfold read_cluster. simpl. by destruct (alist_get _ _). Qed.

Lemma fs_indep_write_cluster fs0 f h g : fs_indep fs0 f (write_cluster h g).
Proof. intros w Hw. unfold write_cluster. simpl. by destruct (alist_get _ _). Qed.

Lemma fs_indep_call_onCollection fs0 f cb name i t :
  fs_indep fs0 f (call_onCollection cb name i t).
Proof. intros w Hw. unfold call_onCollection. by destruct cb. Qed.

Lemma fs_indep_readFileSync fs0 f dir name :
  lookup_entry f dir name = lookup_entry fs0 dir name →
  fs_indep fs0 f (readFileSync dir name).
Proof.
  intros Hsame w Hw. unfold readFileSync. simpl. rewrite Hsame, Hw.
  by destruct (lookup_entry fs0 dir name).
Qed.

Lemma fs_indep_existsSync_in fs0 f dir name :
  lookup_entry f dir name = lookup_entry fs0 dir name →
  fs_indep fs0 f (existsSync_in dir name).
Proof. intros Hsame w Hw. unfold existsSync_in. simpl. by rewrite Hsame, Hw. Qed.

Create HintDb fs_indep.
#[export] Hint Resolve fs_indep_ret fs_indep_throw fs_indep_read_cluster
  fs_indep_write_cluster fs_indep_call_onCollection : fs_indep.

Lemma fs_indep_counted_push fs0 f h dbName col doc st :
  fs_indep fs0 f (counted_push h dbName col doc st).
Proof.
  unfold counted_push. destruct (_ <=? _); [|auto with fs_indep].
  apply fs_indep_bind; [apply fs_indep_write_cluster|auto with fs_indep].
Qed.

Lemma fs_indep_counted_rest fs0 f h dbName col st :
  fs_indep fs0 f (counted_rest h dbName col st).
Proof.
  unfold counted_rest. destruct (_ <? _); [|auto with fs_indep].
  apply fs_indep_bind; [apply fs_indep_write_cluster|auto with fs_indep].
Qed.

Lemma fs_indep_create_userIndexes fs0 f h dbName col specs :
  fs_indep fs0 f (create_userIndexes h dbName col specs).
Proof.
  unfold create_userIndexes. destruct (_ <? _); [apply fs_indep_write_cluster|].
  apply fs_indep_ret.
Qed.

Section Relevance.
Context {codec : Codec}.

Lemma fs_indep_importDb_line fs0 f h dbName col line st :
  fs_indep fs0 f (importDb_line h dbName col line st).
Proof.
  unfold importDb_line. destruct (decide _); [apply fs_indep_ret|].
  destruct (EJSON_parse _); [apply fs_indep_counted_push|apply fs_indep_throw].
Qed.

Lemma fs_indep_importDb_file fs0 f h dbName inDir cb total i file n :
  lookup_entry f inDir file = lookup_entry fs0 inDir file →
  lookup_entry f inDir (replace_jsonl file +:+ ".indexes.json")
  = lookup_entry fs0 inDir (replace_jsonl file +:+ ".indexes.json") →
  fs_indep fs0 f (importDb_file h dbName inDir cb total i file n).
Proof.
  intros Hfile Hside. unfold importDb_file.
  apply fs_indep_bind; [apply fs_indep_call_onCollection|intros _].
  apply fs_indep_bind; [by apply fs_indep_readFileSync|intros text].
  apply fs_indep_bind.
  { apply fs_indep_for_loop. intros. apply fs_indep_importDb_line. }
  intros st. apply fs_indep_bind; [apply fs_indep_counted_rest|intros total'].
  apply fs_indep_bind; [by apply fs_indep_existsSync_in|intros present].
  apply fs_indep_bind; [|intros; apply fs_indep_ret].
  destruct present; [|apply fs_indep_ret].
  apply fs_indep_bind; [by apply fs_indep_readFileSync|intros itext].
  destruct (JSON_parse itext); [apply fs_indep_create_userIndexes|apply fs_indep_throw].
Qed.

Lemma alist_keys_set {V} (k : string) (v : V) (m : list (string * V)) :
  alist_keys (alist_set k v m)
  = alist_keys m ++ (if alist_get k m is Some _ then [] else [k]).
Proof.
  induction m as [|[k' v'] m IH]; simpl; [done|].
  destruct (decide (k = k')) as [->|Hne]; simpl.
  - by rewrite app_nil_r.
  - by rewrite IH.
Qed.

Lemma record_files_set name text entries :
  endsWith name ".jsonl" = false →
  record_files (alist_set name text entries) = record_files entries.
Proof.
  intros Hname. unfold record_files. rewrite alist_keys_set, List.filter_app.
  destruct (alist_get name entries); simpl; [by rewrite app_nil_r|].
  by rewrite Hname, app_nil_r.
Qed.

Lemma record_files_endsWith file entries :
  file ∈ record_files entries → endsWith file ".jsonl" = true.
Proof. unfold record_files. intros Hin%list_elem_of_In%filter_In. tauto. Qed.

Lemma importDb_unfold this h dbName inDir cb w entries :
  client this = Some h →
  alist_get inDir (fs w) = Some (Dir entries) →
  importDb this dbName inDir cb w
  = match for_loop (importDb_file h dbName inDir cb (length (record_files entries)))
            0 (record_files entries) 0 w with
    | (Ok n, w') => (Ok (mkImportResult (length (record_files entries)) n), w')
    | (Throw e, w') => (Throw e, w')
    end.
Proof.
  intros Hc Hdir. unfold importDb. rewrite (existsSync_dir inDir w entries) by done.
  simpl. erewrite bind_ok; [|by apply db_connected].
  erewrite bind_ok; [|unfold readdirSync; by rewrite Hdir].
  reflexivity.
Qed.

(** C10. [importDb] enumerates the entries of its directory whose names
    end in [.jsonl], takes the collection name of each by dropping that
    suffix, and reads nothing else than those record files and, for each
    of them, the sidecar of that collection name.  Two directories with
    the same record-file names, the same record files and the same
    sidecars for them give the same outcome and the same effects; the
    collection count of a successful import is the number of record
    files; in particular creating or replacing an entry that is neither
    a record file nor the sidecar of one changes nothing. *)
Theorem importDb_reads_record_files (this : MongoClient) (dbName inDir : string)
    (cb : bool) (w : World) (entries : list (string * string)) :
  alist_get inDir (fs w) = Some (Dir entries) →
  (∀ entries',
      record_files entries' = record_files entries →
      (∀ file, file ∈ record_files entries →
               alist_get file entries' = alist_get file entries ∧
               alist_get (replace_jsonl file +:+ ".indexes.json") entries'
               = alist_get (replace_jsonl file +:+ ".indexes.json") entries) →
      importDb this dbName inDir cb (set_dir inDir entries' w)
      = (fst (importDb this dbName inDir cb w),
         set_dir inDir entries' (snd (importDb this dbName inDir cb w)))) ∧
  (∀ r w', importDb this dbName inDir cb w = (Ok r, w') →
           import_collections r = length (record_files entries)) ∧
  (∀ name text,
      endsWith name ".jsonl" = false →
      (∀ file, file ∈ record_files entries →
               name ≠ replace_jsonl file +:+ ".indexes.json") →
      importDb this dbName inDir cb (set_dir inDir (alist_set name text entries) w)
      = (fst (importDb this dbName inDir cb w),
         set_dir inDir (alist_set name text entries)
           (snd (importDb this dbName inDir cb w)))) ∧
  (∀ col, endsWith (col +:+ ".jsonl") ".jsonl" = true ∧
          replace_jsonl (col +:+ ".jsonl") = col).
Proof.
  intros Hdir.
  assert (Hmain : ∀ entries',
      record_files entries' = record_files entries →
      (∀ file, file ∈ record_files entries →
               alist_get file entries' = alist_get file entries ∧
               alist_get (replace_jsonl file +:+ ".indexes.json") entries'
               = alist_get (replace_jsonl file +:+ ".indexes.json") entries) →
      importDb this dbName inDir cb (set_dir inDir entries' w)
      = (fst (importDb this dbName inDir cb w),
         set_dir inDir entries' (snd (importDb this dbName inDir cb w)))).
  { intros entries' Hfiles Hsame.
    set (f := alist_set inDir (Dir entries') (fs w)).
    assert (Hlook : ∀ name, alist_get name entries' = alist_get name entries →
                            lookup_entry f inDir name = lookup_entry (fs w) inDir name).
    { intros name Hname. unfold lookup_entry, f. by rewrite alist_get_set_eq, Hdir. }
    destruct (client this) as [h|] eqn:Hc; last first.
    { rewrite !importDb_present_disconnected; try done.
      - by eapply existsSync_dir.
      - eapply existsSync_dir, set_dir_get. }
    rewrite (importDb_unfold this h dbName inDir cb w entries) by done.
    rewrite (importDb_unfold this h dbName inDir cb _ entries') by (done || apply set_dir_get).
    rewrite Hfiles.
    pose proof (fs_indep_for_loop (fs w) f
                  (importDb_file h dbName inDir cb (length (record_files entries)))
                  (record_files entries)) as Hloop.
    destruct (Hloop (fun i file n Hin =>
                fs_indep_importDb_file (fs w) f h dbName inDir cb _ i file n
                  (Hlook _ (proj1 (Hsame file Hin))) (Hlook _ (proj2 (Hsame file Hin))))
                0 0 w eq_refl) as [Hrun Hfs].
    change (set_dir inDir entries' w) with (set_fs f w).
    rewrite Hrun.
    destruct (for_loop _ 0 (record_files entries) 0 w) as [[n|e] w']; simpl in *.
    - unfold set_dir, f. by rewrite Hfs.
    - unfold set_dir, f. by rewrite Hfs. }
  split; [exact Hmain|]. split; [|split].
  - intros r w'. destruct (client this) as [h|] eqn:Hc; last first.
    { rewrite importDb_present_disconnected; [done..|]. by eapply existsSync_dir. }
    rewrite (importDb_unfold this h dbName inDir cb w entries) by done.
    destruct (for_loop _ 0 (record_files entries) 0 w) as [[n|e] w'']; [|done].
    by intros [= <- _].
  - intros name text Hname Horphan. apply Hmain.
    + by apply record_files_set.
    + intros file Hin. split.
      * apply alist_get_set_ne. intros ->.
        apply record_files_endsWith in Hin. congruence.
      * apply alist_get_set_ne. by apply Horphan.
  - intros col. split; [apply endsWith_app|apply replace_jsonl_app].
Qed.

End Relevance.

(** ** Whole transfers, collection by collection

    The turns of a collection loop do not disturb one another: after a
    whole clone or import, every collection of the sink has received the
    flushes and the index call of its own turn. *)

Lemma mock_find_insertMany_other dbName col dbName' col' b s :
  (dbName, col) ≠ (dbName', col') →
  mock_find dbName col (mock_insertMany dbName' col' b s) = mock_find dbName col s.
Proof.
  intros Hne. unfold mock_find at 1, mock_collections at 1. simpl.
  destruct (decide (dbName' = dbName)) as [->|Hdb].
  - rewrite alist_get_set_eq. simpl. rewrite alist_get_set_ne; [done|congruence].
  - by rewrite alist_get_set_ne.
Qed.

Lemma mock_find_insert_batches_other dbName col dbName' col' bs s :
  (dbName, col) ≠ (dbName', col') →
  mock_find dbName col (insert_batches dbName' col' bs s) = mock_find dbName col s.
Proof.
  intros Hne. revert s. induction bs as [|b bs IH]; intros s; [done|].
  change (insert_batches dbName' col' (b :: bs) s)
    with (insert_batches dbName' col' bs (mock_insertMany dbName' col' b s)).
  by rewrite IH, mock_find_insertMany_other.
Qed.

Lemma batches_of_insert_batches_ne dbName col col' bs s :
  col ≠ col' →
  batches_of dbName col (insert_batches dbName col' bs s) = batches_of dbName col s.
Proof.
  intros Hne. revert s. induction bs as [|b bs IH]; intros s; [done|].
  change (insert_batches dbName col' (b :: bs) s)
    with (insert_batches dbName col' bs (mock_insertMany dbName col' b s)).
  rewrite IH. unfold batches_of. simpl. rewrite alist_get_set_ne; [done|congruence].
Qed.

Lemma clone_effect_other sourceDb targetDb col col' ss st :
  col ≠ col' →
  batches_of targetDb col (clone_effect sourceDb targetDb col' ss st)
  = batches_of targetDb col st ∧
  created_of targetDb col (clone_effect sourceDb targetDb col' ss st)
  = created_of targetDb col st ∧
  mock_find sourceDb col (clone_effect sourceDb targetDb col' ss st)
  = mock_find sourceDb col st ∧
  mock_indexes sourceDb col (clone_effect sourceDb targetDb col' ss st)
  = mock_indexes sourceDb col st.
Proof.
  intros Hne. unfold clone_effect. repeat split.
  - unfold batches_of at 1. rewrite create_if_any_insertBatches.
    by apply batches_of_insert_batches_ne.
  - rewrite created_of_create_if_any_ne by done.
    unfold created_of. by rewrite insert_batches_createdIndexes.
  - rewrite mock_find_create_if_any. apply mock_find_insert_batches_other. congruence.
  - unfold mock_indexes. by rewrite create_if_any_colIndexes, insert_batches_colIndexes.
Qed.

Lemma clone_all_other same sourceDb targetDb cols col ss st :
  col ∉ cols →
  batches_of targetDb col (clone_all same sourceDb targetDb cols ss st)
  = batches_of targetDb col st ∧
  created_of targetDb col (clone_all same sourceDb targetDb cols ss st)
  = created_of targetDb col st.
Proof.
  revert ss st. induction cols as [|c cols IH]; intros ss st Hnot; simpl; [done|].
  apply not_elem_of_cons in Hnot as [Hne Hnot].
  destruct (IH (if same then clone_effect sourceDb targetDb c ss st else ss)
              (clone_effect sourceDb targetDb c ss st) Hnot) as [-> ->].
  destruct (clone_effect_other sourceDb targetDb col c ss st Hne) as (-> & -> & _).
  done.
Qed.

Lemma clone_all_at same sourceDb targetDb cols col ss st :
  NoDup cols →
  (same = true → ss = st) →
  col ∈ cols →
  batches_of targetDb col (clone_all same sourceDb targetDb cols ss st)
  = batches_of targetDb col st ++ flushes (mock_find sourceDb col ss) ∧
  created_of targetDb col (clone_all same sourceDb targetDb cols ss st)
  = created_of targetDb col st ++
    (if 0 <? length (userIndexes_of (mock_indexes sourceDb col ss))
     then [userIndexes_of (mock_indexes sourceDb col ss)] else []).
Proof.
  revert ss st. induction cols as [|c cols IH]; intros ss st Hnd Hsame Hin.
  - by apply elem_of_nil in Hin.
  - apply NoDup_cons in Hnd as [Hc Hnd]. simpl.
    apply elem_of_cons in Hin as [->|Hin].
    + destruct (clone_all_other same sourceDb targetDb cols c
                  (if same then clone_effect sourceDb targetDb c ss st else ss)
                  (clone_effect sourceDb targetDb c ss st) Hc) as [-> ->].
      by rewrite clone_effect_batches, clone_effect_created.
    + assert (Hne : col ≠ c) by (intros ->; done).
      destruct (clone_effect_other sourceDb targetDb col c ss st Hne)
        as (Hb & Hcr & Hfind & Hidx).
      destruct (IH (if same then clone_effect sourceDb targetDb c ss st else ss)
                  (clone_effect sourceDb targetDb c ss st) Hnd) as [-> ->]; [|done|].
      { by destruct same. }
      rewrite Hb, Hcr. destruct same; [|done].
      rewrite Hfind, Hidx. by rewrite (Hsame eq_refl).
Qed.

Lemma cloneDbToClient_loop_run hs ht sourceDb targetDb cb total cols i n w ss st :
  alist_get (uri hs) (clusters w) = Some ss →
  alist_get (uri ht) (clusters w) = Some st →
  ∃ n' w',
    for_loop (cloneDbToClient_collection hs ht sourceDb targetDb cb total) i cols n w
    = (Ok n', w') ∧
    alist_get (uri ht) (clusters w')
    = Some (clone_all (bool_decide (uri ht = uri hs)) sourceDb targetDb cols ss st).
Proof.
  revert i n w ss st.
  induction cols as [|col cols IH]; intros i n w ss st Hss Hst; simpl.
  - by exists n, w.
  - erewrite bind_ok; [|by apply cloneDbToClient_collection_run].
    set (st1 := clone_effect sourceDb targetDb col ss st).
    set (w1 := put_cluster (uri ht) st1 (log_progress cb col (i + 1) total w)).
    apply IH; [|apply put_cluster_get].
    destruct (decide (uri ht = uri hs)) as [Heq|Hne].
    + rewrite bool_decide_true by done. rewrite <- Heq. apply put_cluster_get.
    + rewrite bool_decide_false by done. unfold w1.
      by rewrite put_cluster_get_ne, log_progress_clusters.
Qed.

Lemma cloneDb_loop_run_all h sourceDb targetDb cb total cols i w s :
  alist_get (uri h) (clusters w) = Some s →
  ∃ w',
    for_loop (fun i col _ => cloneDb_collection h h sourceDb targetDb cb total i col)
      i cols tt w
    = (Ok tt, w') ∧
    alist_get (uri h) (clusters w') = Some (clone_all true sourceDb targetDb cols s s).
Proof.
  revert i w s.
  induction cols as [|col cols IH]; intros i w s Hs; simpl.
  - by exists w.
  - erewrite bind_ok; [|by apply cloneDb_collection_run].
    apply IH, put_cluster_get.
Qed.

(** A whole [cloneDb]: every listed collection gets the flushes of its
    documents and the index call of its descriptors. *)
Corollary cloneDb_every_collection this h sourceDb targetDb cb w s :
  client this = Some h →
  alist_get (uri h) (clusters w) = Some s →
  NoDup (mock_listCollections sourceDb s) →
  ∃ w' s',
    cloneDb this sourceDb targetDb cb w = (Ok tt, w') ∧
    alist_get (uri h) (clusters w') = Some s' ∧
    ∀ col, col ∈ mock_listCollections sourceDb s →
      batches_of targetDb col s'
      = batches_of targetDb col s ++ flushes (mock_find sourceDb col s) ∧
      created_of targetDb col s'
      = created_of targetDb col s ++
        (if 0 <? length (userIndexes_of (mock_indexes sourceDb col s))
         then [userIndexes_of (mock_indexes sourceDb col s)] else []).
Proof.
  intros Hc Hs Hnd. unfold cloneDb.
  erewrite bind_ok; [|by apply db_connected].
  erewrite bind_ok; [|by apply db_connected].
  erewrite bind_ok; [|by apply read_cluster_ok].
  destruct (cloneDb_loop_run_all h sourceDb targetDb cb
              (length (mock_listCollections sourceDb s))
              (mock_listCollections sourceDb s) 0 w s Hs) as (w' & Hrun & Hs').
  eexists _, _. split; [exact Hrun|]. split; [exact Hs'|].
  intros col Hcol. by apply clone_all_at.
Qed.

(** A whole [cloneDbToClient], likewise. *)
Corollary cloneDbToClient_every_collection this hs target ht sourceDb targetDb cb w ss st :
  client this = Some hs → client target = Some ht →
  alist_get (uri hs) (clusters w) = Some ss →
  alist_get (uri ht) (clusters w) = Some st →
  NoDup (mock_listCollections sourceDb ss) →
  ∃ r w' st',
    cloneDbToClient this sourceDb target targetDb cb w = (Ok r, w') ∧
    alist_get (uri ht) (clusters w') = Some st' ∧
    ∀ col, col ∈ mock_listCollections sourceDb ss →
      batches_of targetDb col st'
      = batches_of targetDb col st ++ flushes (mock_find sourceDb col ss) ∧
      created_of targetDb col st'
      = created_of targetDb col st ++
        (if 0 <? length (userIndexes_of (mock_indexes sourceDb col ss))
         then [userIndexes_of (mock_indexes sourceDb col ss)] else []).
Proof.
  intros Hc Ht Hss Hst Hnd. unfold cloneDbToClient.
  erewrite bind_ok; [|by apply db_connected].
  erewrite bind_ok; [|by apply db_connected].
  erewrite bind_ok; [|by apply read_cluster_ok].
  destruct (cloneDbToClient_loop_run hs ht sourceDb targetDb cb
              (length (mock_listCollections sourceDb ss))
              (mock_listCollections sourceDb ss) 0 0 w ss st Hss Hst)
    as (n' & w' & Hrun & Hst').
  erewrite bind_ok; [|exact Hrun].
  eexists _, _, _. split; [reflexivity|]. split; [exact Hst'|].
  intros col Hcol. apply clone_all_at; [done| |done].
  intros Hsame%bool_decide_eq_true. rewrite Hsame, Hss in Hst. congruence.
Qed.

Section EveryFile.
Context {codec : Codec}.

Lemma import_effect_batches dbName col docs raw s :
  batches_of dbName col (import_effect dbName col docs raw s)
  = batches_of dbName col s ++ flushes docs.
Proof.
  unfold import_effect, batches_of. rewrite create_if_any_insertBatches.
  apply insert_batches_batches.
Qed.

Lemma import_effect_batches_ne dbName col col' docs raw s :
  col ≠ col' →
  batches_of dbName col (import_effect dbName col' docs raw s) = batches_of dbName col s.
Proof.
  intros Hne. unfold import_effect, batches_of at 1. rewrite create_if_any_insertBatches.
  by apply batches_of_insert_batches_ne.
Qed.

Lemma import_all_batches_other dbName files docs_of raw_of col s :
  col ∉ map replace_jsonl files →
  batches_of dbName col (import_all dbName files docs_of raw_of s) = batches_of dbName col s.
Proof.
  unfold import_all. revert s.
  induction files as [|file files IH]; intros s Hnot; simpl; [done|].
  simpl in Hnot. apply not_elem_of_cons in Hnot as [Hne Hnot].
  rewrite IH by done. by apply import_effect_batches_ne.
Qed.

Lemma import_all_batches_at dbName files docs_of raw_of file s :
  NoDup (map replace_jsonl files) →
  file ∈ files →
  batches_of dbName (replace_jsonl file) (import_all dbName files docs_of raw_of s)
  = batches_of dbName (replace_jsonl file) s ++ flushes (docs_of file).
Proof.
  revert s. induction files as [|f files IH]; intros s Hnd Hin.
  - by apply elem_of_nil in Hin.
  - simpl in Hnd. apply NoDup_cons in Hnd as [Hf Hnd].
    change (import_all dbName (f :: files) docs_of raw_of s)
      with (import_all dbName files docs_of raw_of
              (import_effect dbName (replace_jsonl f) (docs_of f) (raw_of f) s)).
    apply elem_of_cons in Hin as [->|Hin].
    + rewrite import_all_batches_other by done. apply import_effect_batches.
    + rewrite IH by done. rewrite import_effect_batches_ne; [done|].
      intros Heq. apply Hf. rewrite <- Heq.
      apply list_elem_of_In, in_map, list_elem_of_In, Hin.
Qed.

(** A whole [importDb]: every record file gives its collection the
    flushes of its documents and the index call of its sidecar. *)
Corollary importDb_every_file this h dbName inDir cb w s entries docs_of raw_of :
  client this = Some h →
  alist_get (uri h) (clusters w) = Some s →
  alist_get inDir (fs w) = Some (Dir entries) →
  Forall (readable entries docs_of raw_of) (record_files entries) →
  NoDup (map replace_jsonl (record_files entries)) →
  ∃ r w' s',
    importDb this dbName inDir cb w = (Ok r, w') ∧
    alist_get (uri h) (clusters w') = Some s' ∧
    ∀ file, file ∈ record_files entries →
      batches_of dbName (replace_jsonl file) s'
      = batches_of dbName (replace_jsonl file) s ++ flushes (docs_of file) ∧
      created_of dbName (replace_jsonl file) s'
      = created_of dbName (replace_jsonl file) s ++
        (if 0 <? length (userIndexes_of (raw_of file))
         then [userIndexes_of (raw_of file)] else []).
Proof.
  intros Hc Hs Hdir Hall Hnd.
  eexists _, _, _. split; [by eapply importDb_run|].
  split; [apply put_cluster_get|].
  intros file Hin. split.
  - by apply import_all_batches_at.
  - by apply import_all_at.
Qed.

End EveryFile.

(** ** C2: the flushes of a transfer *)

Lemma flushes_of_none : flushes [] = [].
Proof. reflexivity. Qed.

Lemma flushes_spec (docs : list Document) :
  concat (flushes docs) = docs ∧
  (0 < length docs → batched (length docs) (flushes docs)) ∧
  (length docs = 0 → flushes docs = []).
Proof.
  split; [apply flushes_concat|]. split; [apply flushes_batched|].
  intros Hlen. destruct docs; [apply flushes_of_none|discriminate].
Qed.

Lemma strip_v_ns_fields (idx : Document) (kv : string * Json) :
  kv ∈ strip_v_ns idx ↔ kv ∈ idx ∧ fst kv ≠ "v" ∧ fst kv ≠ "ns".
Proof.
  unfold strip_v_ns. rewrite !list_elem_of_In, filter_In, andb_true_iff, !negb_true_iff.
  by rewrite !bool_decide_eq_false.
Qed.

Lemma not_id_index_name (idx : Document) :
  not_id_index idx = true ↔ alist_get "name" idx ≠ Some (JStr "_id_").
Proof.
  unfold not_id_index. destruct (alist_get "name" idx) as [[]|]; try done.
  rewrite negb_true_iff, bool_decide_eq_false. split; [congruence|].
  intros Hne ->. done.
Qed.

Section Batching.
Context {codec : Codec}.

(** C2. A whole [cloneDb], [cloneDbToClient] or [importDb] appends to
    the sink's record of bulk inserts, for every collection it moves,
    exactly the flushes of that collection's documents, in cursor
    order: [ceil(D/500)] flushes when there are [D > 0] documents, each
    but the last of 500 documents and the last of
    [D - 500 * (ceil(D/500) - 1)], and no flush when there is none.
    Between two turns of a document loop the pending batch holds fewer
    than 500 documents, so it never exceeds 500 when a document is
    pushed. *)
Theorem batching_flushes :
  (∀ this h sourceDb targetDb cb w s,
      client this = Some h →
      alist_get (uri h) (clusters w) = Some s →
      NoDup (mock_listCollections sourceDb s) →
      ∃ w' s',
        cloneDb this sourceDb targetDb cb w = (Ok tt, w') ∧
        alist_get (uri h) (clusters w') = Some s' ∧
        ∀ col, col ∈ mock_listCollections sourceDb s →
          ∃ batches,
            batches_of targetDb col s' = batches_of targetDb col s ++ batches ∧
            concat batches = mock_find sourceDb col s ∧
            (0 < length (mock_find sourceDb col s) →
             batched (length (mock_find sourceDb col s)) batches) ∧
            (length (mock_find sourceDb col s) = 0 → batches = [])) ∧
  (∀ this hs target ht sourceDb targetDb cb w ss st,
      client this = Some hs → client target = Some ht →
      alist_get (uri hs) (clusters w) = Some ss →
      alist_get (uri ht) (clusters w) = Some st →
      NoDup (mock_listCollections sourceDb ss) →
      ∃ r w' st',
        cloneDbToClient this sourceDb target targetDb cb w = (Ok r, w') ∧
        alist_get (uri ht) (clusters w') = Some st' ∧
        ∀ col, col ∈ mock_listCollections sourceDb ss →
          ∃ batches,
            batches_of targetDb col st' = batches_of targetDb col st ++ batches ∧
            concat batches = mock_find sourceDb col ss ∧
            (0 < length (mock_find sourceDb col ss) →
             batched (length (mock_find sourceDb col ss)) batches) ∧
            (length (mock_find sourceDb col ss) = 0 → batches = [])) ∧
  (∀ this h dbName inDir cb w s entries docs_of raw_of,
      client this = Some h →
      alist_get (uri h) (clusters w) = Some s →
      alist_get inDir (fs w) = Some (Dir entries) →
      Forall (readable entries docs_of raw_of) (record_files entries) →
      NoDup (map replace_jsonl (record_files entries)) →
      ∃ r w' s',
        importDb this dbName inDir cb w = (Ok r, w') ∧
        alist_get (uri h) (clusters w') = Some s' ∧
        ∀ file, file ∈ record_files entries →
          ∃ batches,
            batches_of dbName (replace_jsonl file) s'
            = batches_of dbName (replace_jsonl file) s ++ batches ∧
            concat batches = docs_of file ∧
            (0 < length (docs_of file) → batched (length (docs_of file)) batches) ∧
            (length (docs_of file) = 0 → batches = [])) ∧
  (∀ h dbName col pre w s,
      alist_get (uri h) (clusters w) = Some s →
      (∃ batch w', for_loop (fun _ => cloneDb_push h dbName col) 0 pre [] w = (Ok batch, w') ∧
                   length batch < BATCH_SIZE) ∧
      (∀ n, ∃ st w', for_loop (fun _ => counted_push h dbName col) 0 pre ([], n) w = (Ok st, w') ∧
                     length (fst st) < BATCH_SIZE) ∧
      (∀ n lines, parse_lines lines = Some pre →
                  ∃ st w', for_loop (fun _ => importDb_line h dbName col) 0 lines ([], n) w
                           = (Ok st, w') ∧
                           length (fst st) < BATCH_SIZE)).
Proof.
  split; [|split; [|split]].
  - intros this h sourceDb targetDb cb w s Hc Hs Hnd.
    destruct (cloneDb_every_collection this h sourceDb targetDb cb w s Hc Hs Hnd)
      as (w' & s' & Hrun & Hs' & Hall).
    exists w', s'. split; [done|]. split; [done|].
    intros col Hcol. exists (flushes (mock_find sourceDb col s)).
    split; [apply (Hall col Hcol)|apply flushes_spec].
  - intros this hs target ht sourceDb targetDb cb w ss st Hc Ht Hss Hst Hnd.
    destruct (cloneDbToClient_every_collection this hs target ht sourceDb targetDb cb w ss st
                Hc Ht Hss Hst Hnd) as (r & w' & st' & Hrun & Hst' & Hall).
    exists r, w', st'. split; [done|]. split; [done|].
    intros col Hcol. exists (flushes (mock_find sourceDb col ss)).
    split; [apply (Hall col Hcol)|apply flushes_spec].
  - intros this h dbName inDir cb w s entries docs_of raw_of Hc Hs Hdir Hall Hnd.
    destruct (importDb_every_file this h dbName inDir cb w s entries docs_of raw_of
                Hc Hs Hdir Hall Hnd) as (r & w' & s' & Hrun & Hs' & Hfiles).
    exists r, w', s'. split; [done|]. split; [done|].
    intros file Hfile. exists (flushes (docs_of file)).
    split; [apply (Hfiles file Hfile)|apply flushes_spec].
  - intros h dbName col pre w s Hs. split; [|split].
    + erewrite cloneDb_loop_run by done. do 2 eexists. split; [reflexivity|].
      apply run_batches_inv, BATCH_SIZE_pos.
    + intros n. by eapply pending_counted, BATCH_SIZE_pos.
    + intros n lines Hp. erewrite (import_loop_as_docs _ _ _ _ pre _ 0 0) by done.
      by eapply pending_counted, BATCH_SIZE_pos.
Qed.

End Batching.

(** ** C5: the index descriptors of a transfer *)

Section Indexes.
Context {codec : Codec}.

(** C5. The descriptors replicated from a raw list are those of the raw
    descriptors whose name is not [_id_], in their order, each reduced
    to its fields other than [v] and [ns], in their order and with their
    values: a descriptor is replicated exactly when it is such a
    reduction, and a field is in the reduction exactly when it is a
    field of the raw descriptor other than [v] and [ns].  The implicit
    index followed by one named unique index gives exactly one
    descriptor, without [v] and [ns], still named and still unique.  A
    whole [cloneDb], [cloneDbToClient] or [importDb] hands the
    descriptors replicated from a collection's raw list to
    [createIndexes] of that collection in one call, and makes no call
    when none is left. *)
Theorem replicated_indexes :
  (∀ raw, userIndexes_of raw = map strip_v_ns (List.filter not_id_index raw)) ∧
  (∀ raw d, d ∈ userIndexes_of raw ↔
            ∃ idx, idx ∈ raw ∧ alist_get "name" idx ≠ Some (JStr "_id_") ∧
                   d = strip_v_ns idx) ∧
  (∀ idx kv, kv ∈ strip_v_ns idx ↔ kv ∈ idx ∧ fst kv ≠ "v" ∧ fst kv ≠ "ns") ∧
  (∀ idx, sublist (strip_v_ns idx) idx) ∧
  (∀ idx k, alist_get k (strip_v_ns idx)
            = if decide (k = "v" ∨ k = "ns") then None else alist_get k idx) ∧
  (∀ idx name,
      alist_get "name" idx = Some (JStr name) → name ≠ "_id_" →
      alist_get "unique" idx = Some (JBool true) →
      ∃ d, userIndexes_of [implicitIndex; idx] = [d] ∧
           alist_get "v" d = None ∧ alist_get "ns" d = None ∧
           alist_get "name" d = Some (JStr name) ∧
           alist_get "unique" d = Some (JBool true)) ∧
  (∀ this h sourceDb targetDb cb w s,
      client this = Some h →
      alist_get (uri h) (clusters w) = Some s →
      NoDup (mock_listCollections sourceDb s) →
      ∃ w' s',
        cloneDb this sourceDb targetDb cb w = (Ok tt, w') ∧
        alist_get (uri h) (clusters w') = Some s' ∧
        ∀ col, col ∈ mock_listCollections sourceDb s →
          created_of targetDb col s'
          = created_of targetDb col s ++
            (if 0 <? length (userIndexes_of (mock_indexes sourceDb col s))
             then [userIndexes_of (mock_indexes sourceDb col s)] else [])) ∧
  (∀ this hs target ht sourceDb targetDb cb w ss st,
      client this = Some hs → client target = Some ht →
      alist_get (uri hs) (clusters w) = Some ss →
      alist_get (uri ht) (clusters w) = Some st →
      NoDup (mock_listCollections sourceDb ss) →
      ∃ r w' st',
        cloneDbToClient this sourceDb target targetDb cb w = (Ok r, w') ∧
        alist_get (uri ht) (clusters w') = Some st' ∧
        ∀ col, col ∈ mock_listCollections sourceDb ss →
          created_of targetDb col st'
          = created_of targetDb col st ++
            (if 0 <? length (userIndexes_of (mock_indexes sourceDb col ss))
             then [userIndexes_of (mock_indexes sourceDb col ss)] else [])) ∧
  (∀ this h dbName inDir cb w s entries docs_of raw_of,
      client this = Some h →
      alist_get (uri h) (clusters w) = Some s →
      alist_get inDir (fs w) = Some (Dir entries) →
      Forall (readable entries docs_of raw_of) (record_files entries) →
      NoDup (map replace_jsonl (record_files entries)) →
      ∃ r w' s',
        importDb this dbName inDir cb w = (Ok r, w') ∧
        alist_get (uri h) (clusters w') = Some s' ∧
        ∀ file, file ∈ record_files entries →
          created_of dbName (replace_jsonl file) s'
          = created_of dbName (replace_jsonl file) s ++
            (if 0 <? length (userIndexes_of (raw_of file))
             then [userIndexes_of (raw_of file)] else [])).
Proof.
  split; [done|]. split; [|split; [|split; [|split; [|split; [|split; [|split]]]]]].
  - intros raw d. split.
    + intros (idx & Hin & Hid & ->)%userIndexes_of_elem.
      exists idx. by rewrite <- not_id_index_name.
    + intros (idx & Hin & Hid & ->). unfold userIndexes_of.
      apply list_elem_of_fmap. exists idx. split; [done|].
      apply list_elem_of_In, filter_In. split; [by apply list_elem_of_In|].
      by apply not_id_index_name.
  - apply strip_v_ns_fields.
  - apply strip_v_ns_sublist.
  - apply strip_v_ns_get.
  - intros idx name Hname Hne Huniq.
    exists (strip_v_ns idx). split.
    { unfold userIndexes_of. simpl.
      replace (not_id_index implicitIndex) with false by reflexivity.
      unfold not_id_index. rewrite Hname. by rewrite bool_decide_false by done. }
    rewrite !strip_v_ns_get.
    rewrite decide_True by (by left). rewrite decide_True by (by right).
    rewrite !decide_False by (by intros [|]). done.
  - intros this h sourceDb targetDb cb w s Hc Hs Hnd.
    destruct (cloneDb_every_collection this h sourceDb targetDb cb w s Hc Hs Hnd)
      as (w' & s' & Hrun & Hs' & Hall).
    exists w', s'. split; [done|]. split; [done|].
    intros col Hcol. apply (Hall col Hcol).
  - intros this hs target ht sourceDb targetDb cb w ss st Hc Ht Hss Hst Hnd.
    destruct (cloneDbToClient_every_collection this hs target ht sourceDb targetDb cb w ss st
                Hc Ht Hss Hst Hnd) as (r & w' & st' & Hrun & Hst' & Hall).
    exists r, w', st'. split; [done|]. split; [done|].
    intros col Hcol. apply (Hall col Hcol).
  - intros this h dbName inDir cb w s entries docs_of raw_of Hc Hs Hdir Hall Hnd.
    destruct (importDb_every_file this h dbName inDir cb w s entries docs_of raw_of
                Hc Hs Hdir Hall Hnd) as (r & w' & s' & Hrun & Hs' & Hfiles).
    exists r, w', s'. split; [done|]. split; [done|].
    intros file Hfile. apply (Hfiles file Hfile).
Qed.

End Indexes.

(** * Further properties of the code *)

(** ** What the operations leave alone *)

Section Keeps.
Context {B : Type} (proj : World → B).

Lemma keeps_ret {A} (a : A) : keeps proj (ret a).
Proof. by intros w. Qed.

Lemma keeps_throw {A} e : keeps proj (@throw A e).
Proof. by intros w. Qed.

Lemma keeps_bind {A C} (m : M A) (k : A → M C) :
  keeps proj m → (∀ a, keeps proj (k a)) → keeps proj (bind m k).
Proof.
  intros Hm Hk w. unfold bind. specialize (Hm w).
  destruct (m w) as [[a|e] w']; simpl in *; [|done].
  by rewrite Hk.
Qed.

Lemma keeps_for_loop {A St} (body : nat → A → St → M St) xs :
  (∀ i x st, keeps proj (body i x st)) →
  ∀ i st, keeps proj (for_loop body i xs st).
Proof.
  intros Hbody. induction xs as [|x xs IH]; intros i st; simpl.
  - apply keeps_ret.
  - apply keeps_bind; [apply Hbody|]. intros st'. apply IH.
Qed.

Lemma keeps_map_async {A C} (f : A → M C) xs :
  (∀ x, keeps proj (f x)) → keeps proj (map_async f xs).
Proof.
  intros Hf. induction xs as [|x xs IH]; simpl.
  - apply keeps_ret.
  - apply keeps_bind; [apply Hf|]. intros y.
    apply keeps_bind; [apply IH|]. intros ys. apply keeps_ret.
Qed.

Lemma keeps_db this : keeps proj (db this).
Proof. unfold db. destruct (client this); [apply keeps_ret|apply keeps_throw]. Qed.

Lemma keeps_read_cluster {A} h (f : MockState → A) : keeps proj (read_cluster h f).
Proof. intros w. unfold read_cluster. by destruct (alist_get (uri h) (clusters w)). Qed.

End Keeps.

Lemma keeps_fs_write_cluster h f : keeps fs (write_cluster h f).
Proof. intros w. unfold write_cluster. by destruct (alist_get (uri h) (clusters w)). Qed.

Lemma keeps_fs_call_onCollection cb name i t : keeps fs (call_onCollection cb name i t).
Proof. intros w. unfold call_onCollection. by destruct cb. Qed.

Lemma keeps_clusters_call_onCollection cb name i t : keeps clusters (call_onCollection cb name i t).
Proof. intros w. unfold call_onCollection. by destruct cb. Qed.

Lemma keeps_clusters_mkdirSync path : keeps clusters (mkdirSync path).
Proof. intros w. unfold mkdirSync. by destruct (alist_get path (fs w)) as [[?|?]|]. Qed.

Lemma keeps_clusters_writeFileSync dir name content :
  keeps clusters (writeFileSync dir name content).
Proof. intros w. unfold writeFileSync. by destruct (alist_get dir (fs w)) as [[?|?]|]. Qed.

Lemma keeps_readFileSync {B} (proj : World → B) dir name : keeps proj (readFileSync dir name).
Proof. intros w. unfold readFileSync. by destruct (lookup_entry (fs w) dir name). Qed.

Lemma keeps_existsSync_in {B} (proj : World → B) dir name : keeps proj (existsSync_in dir name).
Proof. by intros w. Qed.

Lemma keeps_readdirSync {B} (proj : World → B) path : keeps proj (readdirSync path).
Proof. intros w. unfold readdirSync. by destruct (alist_get path (fs w)) as [[?|?]|]. Qed.

Lemma keeps_fs_create_userIndexes h dbName col specs :
  keeps fs (create_userIndexes h dbName col specs).
Proof.
  unfold create_userIndexes. destruct (0 <? length specs);
    [apply keeps_fs_write_cluster|apply keeps_ret].
Qed.

Lemma keeps_fs_counted_push h dbName col doc st : keeps fs (counted_push h dbName col doc st).
Proof.
  unfold counted_push. destruct (BATCH_SIZE <=? _); [|apply keeps_ret].
  apply keeps_bind; [apply keeps_fs_write_cluster|]. intros _. apply keeps_ret.
Qed.

Lemma keeps_fs_counted_rest h dbName col st : keeps fs (counted_rest h dbName col st).
Proof.
  unfold counted_rest. destruct (0 <? _); [|apply keeps_ret].
  apply keeps_bind; [apply keeps_fs_write_cluster|]. intros _. apply keeps_ret.
Qed.

Lemma keeps_fs_cloneDb_push h dbName col doc batch : keeps fs (cloneDb_push h dbName col doc batch).
Proof.
  unfold cloneDb_push. destruct (BATCH_SIZE <=? _); [|apply keeps_ret].
  apply keeps_bind; [apply keeps_fs_write_cluster|]. intros _. apply keeps_ret.
Qed.

Lemma listDatabases_keeps this : keeps (fun w => w) (listDatabases this).
Proof.
  unfold listDatabases. apply keeps_bind; [apply keeps_db|]. intros h.
  apply keeps_bind; [apply keeps_read_cluster|]. intros r. apply keeps_ret.
Qed.

Lemma listCollections_keeps this dbName : keeps (fun w => w) (listCollections this dbName).
Proof.
  unfold listCollections. apply keeps_bind; [apply keeps_db|]. intros h.
  apply keeps_bind; [apply keeps_read_cluster|]. intros cols.
  apply keeps_map_async. intros col.
  apply keeps_bind; [apply keeps_read_cluster|]. intros n. apply keeps_ret.
Qed.

Lemma getDbStats_keeps this dbName : keeps (fun w => w) (getDbStats this dbName).
Proof.
  unfold getDbStats. apply keeps_bind; [apply listCollections_keeps|].
  intros cols. apply keeps_ret.
Qed.

Section KeepsCodec.
Context {codec : Codec}.

Lemma exportDb_keeps_clusters this dbName outDir cb :
  keeps clusters (exportDb this dbName outDir cb).
Proof.
  unfold exportDb.
  apply keeps_bind; [apply keeps_clusters_mkdirSync|]. intros _.
  apply keeps_bind; [apply keeps_db|]. intros h.
  apply keeps_bind; [apply keeps_read_cluster|]. intros cols.
  apply keeps_bind; [|intros n; apply keeps_ret].
  apply keeps_for_loop. intros i col n. unfold exportDb_collection.
  apply keeps_bind; [apply keeps_clusters_call_onCollection|]. intros _.
  apply keeps_bind; [apply keeps_clusters_writeFileSync|]. intros _.
  apply keeps_bind; [apply keeps_read_cluster|]. intros cursor.
  apply keeps_bind.
  { apply keeps_for_loop. intros j doc m.
    apply keeps_bind; [|intros _; apply keeps_ret].
    unfold stream_write. apply keeps_bind; [apply keeps_readFileSync|].
    intros old. apply keeps_clusters_writeFileSync. }
  intros m. apply keeps_bind; [apply keeps_read_cluster|]. intros indexes.
  apply keeps_bind; [apply keeps_clusters_writeFileSync|]. intros _. apply keeps_ret.
Qed.

Lemma importDb_file_keeps_fs h dbName inDir cb total i file n :
  keeps fs (importDb_file h dbName inDir cb total i file n).
Proof.
  unfold importDb_file.
  apply keeps_bind; [apply keeps_fs_call_onCollection|]. intros _.
  apply keeps_bind; [apply keeps_readFileSync|]. intros text.
  apply keeps_bind.
  { apply keeps_for_loop. intros j line st. unfold importDb_line.
    destruct (decide _); [apply keeps_ret|].
    destruct (EJSON_parse _); [apply keeps_fs_counted_push|apply keeps_throw]. }
  intros st. apply keeps_bind; [apply keeps_fs_counted_rest|]. intros m.
  apply keeps_bind; [apply keeps_existsSync_in|]. intros present.
  apply keeps_bind; [|intros _; apply keeps_ret].
  destruct present; [|apply keeps_ret].
  apply keeps_bind; [apply keeps_readFileSync|]. intros itext.
  destruct (JSON_parse itext); [apply keeps_fs_create_userIndexes|apply keeps_throw].
Qed.

Lemma importDb_keeps_fs this dbName inDir cb : keeps fs (importDb this dbName inDir cb).
Proof.
  intros w. unfold importDb. destruct (negb (existsSync inDir w)); [done|].
  revert w. apply keeps_bind; [apply keeps_db|]. intros h.
  apply keeps_bind; [apply keeps_readdirSync|]. intros entries.
  apply keeps_bind; [|intros n; apply keeps_ret].
  apply keeps_for_loop. intros i file n. apply importDb_file_keeps_fs.
Qed.

End KeepsCodec.

Lemma cloneDb_keeps_fs this sourceDb targetDb cb : keeps fs (cloneDb this sourceDb targetDb cb).
Proof.
  unfold cloneDb.
  apply keeps_bind; [apply keeps_db|]. intros source.
  apply keeps_bind; [apply keeps_db|]. intros target.
  apply keeps_bind; [apply keeps_read_cluster|]. intros cols.
  apply keeps_for_loop. intros i col _. unfold cloneDb_collection.
  apply keeps_bind; [apply keeps_fs_call_onCollection|]. intros _.
  apply keeps_bind; [apply keeps_read_cluster|]. intros cursor.
  apply keeps_bind; [apply keeps_for_loop; intros; apply keeps_fs_cloneDb_push|].
  intros batch. apply keeps_bind.
  { destruct (0 <? _); [apply keeps_fs_write_cluster|apply keeps_ret]. }
  intros _. apply keeps_bind; [apply keeps_read_cluster|]. intros indexes.
  apply keeps_fs_create_userIndexes.
Qed.

Lemma cloneDbToClient_keeps_fs this sourceDb target targetDb cb :
  keeps fs (cloneDbToClient this sourceDb target targetDb cb).
Proof.
  unfold cloneDbToClient.
  apply keeps_bind; [apply keeps_db|]. intros hs.
  apply keeps_bind; [apply keeps_db|]. intros ht.
  apply keeps_bind; [apply keeps_read_cluster|]. intros cols.
  apply keeps_bind; [|intros n; apply keeps_ret].
  apply keeps_for_loop. intros i col n. unfold cloneDbToClient_collection.
  apply keeps_bind; [apply keeps_fs_call_onCollection|]. intros _.
  apply keeps_bind; [apply keeps_read_cluster|]. intros cursor.
  apply keeps_bind; [apply keeps_for_loop; intros; apply keeps_fs_counted_push|].
  intros st. apply keeps_bind; [apply keeps_fs_counted_rest|]. intros m.
  apply keeps_bind; [apply keeps_read_cluster|]. intros indexes.
  apply keeps_bind; [apply keeps_fs_create_userIndexes|]. intros _. apply keeps_ret.
Qed.

Lemma dropDb_keeps_fs this dbName : keeps fs (dropDb this dbName).
Proof.
  unfold dropDb. apply keeps_bind; [apply keeps_db|]. intros h. apply keeps_fs_write_cluster.
Qed.

(** X5. The operations that only read the database change no cluster.
    [exportDb], whether it returns or throws and however far it got,
    leaves every cluster store as it was (no document, no index, no
    recorded call); the three catalogue queries, returned or thrown,
    leave the whole world as it was. *)
Theorem reads_keep_clusters {codec : Codec} (this : MongoClient) (w : World) :
  (∀ dbName outDir cb, clusters (snd (exportDb this dbName outDir cb w)) = clusters w) ∧
  snd (listDatabases this w) = w ∧
  (∀ dbName, snd (listCollections this dbName w) = w) ∧
  (∀ dbName, snd (getDbStats this dbName w) = w).
Proof.
  split; [|split; [|split]].
  - intros dbName outDir cb. apply exportDb_keeps_clusters.
  - apply (listDatabases_keeps this w).
  - intros dbName. apply (listCollections_keeps this dbName w).
  - intros dbName. apply (getDbStats_keeps this dbName w).
Qed.

(** X6. The operations that write to a cluster never write to the file
    system: after [importDb], [cloneDb], [cloneDbToClient] or [dropDb],
    returned or thrown, every path holds what it held. *)
Theorem live_writes_keep_files {codec : Codec} (this : MongoClient) (w : World) :
  (∀ dbName inDir cb, fs (snd (importDb this dbName inDir cb w)) = fs w) ∧
  (∀ sourceDb targetDb cb, fs (snd (cloneDb this sourceDb targetDb cb w)) = fs w) ∧
  (∀ sourceDb target targetDb cb,
      fs (snd (cloneDbToClient this sourceDb target targetDb cb w)) = fs w) ∧
  (∀ dbName, fs (snd (dropDb this dbName w)) = fs w).
Proof.
  repeat split; intros.
  - apply importDb_keeps_fs.
  - apply cloneDb_keeps_fs.
  - apply cloneDbToClient_keeps_fs.
  - apply dropDb_keeps_fs.
Qed.

(** ** The catalogue *)

(** X1. On a connected client whose cluster answers, [listDatabases]
    returns the databases of the cluster in the server's order without
    [admin], [local] and [config], and every other database is in the
    list; nothing changes. *)
Theorem listDatabases_hides_system (this : MongoClient) (h : NativeClient)
    (s : MockState) (w : World) :
  client this = Some h →
  alist_get (uri h) (clusters w) = Some s →
  ∃ r,
    listDatabases this w = (Ok r, w) ∧
    map db_name r
    = List.filter (fun name => negb (bool_decide (name ∈ SYSTEM_DBS))) (alist_keys (dbs s)) ∧
    (∀ name, name ∈ map db_name r ↔ name ∈ alist_keys (dbs s) ∧ name ∉ SYSTEM_DBS) ∧
    (∀ d, d ∈ r → db_name d ≠ "admin" ∧ db_name d ≠ "local" ∧ db_name d ≠ "config").
Proof.
  intros Hc Hs. unfold listDatabases.
  erewrite bind_ok; [|by apply db_connected].
  erewrite bind_ok; [|by apply read_cluster_ok].
  eexists. split; [reflexivity|].
  assert (Hnames :
    map db_name
      (map (fun d : string * N => mkDbInfo (fst d) (snd d))
         (List.filter (fun d => negb (bool_decide (fst d ∈ SYSTEM_DBS))) (mock_listDatabases s)))
    = List.filter (fun name => negb (bool_decide (name ∈ SYSTEM_DBS))) (alist_keys (dbs s))).
  { unfold mock_listDatabases. rewrite map_map. simpl.
    induction (alist_keys (dbs s)) as [|name names IH]; simpl; [done|].
    destruct (negb (bool_decide (name ∈ SYSTEM_DBS))); simpl; by rewrite IH. }
  assert (Hiff : ∀ name,
    name ∈ List.filter (fun name => negb (bool_decide (name ∈ SYSTEM_DBS))) (alist_keys (dbs s))
    ↔ name ∈ alist_keys (dbs s) ∧ name ∉ SYSTEM_DBS).
  { intros name. rewrite !list_elem_of_In, filter_In, negb_true_iff, bool_decide_eq_false.
    by rewrite <- !list_elem_of_In. }
  split; [exact Hnames|]. split.
  - intros name. rewrite Hnames. apply Hiff.
  - intros d Hd.
    assert (Hin : db_name d ∈ alist_keys (dbs s) ∧ db_name d ∉ SYSTEM_DBS).
    { apply Hiff. rewrite <- Hnames. apply list_elem_of_fmap. by exists d. }
    destruct Hin as [_ Hnot]. unfold SYSTEM_DBS in Hnot.
    repeat split; intros Heq; apply Hnot; rewrite Heq;
      repeat (first [apply list_elem_of_here | apply list_elem_of_further]).
Qed.

(** X2. [dropDb] on a connected client whose cluster answers empties the
    database: afterwards [listCollections] returns no collection,
    [getDbStats] reports zero documents and no collection of it holds a
    document, while every other database and every other cluster keeps
    its collections, and neither the file system nor the progress record
    changes. *)
Theorem dropDb_clears (this : MongoClient) (h : NativeClient) (dbName : string)
    (s : MockState) (w : World) :
  client this = Some h →
  alist_get (uri h) (clusters w) = Some s →
  ∃ w' s',
    dropDb this dbName w = (Ok tt, w') ∧
    alist_get (uri h) (clusters w') = Some s' ∧
    listCollections this dbName w' = (Ok [], w') ∧
    getDbStats this dbName w' = (Ok (mkDbStats dbName [] 0), w') ∧
    (∀ col, mock_find dbName col s' = []) ∧
    (∀ other, other ≠ dbName → mock_collections other s' = mock_collections other s) ∧
    (∀ u, u ≠ uri h → alist_get u (clusters w') = alist_get u (clusters w)) ∧
    fs w' = fs w ∧ progress w' = progress w.
Proof.
  intros Hc Hs. unfold dropDb.
  erewrite bind_ok; [|by apply db_connected].
  unfold drv_dropDatabase. erewrite write_cluster_ok; [|done].
  set (s' := mock_dropDatabase dbName s).
  set (w' := put_cluster (uri h) s' w).
  assert (Hs' : alist_get (uri h) (clusters w') = Some s') by apply put_cluster_get.
  assert (Hcols : mock_collections dbName s' = []).
  { unfold mock_collections, s'. simpl. by rewrite alist_get_set_eq. }
  assert (Hlist : listCollections this dbName w' = (Ok [], w')).
  { erewrite listCollections_ok; [|done..]. unfold mock_listCollections. by rewrite Hcols. }
  exists w', s'. split; [done|]. split; [done|]. split; [done|]. split.
  { unfold getDbStats. erewrite bind_ok; [|exact Hlist]. done. }
  split.
  { intros col. unfold mock_find. by rewrite Hcols. }
  split.
  { intros other Hne. unfold mock_collections, s'. simpl. by rewrite alist_get_set_ne. }
  split; [|done].
  intros u Hne. unfold w'. by rewrite put_cluster_get_ne.
Qed.

(** ** Progress calls *)

Lemma log_all_progress cb total i names w :
  progress (log_all cb total i names w)
  = progress w ++ (if cb then imap (fun k name => (name, i + k + 1, total)) names else []).
Proof.
  revert i w. induction names as [|name names IH]; intros i w; simpl.
  - destruct cb; by rewrite app_nil_r.
  - rewrite IH. unfold log_progress. destruct cb; simpl; [|done].
    rewrite <- app_assoc. simpl. rewrite Nat.add_0_r. do 2 f_equal.
    apply imap_ext. intros k name' _. simpl. f_equal. f_equal. lia.
Qed.

Lemma log_all_progress_calls cb names w :
  progress (log_all cb (length names) 0 names w)
  = progress w ++ (if cb then progress_calls names else []).
Proof. apply log_all_progress. Qed.

Lemma cloneDb_loop_exact h sourceDb targetDb cb total cols i w s :
  alist_get (uri h) (clusters w) = Some s →
  for_loop (fun i col _ => cloneDb_collection h h sourceDb targetDb cb total i col)
    i cols tt w
  = (Ok tt,
     put_cluster (uri h) (clone_all true sourceDb targetDb cols s s)
       (log_all cb total i cols w)).
Proof.
  revert i w s.
  induction cols as [|col cols IH]; intros i w s Hs; simpl.
  - unfold ret. by rewrite put_cluster_same.
  - erewrite bind_ok; [|by apply cloneDb_collection_run].
    erewrite IH; [|apply put_cluster_get].
    by rewrite log_all_put_cluster, put_cluster_put.
Qed.

Lemma cloneDbToClient_loop_exact hs ht sourceDb targetDb cb total cols i n w ss st :
  alist_get (uri hs) (clusters w) = Some ss →
  alist_get (uri ht) (clusters w) = Some st →
  ∃ n',
    for_loop (cloneDbToClient_collection hs ht sourceDb targetDb cb total) i cols n w
    = (Ok n',
       put_cluster (uri ht)
         (clone_all (bool_decide (uri ht = uri hs)) sourceDb targetDb cols ss st)
         (log_all cb total i cols w)).
Proof.
  revert i n w ss st.
  induction cols as [|col cols IH]; intros i n w ss st Hss Hst; simpl.
  - exists n. unfold ret. by rewrite put_cluster_same.
  - erewrite bind_ok; [|by apply cloneDbToClient_collection_run].
    set (st1 := clone_effect sourceDb targetDb col ss st).
    set (w1 := put_cluster (uri ht) st1 (log_progress cb col (i + 1) total w)).
    destruct (IH (S i) (n + length (mock_find sourceDb col ss)) w1
                (if bool_decide (uri ht = uri hs) then st1 else ss) st1) as [n' Hrun].
    { destruct (decide (uri ht = uri hs)) as [Heq|Hne].
      - rewrite bool_decide_true by done. rewrite <- Heq. apply put_cluster_get.
      - rewrite bool_decide_false by done. unfold w1.
        by rewrite put_cluster_get_ne, log_progress_clusters. }
    { apply put_cluster_get. }
    exists n'. rewrite Hrun. unfold w1.
    by rewrite log_all_put_cluster, put_cluster_put.
Qed.

(** X3. A live-to-live transfer that is given a callback calls it once
    per collection of the source, in listing order, with the positions
    [1..n] and the total [n]; given none, or on a database without
    collections, it makes no call.  This holds for [cloneDb] and for
    [cloneDbToClient]. *)
Theorem clone_progress_calls (this target : MongoClient) (hs ht : NativeClient)
    (sourceDb targetDb : string) (cb : bool) (w : World) (ss st : MockState) :
  client this = Some hs →
  client target = Some ht →
  alist_get (uri hs) (clusters w) = Some ss →
  alist_get (uri ht) (clusters w) = Some st →
  (∃ w', cloneDb this sourceDb targetDb cb w = (Ok tt, w') ∧
         progress w'
         = progress w ++
           (if cb then progress_calls (mock_listCollections sourceDb ss) else [])) ∧
  (∃ r w', cloneDbToClient this sourceDb target targetDb cb w = (Ok r, w') ∧
           progress w'
           = progress w ++
             (if cb then progress_calls (mock_listCollections sourceDb ss) else [])).
Proof.
  intros Hc Ht Hss Hst. split.
  - unfold cloneDb.
    erewrite bind_ok; [|by apply db_connected].
    erewrite bind_ok; [|by apply db_connected].
    erewrite bind_ok; [|by apply read_cluster_ok].
    erewrite cloneDb_loop_exact; [|done].
    eexists. split; [reflexivity|].
    rewrite put_cluster_progress. apply log_all_progress_calls.
  - unfold cloneDbToClient.
    erewrite bind_ok; [|by apply db_connected].
    erewrite bind_ok; [|by apply db_connected].
    erewrite bind_ok; [|by apply read_cluster_ok].
    destruct (cloneDbToClient_loop_exact hs ht sourceDb targetDb cb
                (length (mock_listCollections sourceDb ss))
                (mock_listCollections sourceDb ss) 0 0 w ss st Hss Hst) as [n' Hrun].
    erewrite bind_ok; [|exact Hrun].
    eexists _, _. split; [reflexivity|].
    rewrite put_cluster_progress. apply log_all_progress_calls.
Qed.

Section DumpProgress.
Context {codec : Codec}.

(** X4. [exportDb] calls its callback once per collection, in listing
    order, with the positions [1..n] and the total [n]; [importDb] calls
    it once per record file of the directory, in listing order, with the
    file name less its [.jsonl] suffix.  Without a callback neither makes
    a call. *)
Theorem dump_progress_calls (this : MongoClient) (h : NativeClient) (dbName dir : string)
    (cb : bool) (w : World) (s : MockState) :
  client this = Some h →
  alist_get (uri h) (clusters w) = Some s →
  (∀ entries,
      alist_get dir (fs w) = None ∧ entries = [] ∨ alist_get dir (fs w) = Some (Dir entries) →
      ∃ r w', exportDb this dbName dir cb w = (Ok r, w') ∧
              progress w'
              = progress w ++
                (if cb then progress_calls (mock_listCollections dbName s) else [])) ∧
  (∀ entries docs_of raw_of,
      alist_get dir (fs w) = Some (Dir entries) →
      Forall (readable entries docs_of raw_of) (record_files entries) →
      ∃ r w', importDb this dbName dir cb w = (Ok r, w') ∧
              progress w'
              = progress w ++
                (if cb then progress_calls (map replace_jsonl (record_files entries))
                 else [])).
Proof.
  intros Hc Hs. split.
  - intros entries Hdir. eexists _, _. split; [by eapply exportDb_run|].
    unfold set_dir, set_fs. simpl. apply log_all_progress_calls.
  - intros entries docs_of raw_of Hdir Hall.
    eexists _, _. split; [by eapply importDb_run|].
    rewrite put_cluster_progress.
    rewrite <- (length_map replace_jsonl (record_files entries)).
    apply log_all_progress_calls.
Qed.

End DumpProgress.

(** ** What [exportDb] does to its directory *)

Section ExportedFiles.
Context {codec : Codec}.

Lemma export_files_other dbName s col name entries :
  name ≠ col +:+ ".jsonl" → name ≠ col +:+ ".indexes.json" →
  alist_get name (export_files dbName col s entries) = alist_get name entries.
Proof.
  intros Hrec Hside. unfold export_files. by rewrite !alist_get_set_ne.
Qed.

Lemma export_all_other dbName s cols name entries :
  name ∉ export_names cols →
  alist_get name (export_all dbName s cols entries) = alist_get name entries.
Proof.
  unfold export_all. revert entries.
  induction cols as [|c cols IH]; intros entries Hnot; simpl; [done|].
  rewrite IH.
  - apply export_files_other; intros ->; apply Hnot, export_names_elem;
      exists c; (split; [by left|auto]).
  - intros Hin. apply Hnot. apply export_names_elem in Hin as (col & Hcol & Hor).
    apply export_names_elem. exists col. split; [by right|done].
Qed.

Lemma set_dir_get_ne dir path entries w :
  path ≠ dir → alist_get path (fs (set_dir dir entries w)) = alist_get path (fs w).
Proof. intros Hne. unfold set_dir. simpl. by rewrite alist_get_set_ne. Qed.

(** X7. An export into a directory that already has entries replaces the
    record file and the sidecar of every collection it exports with
    their new texts, and leaves alone every other entry of the directory
    (a record file left by an earlier export of a collection that is gone
    stays where it is) and every other path. *)
Theorem exportDb_keeps_other_files (this : MongoClient) (h : NativeClient)
    (dbName outDir : string) (cb : bool) (w : World) (s : MockState)
    (entries : list (string * string)) :
  client this = Some h →
  alist_get (uri h) (clusters w) = Some s →
  alist_get outDir (fs w) = Some (Dir entries) →
  ∃ r w' entries',
    exportDb this dbName outDir cb w = (Ok r, w') ∧
    alist_get outDir (fs w') = Some (Dir entries') ∧
    (∀ col, col ∈ mock_listCollections dbName s →
        alist_get (col +:+ ".jsonl") entries'
        = Some (record_text (map EJSON_stringify (mock_find dbName col s))) ∧
        alist_get (col +:+ ".indexes.json") entries'
        = Some (JSON_stringify (List.filter not_id_index (mock_indexes dbName col s)))) ∧
    (∀ name, name ∉ export_names (mock_listCollections dbName s) →
        alist_get name entries' = alist_get name entries) ∧
    (∀ path, path ≠ outDir → alist_get path (fs w') = alist_get path (fs w)).
Proof.
  intros Hc Hs Hdir.
  eexists _, _, _. split; [eapply exportDb_run; [done|done|by right]|].
  split; [apply set_dir_get|]. split.
  { intros col Hcol. split; [by apply export_all_record|by apply export_all_sidecar]. }
  split.
  { intros name Hname. by apply export_all_other. }
  intros path Hne. rewrite set_dir_get_ne by done. by rewrite log_all_fs.
Qed.

Lemma export_files_again dbName s col entries :
  alist_get (col +:+ ".jsonl") entries
  = Some (record_text (map EJSON_stringify (mock_find dbName col s))) →
  alist_get (col +:+ ".indexes.json") entries
  = Some (JSON_stringify (List.filter not_id_index (mock_indexes dbName col s))) →
  export_files dbName col s entries = entries.
Proof.
  intros Hrec Hside. unfold export_files.
  rewrite (alist_set_same (col +:+ ".jsonl")) by done.
  by rewrite alist_set_same.
Qed.

Lemma export_all_again dbName s cols cols' entries :
  (∀ col, col ∈ cols' → col ∈ cols) →
  export_all dbName s cols' (export_all dbName s cols entries)
  = export_all dbName s cols entries.
Proof.
  intros Hsub. induction cols' as [|c cols' IH]; [done|].
  change (export_all dbName s (c :: cols') (export_all dbName s cols entries))
    with (export_all dbName s cols'
            (export_files dbName c s (export_all dbName s cols entries))).
  rewrite export_files_again.
  - apply IH. intros col Hcol. apply Hsub. by right.
  - apply export_all_record, Hsub. by left.
  - apply export_all_sidecar, Hsub. by left.
Qed.

(** X8. Exporting the same database twice into the same directory is the
    same as exporting it once: the second export returns the same counts
    and path and leaves the file system exactly as the first left it. *)
Theorem exportDb_twice (this : MongoClient) (h : NativeClient)
    (dbName outDir : string) (cb1 cb2 : bool) (w : World) (s : MockState)
    (entries : list (string * string)) :
  client this = Some h →
  alist_get (uri h) (clusters w) = Some s →
  alist_get outDir (fs w) = None ∧ entries = [] ∨ alist_get outDir (fs w) = Some (Dir entries) →
  ∃ r w1 w2,
    exportDb this dbName outDir cb1 w = (Ok r, w1) ∧
    exportDb this dbName outDir cb2 w1 = (Ok r, w2) ∧
    fs w2 = fs w1 ∧ clusters w2 = clusters w.
Proof.
  intros Hc Hs Hdir.
  set (cols := mock_listCollections dbName s).
  set (w1 := set_dir outDir (export_all dbName s cols entries)
               (log_all cb1 (length cols) 0 cols w)).
  assert (Hs1 : alist_get (uri h) (clusters w1) = Some s).
  { unfold w1. by rewrite set_dir_clusters, log_all_clusters. }
  eexists _, w1, _. split; [by eapply exportDb_run|].
  split.
  { eapply exportDb_run; [done|done|]. right. apply set_dir_get. }
  fold cols. split.
  - rewrite export_all_again by done. unfold set_dir at 1. simpl.
    rewrite log_all_fs. rewrite alist_set_same; [done|]. apply set_dir_get.
  - rewrite set_dir_clusters, log_all_clusters. unfold w1.
    by rewrite set_dir_clusters, log_all_clusters.
Qed.

(** X9. If the codec writes every document of the database on one line
    (no line terminator inside its text), each record file an export
    leaves reads back, line by line, as the texts of the documents of
    its collection in cursor order: as many lines as documents, none for
    an empty collection. *)
Theorem exported_record_lines (this : MongoClient) (h : NativeClient)
    (dbName outDir : string) (cb : bool) (w : World) (s : MockState)
    (entries : list (string * string)) :
  client this = Some h →
  alist_get (uri h) (clusters w) = Some s →
  alist_get outDir (fs w) = None ∧ entries = [] ∨ alist_get outDir (fs w) = Some (Dir entries) →
  (∀ col doc, col ∈ mock_listCollections dbName s → doc ∈ mock_find dbName col s →
              no_line_break (EJSON_stringify doc) = true) →
  ∃ r w',
    exportDb this dbName outDir cb w = (Ok r, w') ∧
    ∀ col, col ∈ mock_listCollections dbName s →
      ∃ text,
        read_entry outDir (col +:+ ".jsonl") w' = Some text ∧
        readline text = map EJSON_stringify (mock_find dbName col s) ∧
        length (readline text) = length (mock_find dbName col s).
Proof.
  intros Hc Hs Hdir Hline.
  eexists _, _. split; [by eapply exportDb_run|].
  intros col Hcol. eexists. split.
  { unfold read_entry, lookup_entry. rewrite set_dir_get. by apply export_all_record. }
  assert (Hread : readline (record_text (map EJSON_stringify (mock_find dbName col s)))
                  = map EJSON_stringify (mock_find dbName col s)).
  { apply readline_record_text, Forall_fmap, Forall_forall. intros doc Hdoc. by eapply Hline. }
  split; [exact Hread|]. by rewrite Hread, length_map.
Qed.

End ExportedFiles.

(** ** [importDb]: blank lines and bad sidecars *)


Section ImportEdges.
Context {codec : Codec}.

(** X10. Lines that are empty or hold only white space do not count:
    the line loop of [importDb] does to the cluster, returns and throws
    exactly what it does on the same lines with those removed. *)
Theorem importDb_skips_blank_lines (h : NativeClient) (dbName colName : string)
    (lines : list string) (st : list Document * nat) (i j : nat) (w : World) :
  for_loop (fun _ => importDb_line h dbName colName) i lines st w
  = for_loop (fun _ => importDb_line h dbName colName) j
      (List.filter (fun line => negb (bool_decide (trim line = EmptyString))) lines) st w.
Proof.
  revert st i j w. induction lines as [|line lines IH]; intros st i j w; simpl; [done|].
  destruct (decide (trim line = EmptyString)) as [Hblank|Hline].
  - rewrite bool_decide_true by done. simpl.
    unfold importDb_line at 1. rewrite decide_True by done.
    erewrite bind_ok; [|reflexivity]. apply IH.
  - rewrite bool_decide_false by done. simpl.
    apply bind_ext_run. intros st' w'. apply IH.
Qed.




Lemma import_effect_find_db dbName dbName' col col' docs raw s :
  dbName' ≠ dbName →
  mock_find dbName' col' (import_effect dbName col docs raw s) = mock_find dbName' col' s.
Proof.
  intros Hne. unfold import_effect.
  rewrite mock_find_create_if_any. apply mock_find_insert_batches_other. congruence.
Qed.

Lemma import_all_find_db dbName dbName' files docs_of raw_of col s :
  dbName' ≠ dbName →
  mock_find dbName' col (import_all dbName files docs_of raw_of s) = mock_find dbName' col s.
Proof.
  intros Hne. unfold import_all. revert s.
  induction files as [|file files IH]; intros s; simpl; [done|].
  by rewrite IH, import_effect_find_db.
Qed.

(** X15. [importDb] only appends: after an import of record files that
    parse, every collection named by a record file holds the documents
    it held followed by the documents of the file in line order, and no
    other collection of the target database, and no other database,
    has changed. *)
Theorem importDb_appends (this : MongoClient) (h : NativeClient)
    (dbName inDir : string) (cb : bool) (w : World) (s : MockState)
    (entries : list (string * string)) (docs_of raw_of : string → list Document) :
  client this = Some h →
  alist_get (uri h) (clusters w) = Some s →
  alist_get inDir (fs w) = Some (Dir entries) →
  Forall (readable entries docs_of raw_of) (record_files entries) →
  NoDup (map replace_jsonl (record_files entries)) →
  ∃ r w' s',
    importDb this dbName inDir cb w = (Ok r, w') ∧
    alist_get (uri h) (clusters w') = Some s' ∧
    (∀ file, file ∈ record_files entries →
        mock_find dbName (replace_jsonl file) s'
        = mock_find dbName (replace_jsonl file) s ++ docs_of file) ∧
    (∀ col, col ∉ map replace_jsonl (record_files entries) →
        mock_find dbName col s' = mock_find dbName col s) ∧
    (∀ other col, other ≠ dbName → mock_find other col s' = mock_find other col s).
Proof.
  intros Hc Hs Hdir Hall Hnd.
  eexists _, _, _. split; [by eapply importDb_run|].
  split; [apply put_cluster_get|]. split.
  { intros file Hin. by apply import_all_at. }
  split.
  { intros col Hcol. by apply import_all_other. }
  intros other col Hne. by apply import_all_find_db.
Qed.

End ImportEdges.

(** ** Transfers of nothing *)

Section EmptyTransfers.
Context {codec : Codec}.

(** X13. A transfer that finds nothing to move returns zero counts,
    makes no progress call and writes nothing to any cluster.  For the
    three transfers that read a database without collections this needs
    the cluster to answer ([exportDb] still leaves its output directory,
    created if it was missing); [importDb] on a directory without record
    files does not even contact the cluster. *)
Theorem empty_transfers (this target : MongoClient) (hs ht : NativeClient)
    (w : World) (ss : MockState) :
  client this = Some hs →
  client target = Some ht →
  (∀ dbName inDir cb entries,
      alist_get inDir (fs w) = Some (Dir entries) →
      record_files entries = [] →
      importDb this dbName inDir cb w = (Ok (mkImportResult 0 0), w)) ∧
  (alist_get (uri hs) (clusters w) = Some ss →
   ∀ sourceDb, mock_listCollections sourceDb ss = [] →
     (∀ targetDb cb, cloneDb this sourceDb targetDb cb w = (Ok tt, w)) ∧
     (∀ targetDb cb,
         cloneDbToClient this sourceDb target targetDb cb w = (Ok (mkImportResult 0 0), w)) ∧
     (∀ outDir cb entries,
         alist_get outDir (fs w) = None ∧ entries = [] ∨
         alist_get outDir (fs w) = Some (Dir entries) →
         exportDb this sourceDb outDir cb w
         = (Ok (mkExportResult 0 0 outDir), set_dir outDir entries w))).
Proof.
  intros Hc Ht. split.
  - intros dbName inDir cb entries Hdir Hnone. unfold importDb.
    rewrite (existsSync_dir _ _ entries) by done. simpl.
    erewrite bind_ok; [|by apply db_connected].
    erewrite bind_ok; [|unfold readdirSync; by rewrite Hdir].
    fold (record_files entries). by rewrite Hnone.
  - intros Hss sourceDb Hnone. repeat split.
    + intros targetDb cb. unfold cloneDb.
      erewrite bind_ok; [|by apply db_connected].
      erewrite bind_ok; [|by apply db_connected].
      erewrite bind_ok; [|by apply read_cluster_ok].
      by rewrite Hnone.
    + intros targetDb cb. unfold cloneDbToClient.
      erewrite bind_ok; [|by apply db_connected].
      erewrite bind_ok; [|by apply db_connected].
      erewrite bind_ok; [|by apply read_cluster_ok].
      by rewrite Hnone.
    + intros outDir cb entries Hdir.
      erewrite exportDb_run; [|done..]. by rewrite Hnone.
Qed.

End EmptyTransfers.

(** ** Live-to-live transfers append *)

Lemma clone_effect_find_at sourceDb targetDb col ss st :
  mock_find targetDb col (clone_effect sourceDb targetDb col ss st)
  = mock_find targetDb col st ++ mock_find sourceDb col ss.
Proof.
  unfold clone_effect.
  by rewrite mock_find_create_if_any, insert_batches_find, flushes_concat.
Qed.

Lemma clone_effect_find_other sourceDb targetDb col dbName col' ss st :
  (dbName, col') ≠ (targetDb, col) →
  mock_find dbName col' (clone_effect sourceDb targetDb col ss st) = mock_find dbName col' st.
Proof.
  intros Hne. unfold clone_effect.
  rewrite mock_find_create_if_any. by apply mock_find_insert_batches_other.
Qed.

Lemma clone_all_find same sourceDb targetDb cols ss st :
  NoDup cols →
  (same = true → ss = st ∧ sourceDb ≠ targetDb) →
  (∀ col, col ∈ cols →
      mock_find targetDb col (clone_all same sourceDb targetDb cols ss st)
      = mock_find targetDb col st ++ mock_find sourceDb col ss) ∧
  (∀ col, col ∉ cols →
      mock_find targetDb col (clone_all same sourceDb targetDb cols ss st)
      = mock_find targetDb col st) ∧
  (∀ dbName col, dbName ≠ targetDb →
      mock_find dbName col (clone_all same sourceDb targetDb cols ss st)
      = mock_find dbName col st).
Proof.
  revert ss st. induction cols as [|c cols IH]; intros ss st Hnd Hsame.
  - simpl. repeat split; try done. intros col Hcol. by apply elem_of_nil in Hcol.
  - apply NoDup_cons in Hnd as [Hc Hnd]. simpl.
    set (st1 := clone_effect sourceDb targetDb c ss st).
    set (ss1 := if same then st1 else ss).
    assert (Hsame1 : same = true → ss1 = st1 ∧ sourceDb ≠ targetDb).
    { intros ->. split; [done|]. by apply Hsame. }
    assert (Hsrc : ∀ col, mock_find sourceDb col ss1 = mock_find sourceDb col ss).
    { intros col. unfold ss1. destruct same; [|done].
      destruct (Hsame eq_refl) as [-> Hne]. unfold st1.
      apply clone_effect_find_other. congruence. }
    destruct (IH ss1 st1 Hnd Hsame1) as (Hat & Hother & Hdb).
    split; [|split].
    + intros col [->|Hcol]%elem_of_cons.
      * rewrite Hother by done. apply clone_effect_find_at.
      * rewrite Hat by done. rewrite Hsrc. f_equal.
        apply clone_effect_find_other. intros [= ->]. done.
    + intros col [Hne Hcol]%not_elem_of_cons.
      rewrite Hother by done. apply clone_effect_find_other. congruence.
    + intros dbName col Hne. rewrite Hdb by done.
      apply clone_effect_find_other. congruence.
Qed.

(** X16. The live-to-live transfers only append.  After [cloneDb] into a
    different database of the same cluster, and after [cloneDbToClient]
    into another cluster, every collection of the source has its
    documents, in cursor order, after whatever the collection of that
    name held in the target; no other collection of the target database
    and no other database of the target cluster has changed, and the
    source holds what it held. *)
Theorem clones_append (this target : MongoClient) (hs ht : NativeClient)
    (sourceDb targetDb : string) (cb : bool) (w : World) (ss st : MockState) :
  client this = Some hs →
  client target = Some ht →
  alist_get (uri hs) (clusters w) = Some ss →
  alist_get (uri ht) (clusters w) = Some st →
  NoDup (mock_listCollections sourceDb ss) →
  (sourceDb ≠ targetDb →
   ∃ w' s',
     cloneDb this sourceDb targetDb cb w = (Ok tt, w') ∧
     alist_get (uri hs) (clusters w') = Some s' ∧
     (∀ col, col ∈ mock_listCollections sourceDb ss →
         mock_find targetDb col s' = mock_find targetDb col ss ++ mock_find sourceDb col ss) ∧
     (∀ col, col ∉ mock_listCollections sourceDb ss →
         mock_find targetDb col s' = mock_find targetDb col ss) ∧
     (∀ dbName col, dbName ≠ targetDb → mock_find dbName col s' = mock_find dbName col ss)) ∧
  (uri ht ≠ uri hs →
   ∃ r w' st',
     cloneDbToClient this sourceDb target targetDb cb w = (Ok r, w') ∧
     alist_get (uri ht) (clusters w') = Some st' ∧
     alist_get (uri hs) (clusters w') = Some ss ∧
     (∀ col, col ∈ mock_listCollections sourceDb ss →
         mock_find targetDb col st' = mock_find targetDb col st ++ mock_find sourceDb col ss) ∧
     (∀ col, col ∉ mock_listCollections sourceDb ss →
         mock_find targetDb col st' = mock_find targetDb col st) ∧
     (∀ dbName col, dbName ≠ targetDb → mock_find dbName col st' = mock_find dbName col st)).
Proof.
  intros Hc Ht Hss Hst Hnd. split.
  - intros Hne. unfold cloneDb.
    erewrite bind_ok; [|by apply db_connected].
    erewrite bind_ok; [|by apply db_connected].
    erewrite bind_ok; [|by apply read_cluster_ok].
    erewrite cloneDb_loop_exact; [|done].
    eexists _, _. split; [reflexivity|]. split; [apply put_cluster_get|].
    by apply clone_all_find.
  - intros Hne. unfold cloneDbToClient.
    erewrite bind_ok; [|by apply db_connected].
    erewrite bind_ok; [|by apply db_connected].
    erewrite bind_ok; [|by apply read_cluster_ok].
    destruct (cloneDbToClient_loop_exact hs ht sourceDb targetDb cb
                (length (mock_listCollections sourceDb ss))
                (mock_listCollections sourceDb ss) 0 0 w ss st Hss Hst) as [n' Hrun].
    erewrite bind_ok; [|exact Hrun].
    eexists _, _, _. split; [reflexivity|]. split; [apply put_cluster_get|].
    split.
    { rewrite put_cluster_get_ne by done. by rewrite log_all_clusters. }
    apply clone_all_find; [done|]. rewrite bool_decide_false by done. done.
Qed.

(** ** Export, then import: the documents themselves *)

Section RoundTripDocuments.
Context {codec : Codec}.

Lemma parse_lines_faithful (docs : list Document) :
  Forall faithful_line docs →
  parse_lines (map EJSON_stringify docs) = Some docs.
Proof.
  induction 1 as [|doc docs (Hbreak & Hblank & Hparse) _ IH]; simpl; [done|].
  rewrite decide_False by done. by rewrite Hparse, IH.
Qed.

(** X14. Export a database to a directory that is new (or empty), then
    import that directory into a database with no collections: if the
    codec writes every document on one non-blank line that parses back
    to the same document, and every sidecar text parses, both calls
    succeed and every collection of the target holds exactly the
    documents of the collection of that name in the source, in the same
    order. *)
Theorem export_import_documents (exporter importer : MongoClient) (he hi : NativeClient)
    (sourceDb targetDb dir : string) (cb1 cb2 : bool) (w : World) (ss st : MockState) :
  client exporter = Some he →
  client importer = Some hi →
  alist_get (uri he) (clusters w) = Some ss →
  alist_get (uri hi) (clusters w) = Some st →
  alist_get dir (fs w) = None ∨ alist_get dir (fs w) = Some (Dir []) →
  NoDup (mock_listCollections sourceDb ss) →
  mock_collections targetDb st = [] →
  (∀ col doc, col ∈ mock_listCollections sourceDb ss →
              doc ∈ mock_find sourceDb col ss → faithful_line doc) →
  (∀ col, col ∈ mock_listCollections sourceDb ss →
          is_Some (JSON_parse
                     (JSON_stringify
                        (List.filter not_id_index (mock_indexes sourceDb col ss))))) →
  ∃ r1 w1 r2 w2 st',
    exportDb exporter sourceDb dir cb1 w = (Ok r1, w1) ∧
    importDb importer targetDb dir cb2 w1 = (Ok r2, w2) ∧
    alist_get (uri hi) (clusters w2) = Some st' ∧
    ∀ col, mock_find targetDb col st' = mock_find sourceDb col ss.
Proof.
  intros Hce Hci Hss Hst Hdir Hnd Hempty Hlines Hside.
  set (cols := mock_listCollections sourceDb ss) in *.
  set (docs_of := fun file => mock_find sourceDb (replace_jsonl file) ss).
  set (raw_of := fun file =>
         default []
           (JSON_parse
              (JSON_stringify
                 (List.filter not_id_index (mock_indexes sourceDb (replace_jsonl file) ss))))).
  set (entries := export_all sourceDb ss cols []).
  assert (Hexp : exportDb exporter sourceDb dir cb1 w
                 = (Ok (mkExportResult (length cols) (count_docs sourceDb ss cols) dir),
                    set_dir dir entries (log_all cb1 (length cols) 0 cols w))).
  { eapply exportDb_run; [done..|]. destruct Hdir; [by left|by right]. }
  set (w1 := set_dir dir entries (log_all cb1 (length cols) 0 cols w)) in *.
  assert (Hfiles : record_files entries = map (fun col => col +:+ ".jsonl") cols)
    by (by apply export_all_record_files).
  assert (Hst1 : alist_get (uri hi) (clusters w1) = Some st)
    by (unfold w1; by rewrite set_dir_clusters, log_all_clusters).
  assert (Hread : Forall (readable entries docs_of raw_of) (record_files entries)).
  { rewrite Hfiles. apply Forall_forall. intros file (col & -> & Hcol)%list_elem_of_fmap.
    exists (record_text (map EJSON_stringify (mock_find sourceDb col ss))).
    unfold docs_of, raw_of. rewrite replace_jsonl_app.
    assert (Hok : Forall faithful_line (mock_find sourceDb col ss)).
    { apply Forall_forall. intros doc Hdoc. by eapply Hlines. }
    split; [by apply export_all_record|]. split.
    - rewrite readline_record_text; [by apply parse_lines_faithful|].
      apply Forall_fmap. eapply Forall_impl; [exact Hok|]. by intros doc (? & _).
    - unfold entries. rewrite export_all_sidecar by done. simpl.
      destruct (Hside col Hcol) as [raw Hraw]. by rewrite Hraw. }
  pose proof (importDb_run importer hi targetDb dir cb2 w1 st entries docs_of raw_of
                Hci Hst1 (set_dir_get _ _ _) Hread) as Himp.
  rewrite Hfiles in Himp.
  eexists _, _, _, _, _. split; [exact Hexp|]. split; [exact Himp|].
  split; [apply put_cluster_get|].
  assert (Hnd' : NoDup (map replace_jsonl (map (fun col => col +:+ ".jsonl") cols)))
    by (by rewrite map_replace_jsonl).
  assert (Hnone : ∀ col, mock_find targetDb col st = []).
  { intros col. unfold mock_find. by rewrite Hempty. }
  intros col. destruct (decide (col ∈ cols)) as [Hcol|Hcol].
  - destruct (import_all_at targetDb _ docs_of raw_of (col +:+ ".jsonl") st Hnd')
      as [Hfind _].
    { apply list_elem_of_fmap. by exists col. }
    rewrite replace_jsonl_app in Hfind. rewrite Hfind, Hnone. simpl.
    unfold docs_of. by rewrite replace_jsonl_app.
  - destruct (import_all_other targetDb (map (fun col => col +:+ ".jsonl") cols)
                docs_of raw_of col st) as [-> _].
    { by rewrite map_replace_jsonl. }
    rewrite Hnone. unfold mock_find.
    assert (alist_get col (mock_collections sourceDb ss) = None) as ->; [|done].
    by apply alist_get_None.
Qed.

End RoundTripDocuments.

(** ** The interactive operations *)

Lemma listDatabases_run this h s w :
  client this = Some h →
  alist_get (uri h) (clusters w) = Some s →
  listDatabases this w
  = (Ok (map (fun d : string * N => mkDbInfo (fst d) (snd d))
           (List.filter (fun d => negb (bool_decide (fst d ∈ SYSTEM_DBS)))
              (mock_listDatabases s))), w).
Proof.
  intros Hc Hs. unfold listDatabases.
  erewrite bind_ok; [|by apply db_connected].
  erewrite bind_ok; [|by apply read_cluster_ok]. done.
Qed.

Lemma listed_spec s targetDb :
  listed (map (fun d : string * N => mkDbInfo (fst d) (snd d))
            (List.filter (fun d => negb (bool_decide (fst d ∈ SYSTEM_DBS)))
               (mock_listDatabases s))) targetDb = true
  ↔ targetDb ∈ alist_keys (dbs s) ∧ targetDb ∉ SYSTEM_DBS.
Proof.
  unfold listed, mock_listDatabases. rewrite existsb_exists. split.
  - intros (d & Hin & Heq). apply bool_decide_eq_true in Heq as <-.
    apply in_map_iff in Hin as ([name size] & <- & Hin). simpl.
    apply filter_In in Hin as [Hin Hsys]. simpl in Hsys.
    apply negb_true_iff, bool_decide_eq_false in Hsys.
    apply in_map_iff in Hin as (name' & [= <- <-] & Hin).
    split; [by apply list_elem_of_In|done].
  - intros [Hin Hsys]. exists (mkDbInfo targetDb 0%N). split; [|by apply bool_decide_eq_true].
    apply in_map_iff. exists (targetDb, 0%N). split; [done|].
    apply filter_In. split.
    + apply in_map_iff. exists targetDb. split; [done|]. by apply list_elem_of_In.
    + simpl. by apply negb_true_iff, bool_decide_eq_false.
Qed.

Lemma getDbStats_run this h dbName s w :
  client this = Some h →
  alist_get (uri h) (clusters w) = Some s →
  getDbStats this dbName w
  = (Ok (mkDbStats dbName
           (map (fun col => mkCollectionInfo col (length (mock_find dbName col s)))
              (mock_listCollections dbName s))
           (count_docs dbName s (mock_listCollections dbName s))), w).
Proof.
  intros Hc Hs. unfold getDbStats.
  erewrite bind_ok; [|by eapply listCollections_ok].
  unfold ret. do 3 f_equal.
  rewrite fold_left_add_counts, map_map. done.
Qed.

Lemma targetStats_of_run this h dbs targetDb s w :
  client this = Some h →
  alist_get (uri h) (clusters w) = Some s →
  ∃ stats, targetStats_of this dbs targetDb w = (Ok stats, w) ∧
           (is_Some stats ↔ listed dbs targetDb = true).
Proof.
  intros Hc Hs. unfold targetStats_of. destruct (listed dbs targetDb).
  - erewrite bind_ok; [|by eapply getDbStats_run].
    eexists. split; [reflexivity|]. split; [done|]. intros _. by eexists.
  - exists None. split; [done|]. split; [by intros [? ?]|done].
Qed.

Lemma clearing_run this h targetStats targetDb s w :
  client this = Some h →
  alist_get (uri h) (clusters w) = Some s →
  clearing this targetStats targetDb w
  = (Ok tt, put_cluster (uri h)
              (if bool_decide (is_Some targetStats) then mock_dropDatabase targetDb s else s) w).
Proof.
  intros Hc Hs. unfold clearing. destruct targetStats as [stats|].
  - rewrite bool_decide_true by eauto. unfold dropDb.
    erewrite bind_ok; [|by apply db_connected]. by apply write_cluster_ok.
  - rewrite bool_decide_false by (by intros [? ?]).
    unfold ret. by rewrite put_cluster_same.
Qed.

Lemma keeps_targetStats_of this listing targetDb :
  keeps (fun w => w) (targetStats_of this listing targetDb).
Proof.
  unfold targetStats_of. destruct (listed listing targetDb); [|apply keeps_ret].
  apply keeps_bind; [apply getDbStats_keeps|]. intros stats. apply keeps_ret.
Qed.

Section Operations.
Context {codec : Codec}.

(** X17. The operations ask first: when the user declines the
    confirmation, [cloneOperation] and [uploadOperation] leave the whole
    world as it was and [dropOperation] leaves every cluster as it was
    (a backup it was asked for has been written by then), whether the
    calls made before the question returned or threw. *)
Theorem declined_operations_write_nothing (client : MongoClient) (w : World) :
  (∀ sourceDb targetDb,
      snd (cloneOperation_same client sourceDb targetDb false w) = w) ∧
  (∀ localPath targetDb,
      snd (uploadOperation client localPath targetDb false w) = w) ∧
  (∀ dbName wantsBackup outDir,
      clusters (snd (dropOperation client dbName wantsBackup outDir false w)) = clusters w).
Proof.
  split; [|split].
  - intros sourceDb targetDb. revert w.
    change (keeps (fun w => w) (cloneOperation_same client sourceDb targetDb false)).
    unfold cloneOperation_same.
    apply keeps_bind; [apply listDatabases_keeps|]. intros dbs.
    apply keeps_bind; [apply getDbStats_keeps|]. intros sourceStats.
    apply keeps_bind; [apply keeps_targetStats_of|]. intros targetStats.
    apply keeps_ret.
  - intros localPath targetDb. unfold uploadOperation.
    destruct (negb (existsSync localPath w)); [done|]. revert w.
    apply (keeps_bind (fun w => w)); [apply listDatabases_keeps|]. intros dbs.
    apply keeps_bind; [apply keeps_targetStats_of|]. intros targetStats.
    apply keeps_ret.
  - intros dbName wantsBackup outDir. revert w.
    change (keeps clusters (dropOperation client dbName wantsBackup outDir false)).
    unfold dropOperation.
    apply keeps_bind.
    { intros w. by rewrite (listDatabases_keeps client w). }
    intros dbs. apply keeps_bind; [|intros _; apply keeps_ret].
    destruct wantsBackup; [|apply keeps_ret].
    apply keeps_bind; [apply exportDb_keeps_clusters|]. intros r. apply keeps_ret.
Qed.

Lemma mock_find_dropDatabase dbName col s : mock_find dbName col (mock_dropDatabase dbName s) = [].
Proof. unfold mock_find, mock_collections. simpl. by rewrite alist_get_set_eq. Qed.

Lemma mock_collections_dropDatabase_ne dbName other s :
  other ≠ dbName →
  mock_collections other (mock_dropDatabase dbName s) = mock_collections other s.
Proof. intros Hne. unfold mock_collections. simpl. by rewrite alist_get_set_ne. Qed.

Lemma mock_find_unlisted dbName col s :
  col ∉ mock_listCollections dbName s → mock_find dbName col s = [].
Proof.
  intros Hnot. unfold mock_find.
  assert (alist_get col (mock_collections dbName s) = None) as ->; [|done].
  by apply alist_get_None.
Qed.

(** What is in [targetDb] when the cloning or importing task starts:
    nothing, if the database is not one of the three the listing hides. *)
Lemma cleared_target s targetDb (stats : option DbStats) listing :
  targetDb ∉ SYSTEM_DBS →
  listing = map (fun d : string * N => mkDbInfo (fst d) (snd d))
              (List.filter (fun d => negb (bool_decide (fst d ∈ SYSTEM_DBS)))
                 (mock_listDatabases s)) →
  (is_Some stats ↔ listed listing targetDb = true) →
  ∀ col, mock_find targetDb col
           (if bool_decide (is_Some stats) then mock_dropDatabase targetDb s else s) = [].
Proof.
  intros Hsys -> Hstats col. destruct (decide (is_Some stats)) as [Hsome|Hnone].
  - rewrite bool_decide_true by done. apply mock_find_dropDatabase.
  - rewrite bool_decide_false by done.
    assert (Hnot : targetDb ∉ alist_keys (dbs s)).
    { intros Hin. apply Hnone, Hstats, listed_spec. done. }
    unfold mock_find, mock_collections.
    apply alist_get_None in Hnot. by rewrite Hnot.
Qed.

Lemma cloneDb_run this h sourceDb targetDb cb w s :
  client this = Some h →
  alist_get (uri h) (clusters w) = Some s →
  cloneDb this sourceDb targetDb cb w
  = (Ok tt,
     put_cluster (uri h)
       (clone_all true sourceDb targetDb (mock_listCollections sourceDb s) s s)
       (log_all cb (length (mock_listCollections sourceDb s)) 0
          (mock_listCollections sourceDb s) w)).
Proof.
  intros Hc Hs. unfold cloneDb.
  erewrite bind_ok; [|by apply db_connected].
  erewrite bind_ok; [|by apply db_connected].
  erewrite bind_ok; [|by apply read_cluster_ok].
  by apply cloneDb_loop_exact.
Qed.

(** X18. [cloneOperation], same cluster, confirmed: when source and
    target differ and the target is not [admin], [local] or [config],
    the target database ends as a copy of the source, whatever it held
    before: every collection holds exactly the documents of the source
    collection of that name, in cursor order.  The other databases, the
    source among them, are unchanged, and the summary shows the number
    of collections and of documents of the source. *)
Theorem cloneOperation_replaces_target (this : MongoClient) (h : NativeClient)
    (sourceDb targetDb : string) (w : World) (s : MockState) :
  client this = Some h →
  alist_get (uri h) (clusters w) = Some s →
  NoDup (mock_listCollections sourceDb s) →
  sourceDb ≠ targetDb →
  targetDb ∉ SYSTEM_DBS →
  ∃ w' s',
    cloneOperation_same this sourceDb targetDb true w
    = (Ok (Some (length (mock_listCollections sourceDb s),
                 count_docs sourceDb s (mock_listCollections sourceDb s))), w') ∧
    alist_get (uri h) (clusters w') = Some s' ∧
    (∀ col, mock_find targetDb col s' = mock_find sourceDb col s) ∧
    (∀ dbName col, dbName ≠ targetDb → mock_find dbName col s' = mock_find dbName col s).
Proof.
  intros Hc Hs Hnd Hne Hsys. unfold cloneOperation_same.
  erewrite bind_ok; [|by eapply listDatabases_run].
  erewrite bind_ok; [|by eapply getDbStats_run].
  edestruct (targetStats_of_run this h) as (stats & Hstats & Hlisted); [done..|].
  erewrite bind_ok; [|exact Hstats]. simpl.
  erewrite bind_ok; [|by eapply clearing_run].
  set (s1 := if bool_decide (is_Some stats) then mock_dropDatabase targetDb s else s).
  assert (Hempty : ∀ col, mock_find targetDb col s1 = []).
  { by eapply cleared_target. }
  assert (Hkeep : ∀ dbName, dbName ≠ targetDb →
                            mock_collections dbName s1 = mock_collections dbName s).
  { intros dbName Hdb. unfold s1. destruct (bool_decide (is_Some stats)); [|done].
    by apply mock_collections_dropDatabase_ne. }
  assert (Hcols : mock_listCollections sourceDb s1 = mock_listCollections sourceDb s).
  { unfold mock_listCollections. by rewrite Hkeep. }
  erewrite bind_ok; [|eapply cloneDb_run; [done|apply put_cluster_get]].
  rewrite length_map.
  eexists _, _. split; [reflexivity|]. split; [apply put_cluster_get|].
  rewrite Hcols.
  destruct (clone_all_find true sourceDb targetDb (mock_listCollections sourceDb s) s1 s1)
    as (Hat & Hother & Hdb); [done|done|].
  assert (Hsrc : ∀ col, mock_find sourceDb col s1 = mock_find sourceDb col s).
  { intros col. unfold mock_find. by rewrite Hkeep. }
  split.
  - intros col. destruct (decide (col ∈ mock_listCollections sourceDb s)) as [Hcol|Hcol].
    + by rewrite Hat, Hempty, Hsrc.
    + rewrite Hother, Hempty by done. symmetry. by apply mock_find_unlisted.
  - intros dbName col Hdbne. rewrite Hdb by done. unfold mock_find. by rewrite Hkeep.
Qed.

(** X19. [cloneOperation] does not refuse a target that is the source:
    when the name typed for the new target database is the name of the
    source (a listed database), the confirmed operation clears that
    database and then finds nothing to clone; it ends with no document
    in it, after a summary that shows the counts it had. *)
Theorem cloneOperation_onto_itself (this : MongoClient) (h : NativeClient)
    (sourceDb : string) (w : World) (s : MockState) :
  client this = Some h →
  alist_get (uri h) (clusters w) = Some s →
  sourceDb ∈ alist_keys (dbs s) →
  sourceDb ∉ SYSTEM_DBS →
  ∃ w' s',
    cloneOperation_same this sourceDb sourceDb true w
    = (Ok (Some (length (mock_listCollections sourceDb s),
                 count_docs sourceDb s (mock_listCollections sourceDb s))), w') ∧
    alist_get (uri h) (clusters w') = Some s' ∧
    mock_listCollections sourceDb s' = [] ∧
    (∀ col, mock_find sourceDb col s' = []).
Proof.
  intros Hc Hs Hin Hsys. unfold cloneOperation_same.
  erewrite bind_ok; [|by eapply listDatabases_run].
  erewrite bind_ok; [|by eapply getDbStats_run].
  edestruct (targetStats_of_run this h) as (stats & Hstats & Hlisted); [done..|].
  erewrite bind_ok; [|exact Hstats]. simpl.
  erewrite bind_ok; [|by eapply clearing_run].
  rewrite bool_decide_true; last first.
  { apply Hlisted, listed_spec. done. }
  set (s1 := mock_dropDatabase sourceDb s).
  assert (Hcols : mock_listCollections sourceDb s1 = []).
  { unfold mock_listCollections, mock_collections, s1. simpl. by rewrite alist_get_set_eq. }
  erewrite bind_ok; [|eapply cloneDb_run; [done|apply put_cluster_get]].
  rewrite length_map, Hcols. simpl.
  eexists _, _. split; [reflexivity|]. split; [apply put_cluster_get|].
  split; [done|]. intros col. apply mock_find_dropDatabase.
Qed.

(** X20. [uploadOperation] on a path that does not exist ends quietly:
    it returns without a result and without touching anything (where
    [importDb] itself would throw).  On a directory whose record files
    parse, confirmed, with a target that is not [admin], [local] or
    [config], the target database ends holding exactly the dump,
    whatever it held before: the collection of each record file has the
    documents of the file in line order, and no other collection of the
    target holds a document; other databases are unchanged. *)
Theorem uploadOperation_replaces_target (this : MongoClient) (h : NativeClient)
    (localPath targetDb : string) (w : World) (s : MockState) :
  (∀ confirmed, existsSync localPath w = false →
                uploadOperation this localPath targetDb confirmed w = (Ok None, w)) ∧
  (∀ entries docs_of raw_of,
      client this = Some h →
      alist_get (uri h) (clusters w) = Some s →
      alist_get localPath (fs w) = Some (Dir entries) →
      Forall (readable entries docs_of raw_of) (record_files entries) →
      NoDup (map replace_jsonl (record_files entries)) →
      targetDb ∉ SYSTEM_DBS →
      ∃ w' s',
        uploadOperation this localPath targetDb true w
        = (Ok (Some (mkImportResult (length (record_files entries))
                       (count_lines docs_of (record_files entries)))), w') ∧
        alist_get (uri h) (clusters w') = Some s' ∧
        (∀ file, file ∈ record_files entries →
            mock_find targetDb (replace_jsonl file) s' = docs_of file) ∧
        (∀ col, col ∉ map replace_jsonl (record_files entries) →
            mock_find targetDb col s' = []) ∧
        (∀ dbName col, dbName ≠ targetDb →
            mock_find dbName col s' = mock_find dbName col s)).
Proof.
  split.
  - intros confirmed Hx. unfold uploadOperation. by rewrite Hx.
  - intros entries docs_of raw_of Hc Hs Hdir Hall Hnd Hsys. unfold uploadOperation.
    rewrite (existsSync_dir _ _ entries) by done. simpl.
    erewrite bind_ok; [|by eapply listDatabases_run].
    edestruct (targetStats_of_run this h) as (stats & Hstats & Hlisted); [done..|].
    erewrite bind_ok; [|exact Hstats]. simpl.
    erewrite bind_ok; [|by eapply clearing_run].
    set (s1 := if bool_decide (is_Some stats) then mock_dropDatabase targetDb s else s).
    assert (Hempty : ∀ col, mock_find targetDb col s1 = []).
    { by eapply cleared_target. }
    assert (Hkeep : ∀ dbName, dbName ≠ targetDb →
                              mock_collections dbName s1 = mock_collections dbName s).
    { intros dbName Hdb. unfold s1. destruct (bool_decide (is_Some stats)); [|done].
      by apply mock_collections_dropDatabase_ne. }
    erewrite bind_ok; last first.
    { eapply importDb_run; [done|apply put_cluster_get|by rewrite put_cluster_fs|done]. }
    eexists _, _. split; [reflexivity|]. split; [apply put_cluster_get|]. split.
    { intros file Hin. destruct (import_all_at targetDb _ docs_of raw_of file s1 Hnd Hin)
        as [-> _]. by rewrite Hempty. }
    split.
    { intros col Hcol.
      destruct (import_all_other targetDb _ docs_of raw_of col s1 Hcol) as [-> _].
      apply Hempty. }
    intros dbName col Hne. rewrite import_all_find_db by done.
    unfold mock_find. by rewrite Hkeep.
Qed.

(** X21. [dropOperation] with a backup.  If the backup fails, the
    operation fails with it and nothing is dropped, whatever the user
    would have answered.  If the client is connected, its cluster
    answers and the backup path is free or a directory, the confirmed
    operation ends with the database empty and with the backup holding,
    for every collection the database had, the record file of its
    documents and the sidecar of its indexes. *)
Theorem dropOperation_backup (this : MongoClient) (h : NativeClient)
    (dbName outDir : string) (w : World) (s : MockState) :
  (∀ confirmed e,
      fst (exportDb this dbName outDir true w) = Throw e →
      ∃ e', fst (dropOperation this dbName true outDir confirmed w) = Throw e' ∧
            clusters (snd (dropOperation this dbName true outDir confirmed w)) = clusters w) ∧
  (∀ entries,
      client this = Some h →
      alist_get (uri h) (clusters w) = Some s →
      alist_get outDir (fs w) = None ∧ entries = [] ∨
      alist_get outDir (fs w) = Some (Dir entries) →
      ∃ w' s',
        dropOperation this dbName true outDir true w = (Ok true, w') ∧
        alist_get (uri h) (clusters w') = Some s' ∧
        (∀ col, mock_find dbName col s' = []) ∧
        (∀ col, col ∈ mock_listCollections dbName s →
            read_entry outDir (col +:+ ".jsonl") w'
            = Some (record_text (map EJSON_stringify (mock_find dbName col s))) ∧
            read_entry outDir (col +:+ ".indexes.json") w'
            = Some (JSON_stringify (List.filter not_id_index (mock_indexes dbName col s))))).
Proof.
  split.
  - intros confirmed e Hfail.
    pose proof (listDatabases_keeps this w) as Hsame. simpl in Hsame.
    destruct (listDatabases this w) as [[listing|e0] w0] eqn:Hlist;
      simpl in Hsame; subst w0.
    + pose proof (exportDb_keeps_clusters this dbName outDir true w) as Hkeep.
      destruct (exportDb this dbName outDir true w) as [[r|e1] w1] eqn:Hexp;
        simpl in Hfail; [done|].
      injection Hfail as ->. exists e. simpl in Hkeep.
      assert (Hrun : dropOperation this dbName true outDir confirmed w = (Throw e, w1)).
      { unfold dropOperation. erewrite bind_ok; [|exact Hlist].
        erewrite bind_throw; [reflexivity|].
        erewrite bind_throw; [reflexivity|exact Hexp]. }
      rewrite Hrun. by split.
    + exists e0.
      assert (Hrun : dropOperation this dbName true outDir confirmed w = (Throw e0, w)).
      { unfold dropOperation. erewrite bind_throw; [reflexivity|exact Hlist]. }
      rewrite Hrun. by split.
  - intros entries Hc Hs Hdir. unfold dropOperation.
    erewrite bind_ok; [|by eapply listDatabases_run].
    erewrite bind_ok; last first.
    { erewrite bind_ok; [reflexivity|]. by eapply exportDb_run. }
    simpl.
    set (cols := mock_listCollections dbName s).
    set (w1 := set_dir outDir (export_all dbName s cols entries)
                 (log_all true (length cols) 0 cols w)).
    assert (Hs1 : alist_get (uri h) (clusters w1) = Some s).
    { unfold w1. by rewrite set_dir_clusters, log_all_clusters. }
    erewrite bind_ok; last first.
    { unfold dropDb. erewrite bind_ok; [|by apply db_connected]. by apply write_cluster_ok. }
    eexists _, _. split; [reflexivity|]. split; [apply put_cluster_get|]. split.
    { intros col. apply mock_find_dropDatabase. }
    intros col Hcol. unfold read_entry, lookup_entry.
    rewrite put_cluster_fs. unfold w1. rewrite set_dir_get.
    split; [by apply export_all_record|by apply export_all_sidecar].
Qed.

End Operations.

(** ** The cluster registry *)

Section Registry.
Context {codec : Codec}.
Variable CONFIG_DIR : string.

Lemma ensureConfigDir_run w :
  ensureConfigDir CONFIG_DIR w = (Ok tt, ensured CONFIG_DIR w).
Proof.
  unfold ensureConfigDir, ensured, existsSync, mkdirSync.
  destruct (alist_get CONFIG_DIR (fs w)) as [node|] eqn:Hdir.
  - rewrite bool_decide_true by eauto. done.
  - rewrite bool_decide_false by (by intros [? ?]). done.
Qed.

Lemma ensured_lookup w name :
  lookup_entry (fs (ensured CONFIG_DIR w)) CONFIG_DIR name = lookup_entry (fs w) CONFIG_DIR name.
Proof.
  unfold ensured, existsSync, lookup_entry.
  destruct (alist_get CONFIG_DIR (fs w)) as [node|] eqn:Hdir.
  - rewrite bool_decide_true by eauto. by rewrite Hdir.
  - rewrite bool_decide_false by (by intros [? ?]). by rewrite set_dir_get.
Qed.

Lemma ensured_clusters w : clusters (ensured CONFIG_DIR w) = clusters w.
Proof. unfold ensured. by destruct (existsSync CONFIG_DIR w). Qed.

Lemma ensured_dir w entries :
  alist_get CONFIG_DIR (fs w) = None ∧ entries = [] ∨
  alist_get CONFIG_DIR (fs w) = Some (Dir entries) →
  ensured CONFIG_DIR w = set_dir CONFIG_DIR entries w.
Proof.
  unfold ensured, existsSync. intros [[Hnone ->]|Hdir].
  - rewrite Hnone. by rewrite bool_decide_false by (by intros [? ?]).
  - rewrite Hdir. rewrite bool_decide_true by eauto. by rewrite set_dir_same.
Qed.

Lemma ensured_present w name text :
  lookup_entry (fs w) CONFIG_DIR name = Some text → ensured CONFIG_DIR w = w.
Proof.
  unfold ensured, existsSync, lookup_entry.
  destruct (alist_get CONFIG_DIR (fs w)) as [node|]; [|done].
  intros _. by rewrite bool_decide_true by eauto.
Qed.

Lemma loadClusters_run w :
  loadClusters CONFIG_DIR w = (Ok (stored_clusters CONFIG_DIR w), ensured CONFIG_DIR w).
Proof.
  unfold loadClusters.
  erewrite bind_ok; [|apply ensureConfigDir_run].
  unfold existsSync_in at 1, bind at 1.
  unfold stored_clusters. rewrite ensured_lookup.
  destruct (lookup_entry (fs w) CONFIG_DIR "clusters.json") as [text|] eqn:Hfile.
  - rewrite bool_decide_true by eauto. simpl. unfold try_catch, bind, readFileSync.
    rewrite ensured_lookup, Hfile.
    by destruct (JSON_parse text).
  - rewrite bool_decide_false by (by intros [? ?]). done.
Qed.

Lemma saveClusters_run l w entries :
  alist_get CONFIG_DIR (fs w) = None ∧ entries = [] ∨
  alist_get CONFIG_DIR (fs w) = Some (Dir entries) →
  saveClusters CONFIG_DIR l w
  = (Ok tt, set_dir CONFIG_DIR (alist_set "clusters.json" (JSON_stringify l) entries) w).
Proof.
  intros Hdir. unfold saveClusters.
  erewrite bind_ok; [|apply ensureConfigDir_run].
  rewrite (ensured_dir w entries) by done.
  erewrite bind_ok; [|apply writeFileSync_run, set_dir_get].
  rewrite set_dir_set_dir. unfold chmodSync, lookup_entry.
  by rewrite set_dir_get, alist_get_set_eq.
Qed.

Lemma stored_saved l w entries :
  stored_clusters CONFIG_DIR
    (set_dir CONFIG_DIR (alist_set "clusters.json" (JSON_stringify l) entries) w)
  = default [] (JSON_parse (JSON_stringify l)).
Proof.
  unfold stored_clusters, lookup_entry. by rewrite set_dir_get, alist_get_set_eq.
Qed.

(** X22. [loadClusters] on a registry it can read.  When no
    configuration path exists it creates the directory and returns the
    empty list; when the directory is there without the file it returns
    the empty list and changes nothing; when the file is there and holds
    an array of objects it returns that array, in the order of the file,
    and changes nothing. *)
Theorem loadClusters_reads_file (w : World) :
  (alist_get CONFIG_DIR (fs w) = None →
   loadClusters CONFIG_DIR w = (Ok [], set_fs (alist_set CONFIG_DIR (Dir []) (fs w)) w)) ∧
  (∀ entries,
     alist_get CONFIG_DIR (fs w) = Some (Dir entries) →
     alist_get "clusters.json" entries = None →
     loadClusters CONFIG_DIR w = (Ok [], w)) ∧
  (∀ entries text parsed,
     alist_get CONFIG_DIR (fs w) = Some (Dir entries) →
     alist_get "clusters.json" entries = Some text →
     JSON_parse text = Some parsed →
     loadClusters CONFIG_DIR w = (Ok parsed, w)).
Proof.
  split; [|split].
  - intros Hnone. rewrite loadClusters_run. unfold stored_clusters, lookup_entry, ensured,
      existsSync. rewrite Hnone. by rewrite bool_decide_false by (by intros [? ?]).
  - intros entries Hdir Hfile. rewrite loadClusters_run.
    unfold stored_clusters, lookup_entry, ensured, existsSync. rewrite Hdir, Hfile.
    by rewrite bool_decide_true by eauto.
  - intros entries text parsed Hdir Hfile Hparse. rewrite loadClusters_run.
    unfold stored_clusters, lookup_entry, ensured, existsSync. rewrite Hdir, Hfile, Hparse.
    by rewrite bool_decide_true by eauto.
Qed.

(** X23. [addCluster] of a name no stored cluster has, when the
    configuration path is free or a directory, the registry file (if
    any) holds an array of objects and the codec reads back what it
    writes for the new list, succeeds, and [loadClusters] then returns
    the clusters stored before followed by the new one with its name and
    its URI; no cluster store changes. *)
Theorem addCluster_then_load (cluster : Cluster) (w : World)
    (entries : list (string * string)) :
  alist_get CONFIG_DIR (fs w) = None ∧ entries = [] ∨
  alist_get CONFIG_DIR (fs w) = Some (Dir entries) →
  registry_readable CONFIG_DIR w →
  existsb (name_is (cluster_name cluster)) (stored_clusters CONFIG_DIR w) = false →
  JSON_parse (JSON_stringify (stored_clusters CONFIG_DIR w ++ [cluster_object cluster]))
  = Some (stored_clusters CONFIG_DIR w ++ [cluster_object cluster]) →
  ∃ w1,
    addCluster CONFIG_DIR cluster w = (Ok tt, w1) ∧
    loadClusters CONFIG_DIR w1
    = (Ok (stored_clusters CONFIG_DIR w ++ [cluster_object cluster]), w1) ∧
    clusters w1 = clusters w.
Proof.
  intros Hdir _ Hfresh Hlaw. unfold addCluster.
  erewrite bind_ok; [|apply loadClusters_run]. rewrite Hfresh.
  rewrite (ensured_dir w entries) by done.
  erewrite saveClusters_run; [|right; apply set_dir_get].
  rewrite set_dir_set_dir.
  eexists. split; [reflexivity|]. split; [|done].
  rewrite loadClusters_run, stored_saved, Hlaw. simpl. f_equal.
  eapply ensured_present. unfold lookup_entry. rewrite set_dir_get. apply alist_get_set_eq.
Qed.

(** X24. [addCluster] of a name a stored cluster already has throws
    [Error("A cluster named '<name>' already exists.")] and changes
    nothing: the file keeps its text. *)
Theorem addCluster_duplicate (cluster : Cluster) (w : World) :
  existsb (name_is (cluster_name cluster)) (stored_clusters CONFIG_DIR w) = true →
  addCluster CONFIG_DIR cluster w
  = (Throw (Error ("A cluster named '" +:+ cluster_name cluster +:+ "' already exists.")), w).
Proof.
  intros Hdup. unfold addCluster.
  erewrite bind_ok; [|apply loadClusters_run]. rewrite Hdup. unfold throw. f_equal.
  unfold stored_clusters in Hdup.
  destruct (lookup_entry (fs w) CONFIG_DIR "clusters.json") as [text|] eqn:Hfile; [|done].
  by eapply ensured_present.
Qed.

Lemma filter_unnamed name (l : list Document) :
  existsb (name_is name) l = false → List.filter (fun c => negb (name_is name c)) l = l.
Proof.
  induction l as [|c l IH]; simpl; [done|].
  intros [-> Hl]%orb_false_iff. simpl. by rewrite IH.
Qed.

(** X25. After [removeCluster(name)] (configuration path free or a
    directory, the registry file, if any, holding an array of objects,
    the codec reading back what it writes for the new list) the stored
    clusters are those stored before without the ones named
    [name], in their order: none of them has that name, and when no
    stored cluster had it the list is the one stored before. *)
Theorem removeCluster_then_load (name : string) (w : World)
    (entries : list (string * string)) :
  alist_get CONFIG_DIR (fs w) = None ∧ entries = [] ∨
  alist_get CONFIG_DIR (fs w) = Some (Dir entries) →
  registry_readable CONFIG_DIR w →
  JSON_parse
    (JSON_stringify
       (List.filter (fun c => negb (name_is name c)) (stored_clusters CONFIG_DIR w)))
  = Some (List.filter (fun c => negb (name_is name c)) (stored_clusters CONFIG_DIR w)) →
  ∃ w1,
    removeCluster CONFIG_DIR name w = (Ok tt, w1) ∧
    stored_clusters CONFIG_DIR w1
    = List.filter (fun c => negb (name_is name c)) (stored_clusters CONFIG_DIR w) ∧
    Forall (fun c => name_is name c = false) (stored_clusters CONFIG_DIR w1) ∧
    (existsb (name_is name) (stored_clusters CONFIG_DIR w) = false →
     stored_clusters CONFIG_DIR w1 = stored_clusters CONFIG_DIR w) ∧
    clusters w1 = clusters w.
Proof.
  intros Hdir _ Hlaw. unfold removeCluster.
  erewrite bind_ok; [|apply loadClusters_run].
  rewrite (ensured_dir w entries) by done.
  erewrite saveClusters_run; [|right; apply set_dir_get].
  rewrite set_dir_set_dir.
  eexists. split; [reflexivity|].
  rewrite stored_saved, Hlaw. simpl. split; [done|]. split; [|split; [|done]].
  - apply Forall_forall. intros c Hc.
    apply list_elem_of_In, filter_In in Hc as [_ Hc]. simpl. by apply negb_true_iff in Hc.
  - apply filter_unnamed.
Qed.

Lemma name_is_renamed oldName newName c :
  name_is oldName c = true → name_is newName (renamed oldName newName c) = true.
Proof.
  intros Hold. unfold renamed. rewrite Hold. unfold name_is.
  rewrite alist_get_set_eq. by apply bool_decide_eq_true.
Qed.

Lemma renameCluster_run oldName newName w entries :
  alist_get CONFIG_DIR (fs w) = None ∧ entries = [] ∨
  alist_get CONFIG_DIR (fs w) = Some (Dir entries) →
  renameCluster CONFIG_DIR oldName newName w
  = (Ok tt,
     set_dir CONFIG_DIR
       (alist_set "clusters.json"
          (JSON_stringify (map (renamed oldName newName) (stored_clusters CONFIG_DIR w)))
          entries) w).
Proof.
  intros Hdir. unfold renameCluster.
  erewrite bind_ok; [|apply loadClusters_run].
  rewrite (ensured_dir w entries) by done.
  erewrite saveClusters_run; [|right; apply set_dir_get].
  by rewrite set_dir_set_dir.
Qed.

(** X26. After [renameCluster(oldName, newName)] (configuration path
    free or a directory, the registry file, if any, holding an array of
    objects, the codec reading back what it writes for the new list)
    there are as many stored clusters as before, in the same
    order; a cluster that was named [oldName] is named [newName] and
    keeps every other field, its URI among them, and every other
    cluster is unchanged. *)
Theorem renameCluster_then_load (oldName newName : string) (w : World)
    (entries : list (string * string)) :
  alist_get CONFIG_DIR (fs w) = None ∧ entries = [] ∨
  alist_get CONFIG_DIR (fs w) = Some (Dir entries) →
  registry_readable CONFIG_DIR w →
  JSON_parse (JSON_stringify (map (renamed oldName newName) (stored_clusters CONFIG_DIR w)))
  = Some (map (renamed oldName newName) (stored_clusters CONFIG_DIR w)) →
  ∃ w1,
    renameCluster CONFIG_DIR oldName newName w = (Ok tt, w1) ∧
    length (stored_clusters CONFIG_DIR w1) = length (stored_clusters CONFIG_DIR w) ∧
    (∀ i c, stored_clusters CONFIG_DIR w !! i = Some c →
       ∃ c', stored_clusters CONFIG_DIR w1 !! i = Some c' ∧
             (name_is oldName c = true → name_is newName c' = true) ∧
             (name_is oldName c = false → c' = c) ∧
             (∀ field, field ≠ "name" → alist_get field c' = alist_get field c)) ∧
    clusters w1 = clusters w.
Proof.
  intros Hdir _ Hlaw.
  eexists. split; [by apply renameCluster_run|].
  rewrite stored_saved, Hlaw. simpl.
  split; [apply length_map|]. split; [|done].
  intros i c Hi. exists (renamed oldName newName c). split.
  { rewrite list_lookup_fmap, Hi. done. }
  split; [apply name_is_renamed|]. split.
  - intros Hno. unfold renamed. by rewrite Hno.
  - intros field Hfield. unfold renamed. destruct (name_is oldName c); [|done].
    by rewrite alist_get_set_ne.
Qed.

Lemma name_is_absent name l :
  existsb (name_is name) l = false → Some (JStr name) ∉ cluster_names l.
Proof.
  induction l as [|c l IH]; simpl; [intros _; apply not_elem_of_nil|].
  intros [Hc Hl]%orb_false_iff. apply not_elem_of_cons. split; [|by apply IH].
  intros Heq. unfold name_is in Hc. rewrite <- Heq in Hc.
  by rewrite bool_decide_true in Hc.
Qed.

(** X27. [addCluster] keeps the stored names distinct: if no two stored
    clusters have the same name, then after a call that succeeds (under
    the conditions of X23) no two have. *)
Theorem addCluster_keeps_names_distinct (cluster : Cluster) (w : World)
    (entries : list (string * string)) :
  alist_get CONFIG_DIR (fs w) = None ∧ entries = [] ∨
  alist_get CONFIG_DIR (fs w) = Some (Dir entries) →
  JSON_parse (JSON_stringify (stored_clusters CONFIG_DIR w ++ [cluster_object cluster]))
  = Some (stored_clusters CONFIG_DIR w ++ [cluster_object cluster]) →
  NoDup (cluster_names (stored_clusters CONFIG_DIR w)) →
  ∀ w1, addCluster CONFIG_DIR cluster w = (Ok tt, w1) →
        NoDup (cluster_names (stored_clusters CONFIG_DIR w1)).
Proof.
  intros Hdir Hlaw Hnd w1. unfold addCluster.
  erewrite bind_ok; [|apply loadClusters_run].
  destruct (existsb (name_is (cluster_name cluster)) (stored_clusters CONFIG_DIR w))
    eqn:Hfresh; [done|].
  rewrite (ensured_dir w entries) by done.
  erewrite saveClusters_run; [|right; apply set_dir_get].
  rewrite set_dir_set_dir. intros [= <-].
  rewrite stored_saved, Hlaw. simpl.
  unfold cluster_names. rewrite map_app. simpl.
  apply NoDup_app. split; [done|]. split; [|apply NoDup_singleton].
  intros name Hin ->%list_elem_of_singleton.
  by apply (name_is_absent (cluster_name cluster) (stored_clusters CONFIG_DIR w)).
Qed.

Lemma count_renamed oldName newName l :
  oldName ≠ newName →
  length (List.filter (name_is newName) (map (renamed oldName newName) l))
  = length (List.filter (name_is oldName) l) + length (List.filter (name_is newName) l).
Proof.
  intros Hne. induction l as [|c l IH]; simpl; [done|].
  destruct (name_is oldName c) eqn:Hold.
  - rewrite name_is_renamed by done. simpl. rewrite IH.
    assert (name_is newName c = false) as ->; [|simpl; lia].
    unfold name_is in *. destruct (alist_get "name" c) as [[| | |n| |]|]; try done.
    apply bool_decide_eq_true in Hold as ->. by apply bool_decide_eq_false.
  - unfold renamed at 1. rewrite Hold.
    destruct (name_is newName c); simpl; rewrite IH; lia.
Qed.

Lemma none_renamed oldName newName l :
  oldName ≠ newName →
  length (List.filter (name_is oldName) (map (renamed oldName newName) l)) = 0.
Proof.
  intros Hne. induction l as [|c l IH]; simpl; [done|].
  destruct (name_is oldName c) eqn:Hold.
  - assert (name_is oldName (renamed oldName newName c) = false) as ->; [|exact IH].
    unfold renamed. rewrite Hold. unfold name_is. rewrite alist_get_set_eq.
    by apply bool_decide_eq_false.
  - unfold renamed at 1. rewrite Hold. simpl. by rewrite Hold.
Qed.

(** X28. [renameCluster] does not check the new name: after renaming
    [oldName] to a different [newName] (under the conditions of X26),
    the clusters named [newName] are as many as those that were named
    [oldName] or [newName] before; renaming onto a name in use leaves
    two clusters with one name, which [addCluster] would have refused. *)
Theorem renameCluster_merges_names (oldName newName : string) (w : World)
    (entries : list (string * string)) :
  alist_get CONFIG_DIR (fs w) = None ∧ entries = [] ∨
  alist_get CONFIG_DIR (fs w) = Some (Dir entries) →
  registry_readable CONFIG_DIR w →
  JSON_parse (JSON_stringify (map (renamed oldName newName) (stored_clusters CONFIG_DIR w)))
  = Some (map (renamed oldName newName) (stored_clusters CONFIG_DIR w)) →
  oldName ≠ newName →
  ∃ w1,
    renameCluster CONFIG_DIR oldName newName w = (Ok tt, w1) ∧
    length (List.filter (name_is newName) (stored_clusters CONFIG_DIR w1))
    = length (List.filter (name_is oldName) (stored_clusters CONFIG_DIR w))
      + length (List.filter (name_is newName) (stored_clusters CONFIG_DIR w)) ∧
    length (List.filter (name_is oldName) (stored_clusters CONFIG_DIR w1)) = 0.
Proof.
  intros Hdir _ Hlaw Hne.
  eexists. split; [by apply renameCluster_run|].
  rewrite stored_saved, Hlaw. simpl.
  split; [by apply count_renamed|by apply none_renamed].
Qed.

End Registry.

(** ** Table cells *)

Lemma truncate_long (str : JsString) (width : Z) :
  (2 <= width)%Z → (width < Z.of_nat (length str))%Z →
  truncate str width = ELLIPSIS :: drop (length str - (Z.to_nat width - 1)) str.
Proof.
  intros Hw Hlong. unfold truncate, js_slice.
  destruct (Z.leb_spec (Z.of_nat (length str)) width) as [Hle|_]; [lia|].
  destruct (Z.ltb_spec (- (width - 1)) 0) as [_|Hge]; [|lia].
  f_equal. f_equal. lia.
Qed.

(** X29. [truncate(str, width)] for a width of at least 2 returns a
    string of at most [width] code units: [str] itself when it fits,
    and otherwise the ellipsis followed by the last [width - 1] units of
    [str], exactly [width] units.  At width 1 it does not shorten: a
    longer string comes back whole behind the ellipsis. *)
Theorem truncate_width (str : JsString) (width : Z) :
  ((2 <= width)%Z →
   (Z.of_nat (length (truncate str width)) <= width)%Z ∧
   ((Z.of_nat (length str) <= width)%Z → truncate str width = str) ∧
   ((width < Z.of_nat (length str))%Z →
      truncate str width = ELLIPSIS :: drop (length str - (Z.to_nat width - 1)) str ∧
      Z.of_nat (length (truncate str width)) = width)) ∧
  (1 < length str → truncate str 1 = ELLIPSIS :: str).
Proof.
  split.
  - intros Hw.
    assert (Hfit : (Z.of_nat (length str) <= width)%Z → truncate str width = str).
    { intros Hle. unfold truncate.
      by destruct (Z.leb_spec (Z.of_nat (length str)) width) as [_|?]; [|lia]. }
    assert (Hlong : (width < Z.of_nat (length str))%Z →
              truncate str width = ELLIPSIS :: drop (length str - (Z.to_nat width - 1)) str ∧
              Z.of_nat (length (truncate str width)) = width).
    { intros Hlt. rewrite truncate_long by done. split; [done|].
      simpl. rewrite length_drop. lia. }
    split; [|by split].
    destruct (Z.le_gt_cases (Z.of_nat (length str)) width) as [Hle|Hgt].
    + by rewrite Hfit.
    + destruct (Hlong ltac:(lia)) as [_ ->]. lia.
  - intros Hlen. unfold truncate, js_slice.
    destruct (Z.leb_spec (Z.of_nat (length str)) 1) as [Hle|_]; [lia|].
    simpl. f_equal. destruct str; [done|]. simpl. done.
Qed.

(** X30. [pad(str, width)] for a width of at least 2 is exactly [width]
    code units long, so the cells of a table line up: a string that fits
    is followed by spaces up to the width, a longer one is truncated to
    it. *)
Theorem pad_width (str : JsString) (width : Z) :
  (2 <= width)%Z →
  Z.of_nat (length (pad str width)) = width ∧
  ((Z.of_nat (length str) <= width)%Z →
   pad str width = str ++ repeat SPACE (Z.to_nat width - length str)) ∧
  ((width < Z.of_nat (length str))%Z → pad str width = truncate str width).
Proof.
  intros Hw.
  assert (Hfit : (Z.of_nat (length str) <= width)%Z →
                 pad str width = str ++ repeat SPACE (Z.to_nat width - length str)).
  { intros Hle. unfold pad, truncate.
    destruct (Z.leb_spec (Z.of_nat (length str)) width) as [_|?]; [|lia].
    destruct (Z.leb_spec width (Z.of_nat (length str))) as [Hge|Hlt].
    - replace (Z.to_nat width - length str) with 0 by lia. simpl. by rewrite app_nil_r.
    - do 2 f_equal. lia. }
  assert (Hlong : (width < Z.of_nat (length str))%Z → pad str width = truncate str width).
  { intros Hlt. unfold pad.
    assert (Hlen : Z.of_nat (length (truncate str width)) = width).
    { rewrite truncate_long by done. simpl. rewrite length_drop. lia. }
    by destruct (Z.leb_spec width (Z.of_nat (length (truncate str width)))) as [_|?]; [|lia]. }
  split; [|by split].
  destruct (Z.le_gt_cases (Z.of_nat (length str)) width) as [Hle|Hgt].
  - rewrite Hfit by done. rewrite length_app, repeat_length. lia.
  - rewrite Hlong by lia. rewrite truncate_long by done. simpl. rewrite length_drop. lia.
Qed.

(** * Worked examples: the scenarios of the test suite *)

Example cloneDb_batches_1001 :
  Scenarios.batch_sizes "tgt" "big"
    (snd (cloneDb Examples.connected "src" "tgt" false Scenarios.cloneWorld))
  = [500; 500; 1].
Proof. vm_compute. reflexivity. Qed.

Example cloneDbToClient_counts :
  fst (cloneDbToClient Examples.connected "src" Examples.connected "tgt" true
         Scenarios.cloneWorld)
  = Ok (mkImportResult 2 1003).
Proof. vm_compute. reflexivity. Qed.

Example cloneDb_strips_v_ns :
  Scenarios.created_indexes "tgt" "users"
    (snd (cloneDb Examples.connected "src" "tgt" false Scenarios.cloneWorld))
  = [[[("name", JStr "email_1"); ("key", JObj [("email", JNum 1)]); ("unique", JBool true)]]].
Proof. vm_compute. reflexivity. Qed.

Example exportDb_counts :
  fst (exportDb (codec := MiniJson.codec) Examples.connected "original" "/out" false
         Scenarios.originalWorld)
  = Ok (mkExportResult 2 2 "/out").
Proof. vm_compute. reflexivity. Qed.

Example exportDb_empty_collection :
  read_entry "/out" "empty.jsonl"
    (snd (exportDb (codec := MiniJson.codec) Examples.connected "original" "/out" false
            Scenarios.originalWorld))
  = Some EmptyString.
Proof. vm_compute. reflexivity. Qed.

Example importDb_restores_indexes :
  Scenarios.created_indexes "db1" "users"
    (snd (importDb (codec := MiniJson.codec) Examples.connected "db1" "/dump" false
            Scenarios.dumpWorld))
  = [[[("name", JStr "email_1"); ("key", JObj [("email", JNum 1)]); ("unique", JBool true)]]].
Proof. vm_compute. reflexivity. Qed.

(** * The theorems at the scenarios *)

Lemma clone_NoDup : NoDup (mock_listCollections "src" Scenarios.cloneStore).
Proof.
  change (mock_listCollections "src" Scenarios.cloneStore) with ["big"; "users"].
  apply NoDup_cons. split.
  - intros Hin%list_elem_of_singleton. discriminate.
  - apply NoDup_singleton.
Qed.

Lemma batching_flushes_witness :
  ∃ w' s',
    cloneDb Examples.connected "src" "tgt" false Scenarios.cloneWorld = (Ok tt, w') ∧
    alist_get (uri Scenarios.handle) (clusters w') = Some s' ∧
    ∀ col, col ∈ mock_listCollections "src" Scenarios.cloneStore →
      ∃ batches,
        batches_of "tgt" col s' = batches_of "tgt" col Scenarios.cloneStore ++ batches ∧
        concat batches = mock_find "src" col Scenarios.cloneStore ∧
        (0 < length (mock_find "src" col Scenarios.cloneStore) →
         batched (length (mock_find "src" col Scenarios.cloneStore)) batches) ∧
        (length (mock_find "src" col Scenarios.cloneStore) = 0 → batches = []).
Proof.
  exact (proj1 (batching_flushes (codec := MiniJson.codec))
           Examples.connected Scenarios.handle "src" "tgt" false Scenarios.cloneWorld
           Scenarios.cloneStore eq_refl eq_refl clone_NoDup).
Defined.

Lemma replicated_indexes_witness :
  ∃ w' s',
    cloneDb Examples.connected "src" "tgt" false Scenarios.cloneWorld = (Ok tt, w') ∧
    alist_get (uri Scenarios.handle) (clusters w') = Some s' ∧
    ∀ col, col ∈ mock_listCollections "src" Scenarios.cloneStore →
      created_of "tgt" col s'
      = created_of "tgt" col Scenarios.cloneStore ++
        (if 0 <? length (userIndexes_of (mock_indexes "src" col Scenarios.cloneStore))
         then [userIndexes_of (mock_indexes "src" col Scenarios.cloneStore)] else []).
Proof.
  destruct (replicated_indexes (codec := MiniJson.codec))
    as (_ & _ & _ & _ & _ & _ & Hclone & _).
  exact (Hclone Examples.connected Scenarios.handle "src" "tgt" false Scenarios.cloneWorld
           Scenarios.cloneStore eq_refl eq_refl clone_NoDup).
Defined.

Lemma exportDb_sidecar_contents_witness :
  ∃ r w',
    exportDb (codec := MiniJson.codec) Examples.connected "original" "/out" false
      Scenarios.originalWorld = (Ok r, w') ∧
    ∀ col, col ∈ mock_listCollections "original" Scenarios.originalStore →
      read_entry "/out" (col +:+ ".indexes.json") w'
      = Some (@JSON_stringify MiniJson.codec
                (List.filter not_id_index (mock_indexes "original" col Scenarios.originalStore))) ∧
      (∀ idx, idx ∈ List.filter not_id_index (mock_indexes "original" col Scenarios.originalStore) ↔
              idx ∈ mock_indexes "original" col Scenarios.originalStore ∧
              not_id_index idx = true).
Proof.
  exact (exportDb_sidecar_contents (codec := MiniJson.codec) Examples.connected
           Scenarios.handle "original" "/out" false Scenarios.originalWorld
           Scenarios.originalStore [] eq_refl eq_refl (or_introl (conj eq_refl eq_refl))).
Defined.

(** C1 as stated fails: the sidecar written for a collection whose
    unique index carries [v: 2] parses back to a descriptor that still
    has its [v] field. *)
Lemma exported_sidecar_keeps_v :
  from_option (@JSON_parse MiniJson.codec) None
    (read_entry "/out" "users.indexes.json"
       (snd (exportDb (codec := MiniJson.codec) Examples.connected "original" "/out" false
               Scenarios.originalWorld)))
  = Some [Scenarios.emailIndex]
  ∧ alist_get "v" Scenarios.emailIndex = Some (JNum 2).
Proof. split; vm_compute; reflexivity. Qed.

Lemma transfer_results_witness :
  ∃ r w' st',
    cloneDbToClient Examples.connected "src" Examples.connected "tgt" false
      Scenarios.cloneWorld = (Ok r, w') ∧
    alist_get (uri Scenarios.handle) (clusters w') = Some st' ∧
    aggregate r = Some (length (mock_listCollections "src" Scenarios.cloneStore),
                        inserted st' - inserted Scenarios.cloneStore) ∧
    inserted Scenarios.cloneStore ≤ inserted st'.
Proof.
  exact (proj1 (transfer_results (codec := MiniJson.codec))
           Examples.connected Scenarios.handle Examples.connected Scenarios.handle
           "src" "tgt" false Scenarios.cloneWorld Scenarios.cloneStore Scenarios.cloneStore
           eq_refl eq_refl eq_refl eq_refl).
Defined.

(** C4 as stated fails: on a database of two collections and 1003
    documents [cloneDb] succeeds and returns no aggregate, where
    [cloneDbToClient] returns [{collections: 2, documents: 1003}]. *)
Lemma cloneDb_returns_no_aggregate :
  fst (cloneDb Examples.connected "src" "tgt" false Scenarios.cloneWorld) = Ok tt
  ∧ returned_aggregate
      (fst (cloneDb Examples.connected "src" "tgt" false Scenarios.cloneWorld)) = None
  ∧ returned_aggregate
      (fst (cloneDbToClient Examples.connected "src" Examples.connected "tgt" false
              Scenarios.cloneWorld)) = Some (2, 1003).
Proof. repeat split; vm_compute; reflexivity. Qed.

Lemma original_lines_ok :
  ∀ col doc, col ∈ mock_listCollections "original" Scenarios.originalStore →
             doc ∈ mock_find "original" col Scenarios.originalStore →
             line_ok (codec := MiniJson.codec) doc.
Proof.
  intros col doc Hcol Hdoc.
  assert (Hall : Forall (line_ok (codec := MiniJson.codec)) [Scenarios.alice; Scenarios.bob]).
  { repeat constructor; try (vm_compute; reflexivity); try (vm_compute; discriminate);
      vm_compute; eexists; reflexivity. }
  rewrite Forall_forall in Hall. apply Hall.
  change (mock_listCollections "original" Scenarios.originalStore)
    with ["users"; "empty"] in Hcol.
  apply elem_of_cons in Hcol as [->|Hcol]; [exact Hdoc|].
  apply list_elem_of_singleton in Hcol as ->. by apply elem_of_nil in Hdoc.
Qed.

Lemma original_sidecars_ok :
  ∀ col, col ∈ mock_listCollections "original" Scenarios.originalStore →
    @JSON_parse MiniJson.codec
      (@JSON_stringify MiniJson.codec
         (List.filter not_id_index (mock_indexes "original" col Scenarios.originalStore)))
    = Some (List.filter not_id_index (mock_indexes "original" col Scenarios.originalStore)).
Proof.
  intros col Hcol.
  change (mock_listCollections "original" Scenarios.originalStore)
    with ["users"; "empty"] in Hcol.
  apply elem_of_cons in Hcol as [->|Hcol]; [vm_compute; reflexivity|].
  apply list_elem_of_singleton in Hcol as ->. vm_compute. reflexivity.
Qed.

Lemma original_NoDup : NoDup (mock_listCollections "original" Scenarios.originalStore).
Proof.
  change (mock_listCollections "original" Scenarios.originalStore) with ["users"; "empty"].
  apply NoDup_cons. split.
  - intros Hin%list_elem_of_singleton. discriminate.
  - apply NoDup_singleton.
Qed.


Example roundtrip_counts :
  fst (importDb (codec := MiniJson.codec) Examples.connected "restored" "/out" false
         (snd (exportDb (codec := MiniJson.codec) Examples.connected "original" "/out" false
                 Scenarios.originalWorld)))
  = Ok (mkImportResult 2 2).
Proof. vm_compute. reflexivity. Qed.

Example roundtrip_counts_1003 :
  fst (importDb (codec := MiniJson.codec) Examples.connected "restored" "/out" false
         (snd (exportDb (codec := MiniJson.codec) Examples.connected "src" "/out" false
                 Scenarios.cloneWorld)))
  = Ok (mkImportResult 2 1003)
  ∧ Scenarios.batch_sizes "restored" "big"
      (snd (importDb (codec := MiniJson.codec) Examples.connected "restored" "/out" false
              (snd (exportDb (codec := MiniJson.codec) Examples.connected "src" "/out" false
                      Scenarios.cloneWorld))))
    = [500; 500; 1].
Proof. split; vm_compute; reflexivity. Qed.

Lemma dump_orphan_is_no_sidecar :
  ∀ file, file ∈ record_files Scenarios.dumpEntries →
          "ghost.indexes.json" ≠ replace_jsonl file +:+ ".indexes.json".
Proof.
  intros file Hin.
  change (record_files Scenarios.dumpEntries) with ["users.jsonl"] in Hin.
  apply list_elem_of_singleton in Hin as ->. vm_compute. discriminate.
Qed.

Lemma importDb_reads_record_files_witness :
  importDb (codec := MiniJson.codec) Examples.connected "db1" "/dump" true
    (set_dir "/dump" (alist_set "ghost.indexes.json" "[{}]" Scenarios.dumpEntries)
       Scenarios.dumpWorld)
  = (fst (importDb (codec := MiniJson.codec) Examples.connected "db1" "/dump" true
            Scenarios.dumpWorld),
     set_dir "/dump" (alist_set "ghost.indexes.json" "[{}]" Scenarios.dumpEntries)
       (snd (importDb (codec := MiniJson.codec) Examples.connected "db1" "/dump" true
               Scenarios.dumpWorld))).
Proof.
  exact (proj1 (proj2 (proj2
           (importDb_reads_record_files (codec := MiniJson.codec) Examples.connected
              "db1" "/dump" true Scenarios.dumpWorld Scenarios.dumpEntries eq_refl)))
           "ghost.indexes.json" "[{}]" eq_refl dump_orphan_is_no_sidecar).
Defined.

Example importDb_orphan_sidecar :
  fst (importDb (codec := MiniJson.codec) Examples.connected "db1" "/dump" false
         (set_dir "/dump" (alist_set "ghost.indexes.json" "[{}]" Scenarios.dumpEntries)
            Scenarios.dumpWorld))
  = Ok (mkImportResult 1 1).
Proof. vm_compute. reflexivity. Qed.

(** * The further properties at sample worlds *)

Lemma listDatabases_hides_system_witness :
  ∃ r, listDatabases Examples.connected Cases.catalogueWorld = (Ok r, Cases.catalogueWorld) ∧
       map db_name r = ["db1"; "db2"].
Proof.
  destruct (listDatabases_hides_system Examples.connected Scenarios.handle
              Cases.catalogueStore Cases.catalogueWorld eq_refl eq_refl)
    as (r & Hrun & Hnames & _).
  exists r. split; [exact Hrun|exact Hnames].
Defined.

Lemma dropDb_clears_witness :
  ∃ w', dropDb Examples.connected "db1" Examples.statsWorld = (Ok tt, w') ∧
        listCollections Examples.connected "db1" w' = (Ok [], w').
Proof.
  destruct (dropDb_clears Examples.connected Scenarios.handle "db1"
              (mkMock [("db1", [("users", Examples.docs 10); ("posts", Examples.docs 5)])]
                 [] [] [])
              Examples.statsWorld eq_refl eq_refl)
    as (w' & s' & Hrun & _ & Hlist & _).
  exists w'. split; [exact Hrun|exact Hlist].
Defined.

Lemma clone_progress_calls_witness :
  ∃ w', cloneDb Examples.connected "src" "tgt" true Scenarios.cloneWorld = (Ok tt, w') ∧
        progress w' = [("big", 1, 2); ("users", 2, 2)].
Proof.
  destruct (clone_progress_calls Examples.connected Examples.connected
              Scenarios.handle Scenarios.handle "src" "tgt" true Scenarios.cloneWorld
              Scenarios.cloneStore Scenarios.cloneStore eq_refl eq_refl eq_refl eq_refl)
    as [(w' & Hrun & Hprogress) _].
  exists w'. split; [exact Hrun|exact Hprogress].
Defined.

Lemma dump_progress_calls_witness :
  ∃ r w', exportDb (codec := MiniJson.codec) Examples.connected "original" "/out" true
            Scenarios.originalWorld = (Ok r, w') ∧
          progress w' = [("users", 1, 2); ("empty", 2, 2)].
Proof.
  destruct (dump_progress_calls (codec := MiniJson.codec) Examples.connected Scenarios.handle
              "original" "/out" true Scenarios.originalWorld Scenarios.originalStore
              eq_refl eq_refl) as [Hexport _].
  destruct (Hexport [] (or_introl (conj eq_refl eq_refl))) as (r & w' & Hrun & Hprogress).
  exists r, w'. split; [exact Hrun|exact Hprogress].
Defined.

Lemma exportDb_keeps_other_files_witness :
  ∃ r w', exportDb (codec := MiniJson.codec) Examples.connected "original" "/out" false
            Cases.staleWorld = (Ok r, w') ∧
          ∃ entries', alist_get "/out" (fs w') = Some (Dir entries') ∧
                      alist_get "gone.jsonl" entries' = Some "stale".
Proof.
  destruct (exportDb_keeps_other_files (codec := MiniJson.codec) Examples.connected
              Scenarios.handle "original" "/out" false Cases.staleWorld
              Scenarios.originalStore Cases.staleEntries eq_refl eq_refl eq_refl)
    as (r & w' & entries' & Hrun & Hdir & _ & Hother & _).
  exists r, w'. split; [exact Hrun|]. exists entries'. split; [exact Hdir|].
  rewrite (Hother "gone.jsonl"); [reflexivity|].
  vm_compute. intros Hin. repeat (apply elem_of_cons in Hin as [Hin|Hin]; [discriminate|]).
  by apply elem_of_nil in Hin.
Defined.

Lemma exportDb_twice_witness :
  ∃ r w1 w2,
    exportDb (codec := MiniJson.codec) Examples.connected "original" "/out" true
      Scenarios.originalWorld = (Ok r, w1) ∧
    exportDb (codec := MiniJson.codec) Examples.connected "original" "/out" false w1
    = (Ok r, w2) ∧
    fs w2 = fs w1.
Proof.
  destruct (exportDb_twice (codec := MiniJson.codec) Examples.connected Scenarios.handle
              "original" "/out" true false Scenarios.originalWorld Scenarios.originalStore []
              eq_refl eq_refl (or_introl (conj eq_refl eq_refl)))
    as (r & w1 & w2 & Hfirst & Hsecond & Hfs & _).
  exists r, w1, w2. split; [exact Hfirst|]. split; [exact Hsecond|exact Hfs].
Defined.

Lemma original_one_line :
  ∀ col doc, col ∈ mock_listCollections "original" Scenarios.originalStore →
             doc ∈ mock_find "original" col Scenarios.originalStore →
             no_line_break (@EJSON_stringify MiniJson.codec doc) = true.
Proof. intros col doc Hcol Hdoc. by destruct (original_lines_ok col doc Hcol Hdoc). Qed.

Lemma exported_record_lines_witness :
  ∃ r w',
    exportDb (codec := MiniJson.codec) Examples.connected "original" "/out" false
      Scenarios.originalWorld = (Ok r, w') ∧
    ∃ text, read_entry "/out" "users.jsonl" w' = Some text ∧ length (readline text) = 2.
Proof.
  destruct (exported_record_lines (codec := MiniJson.codec) Examples.connected
              Scenarios.handle "original" "/out" false Scenarios.originalWorld
              Scenarios.originalStore [] eq_refl eq_refl (or_introl (conj eq_refl eq_refl))
              original_one_line)
    as (r & w' & Hrun & Hlines).
  exists r, w'. split; [exact Hrun|].
  destruct (Hlines "users" ltac:(apply list_elem_of_here)) as (text & Hread & _ & Hlen).
  exists text. split; [exact Hread|exact Hlen].
Defined.


Lemma empty_transfers_witness :
  cloneDb Examples.connected "nothing" "tgt" true Examples.statsWorld
  = (Ok tt, Examples.statsWorld) ∧
  cloneDbToClient Examples.connected "nothing" Examples.connected "tgt" true Examples.statsWorld
  = (Ok (mkImportResult 0 0), Examples.statsWorld).
Proof.
  destruct (empty_transfers (codec := MiniJson.codec) Examples.connected Examples.connected
              Scenarios.handle Scenarios.handle Examples.statsWorld
              (mkMock [("db1", [("users", Examples.docs 10); ("posts", Examples.docs 5)])]
                 [] [] [])
              eq_refl eq_refl) as [_ Hlive].
  destruct (Hlive eq_refl "nothing" eq_refl) as (Hclone & Hcross & _).
  split; [exact (Hclone "tgt" true)|exact (Hcross "tgt" true)].
Defined.

Lemma original_faithful :
  ∀ col doc, col ∈ mock_listCollections "original" Scenarios.originalStore →
             doc ∈ mock_find "original" col Scenarios.originalStore →
             faithful_line (codec := MiniJson.codec) doc.
Proof.
  intros col doc Hcol Hdoc.
  assert (Hall : Forall (faithful_line (codec := MiniJson.codec))
                   [Scenarios.alice; Scenarios.bob]).
  { repeat constructor; try (vm_compute; reflexivity); vm_compute; discriminate. }
  rewrite Forall_forall in Hall. apply Hall.
  change (mock_listCollections "original" Scenarios.originalStore)
    with ["users"; "empty"] in Hcol.
  apply elem_of_cons in Hcol as [->|Hcol]; [exact Hdoc|].
  apply list_elem_of_singleton in Hcol as ->. by apply elem_of_nil in Hdoc.
Qed.

Lemma original_sidecars_parse :
  ∀ col, col ∈ mock_listCollections "original" Scenarios.originalStore →
    is_Some (@JSON_parse MiniJson.codec
               (@JSON_stringify MiniJson.codec
                  (List.filter not_id_index
                     (mock_indexes "original" col Scenarios.originalStore)))).
Proof. intros col Hcol. rewrite original_sidecars_ok by done. by eexists. Qed.

Lemma export_import_documents_witness :
  ∃ r1 w1 r2 w2 st',
    exportDb (codec := MiniJson.codec) Examples.connected "original" "/out" true
      Scenarios.originalWorld = (Ok r1, w1) ∧
    importDb (codec := MiniJson.codec) Examples.connected "restored" "/out" true w1
    = (Ok r2, w2) ∧
    alist_get (uri Scenarios.handle) (clusters w2) = Some st' ∧
    mock_find "restored" "users" st' = [Scenarios.alice; Scenarios.bob].
Proof.
  destruct (export_import_documents (codec := MiniJson.codec)
              Examples.connected Examples.connected Scenarios.handle Scenarios.handle
              "original" "restored" "/out" true true Scenarios.originalWorld
              Scenarios.originalStore Scenarios.originalStore
              eq_refl eq_refl eq_refl eq_refl (or_introl eq_refl)
              original_NoDup eq_refl original_faithful original_sidecars_parse)
    as (r1 & w1 & r2 & w2 & st' & Hexp & Himp & Hst' & Hdocs).
  exists r1, w1, r2, w2, st'.
  split; [exact Hexp|]. split; [exact Himp|]. split; [exact Hst'|exact (Hdocs "users")].
Defined.

Lemma dump_readable :
  Forall (readable (codec := MiniJson.codec) Scenarios.dumpEntries
            (fun _ => [Scenarios.alice]) (fun _ => [Scenarios.emailIndex]))
    (record_files Scenarios.dumpEntries).
Proof.
  change (record_files Scenarios.dumpEntries) with ["users.jsonl"].
  repeat constructor. eexists. split; [reflexivity|]. split; vm_compute; reflexivity.
Qed.

Lemma dump_NoDup : NoDup (map replace_jsonl (record_files Scenarios.dumpEntries)).
Proof.
  change (map replace_jsonl (record_files Scenarios.dumpEntries)) with ["users"].
  apply NoDup_singleton.
Qed.

Lemma importDb_appends_witness :
  ∃ r w' s',
    importDb (codec := MiniJson.codec) Examples.connected "tgt" "/dump" false
      Cases.busyDumpWorld = (Ok r, w') ∧
    alist_get Examples.mockUri (clusters w') = Some s' ∧
    mock_find "tgt" "users" s' = [Scenarios.bob; Scenarios.alice].
Proof.
  destruct (importDb_appends (codec := MiniJson.codec) Examples.connected Scenarios.handle
              "tgt" "/dump" false Cases.busyDumpWorld Cases.busyStore Scenarios.dumpEntries
              (fun _ => [Scenarios.alice]) (fun _ => [Scenarios.emailIndex])
              eq_refl eq_refl eq_refl dump_readable dump_NoDup)
    as (r & w' & s' & Hrun & Hs' & Hat & _).
  exists r, w', s'. split; [exact Hrun|]. split; [exact Hs'|].
  exact (Hat "users.jsonl" ltac:(apply list_elem_of_here)).
Defined.

Lemma busy_NoDup : NoDup (mock_listCollections "src" Cases.busyStore).
Proof.
  change (mock_listCollections "src" Cases.busyStore) with ["users"]. apply NoDup_singleton.
Qed.

Lemma clones_append_witness :
  ∃ w' s',
    cloneDb Examples.connected "src" "tgt" false Cases.busyWorld = (Ok tt, w') ∧
    alist_get Examples.mockUri (clusters w') = Some s' ∧
    mock_find "tgt" "users" s' = [Scenarios.bob; Scenarios.alice] ∧
    mock_find "tgt" "old" s' = [Scenarios.bob].
Proof.
  destruct (clones_append Examples.connected Examples.connected Scenarios.handle
              Scenarios.handle "src" "tgt" false Cases.busyWorld Cases.busyStore
              Cases.busyStore eq_refl eq_refl eq_refl eq_refl busy_NoDup) as [Hsame _].
  destruct (Hsame ltac:(discriminate)) as (w' & s' & Hrun & Hs' & Hat & Hother & _).
  exists w', s'. split; [exact Hrun|]. split; [exact Hs'|]. split.
  - exact (Hat "users" ltac:(apply list_elem_of_here)).
  - apply (Hother "old"). intros Hin%list_elem_of_singleton. discriminate.
Defined.

Lemma tgt_not_system : "tgt" ∉ SYSTEM_DBS.
Proof.
  intros Hin. repeat (apply elem_of_cons in Hin as [Hin|Hin]; [discriminate|]).
  by apply elem_of_nil in Hin.
Qed.

Lemma cloneOperation_replaces_target_witness :
  ∃ w' s',
    cloneOperation_same Examples.connected "src" "tgt" true Cases.busyWorld
    = (Ok (Some (1, 1)), w') ∧
    alist_get Examples.mockUri (clusters w') = Some s' ∧
    mock_find "tgt" "users" s' = [Scenarios.alice] ∧
    mock_find "tgt" "old" s' = [].
Proof.
  destruct (cloneOperation_replaces_target Examples.connected Scenarios.handle "src" "tgt"
              Cases.busyWorld Cases.busyStore eq_refl eq_refl busy_NoDup
              ltac:(discriminate) tgt_not_system)
    as (w' & s' & Hrun & Hs' & Hcopy & _).
  exists w', s'. split; [exact Hrun|]. split; [exact Hs'|].
  split; [exact (Hcopy "users")|exact (Hcopy "old")].
Defined.

Lemma src_not_system : "src" ∉ SYSTEM_DBS.
Proof.
  intros Hin. repeat (apply elem_of_cons in Hin as [Hin|Hin]; [discriminate|]).
  by apply elem_of_nil in Hin.
Qed.

Lemma cloneOperation_onto_itself_witness :
  ∃ w' s',
    cloneOperation_same Examples.connected "src" "src" true Cases.busyWorld
    = (Ok (Some (1, 1)), w') ∧
    alist_get Examples.mockUri (clusters w') = Some s' ∧
    mock_listCollections "src" s' = [].
Proof.
  destruct (cloneOperation_onto_itself Examples.connected Scenarios.handle "src"
              Cases.busyWorld Cases.busyStore eq_refl eq_refl
              ltac:(apply list_elem_of_here) src_not_system)
    as (w' & s' & Hrun & Hs' & Hnone & _).
  exists w', s'. split; [exact Hrun|]. split; [exact Hs'|exact Hnone].
Defined.

Lemma uploadOperation_replaces_target_witness :
  ∃ w' s',
    uploadOperation (codec := MiniJson.codec) Examples.connected "/dump" "tgt" true
      Cases.busyDumpWorld = (Ok (Some (mkImportResult 1 1)), w') ∧
    alist_get Examples.mockUri (clusters w') = Some s' ∧
    mock_find "tgt" "users" s' = [Scenarios.alice] ∧
    mock_find "tgt" "old" s' = [].
Proof.
  destruct (proj2 (uploadOperation_replaces_target (codec := MiniJson.codec)
                     Examples.connected Scenarios.handle "/dump" "tgt"
                     Cases.busyDumpWorld Cases.busyStore)
              Scenarios.dumpEntries (fun _ => [Scenarios.alice])
              (fun _ => [Scenarios.emailIndex])
              eq_refl eq_refl eq_refl dump_readable dump_NoDup tgt_not_system)
    as (w' & s' & Hrun & Hs' & Hat & Hother & _).
  exists w', s'. split; [exact Hrun|]. split; [exact Hs'|]. split.
  - exact (Hat "users.jsonl" ltac:(apply list_elem_of_here)).
  - apply (Hother "old"). intros Hin%list_elem_of_singleton. discriminate.
Defined.

Lemma dropOperation_backup_witness :
  ∃ w' s',
    dropOperation (codec := MiniJson.codec) Examples.connected "original" true "/backup" true
      Scenarios.originalWorld = (Ok true, w') ∧
    alist_get Examples.mockUri (clusters w') = Some s' ∧
    mock_find "original" "users" s' = [] ∧
    read_entry "/backup" "users.jsonl" w'
    = Some (record_text (map (@EJSON_stringify MiniJson.codec) [Scenarios.alice; Scenarios.bob])).
Proof.
  destruct (proj2 (dropOperation_backup (codec := MiniJson.codec) Examples.connected
                     Scenarios.handle "original" "/backup" Scenarios.originalWorld
                     Scenarios.originalStore)
              [] eq_refl eq_refl (or_introl (conj eq_refl eq_refl)))
    as (w' & s' & Hrun & Hs' & Hempty & Hfiles).
  exists w', s'. split; [exact Hrun|]. split; [exact Hs'|]. split; [exact (Hempty "users")|].
  exact (proj1 (Hfiles "users" ltac:(apply list_elem_of_here))).
Defined.

Lemma registry_is_readable :
  registry_readable (codec := MiniJson.codec) Cases.configDir Cases.registryWorld.
Proof. vm_compute. eexists. reflexivity. Qed.

Lemma loadClusters_reads_file_witness :
  loadClusters (codec := MiniJson.codec) Cases.configDir Cases.registryWorld
  = (Ok [cluster_object Cases.prod; cluster_object Cases.staging], Cases.registryWorld).
Proof.
  exact (proj2 (proj2 (loadClusters_reads_file (codec := MiniJson.codec) Cases.configDir
                         Cases.registryWorld))
           _ _ _ eq_refl eq_refl ltac:(vm_compute; reflexivity)).
Defined.

Lemma addCluster_then_load_witness :
  ∃ w1,
    addCluster (codec := MiniJson.codec) Cases.configDir Cases.prod Examples.emptyWorld
    = (Ok tt, w1) ∧
    loadClusters (codec := MiniJson.codec) Cases.configDir w1
    = (Ok [cluster_object Cases.prod], w1).
Proof.
  destruct (addCluster_then_load (codec := MiniJson.codec) Cases.configDir Cases.prod
              Examples.emptyWorld [] (or_introl (conj eq_refl eq_refl)) I eq_refl
              ltac:(vm_compute; reflexivity))
    as (w1 & Hadd & Hload & _).
  exists w1. split; [exact Hadd|exact Hload].
Defined.

Lemma addCluster_duplicate_witness :
  addCluster (codec := MiniJson.codec) Cases.configDir
    (mkCluster "prod" "mongodb://other:27017") Cases.registryWorld
  = (Throw (Error "A cluster named 'prod' already exists."), Cases.registryWorld).
Proof.
  exact (addCluster_duplicate (codec := MiniJson.codec) Cases.configDir
           (mkCluster "prod" "mongodb://other:27017") Cases.registryWorld
           ltac:(vm_compute; reflexivity)).
Defined.

Lemma removeCluster_then_load_witness :
  ∃ w1,
    removeCluster (codec := MiniJson.codec) Cases.configDir "prod" Cases.registryWorld
    = (Ok tt, w1) ∧
    stored_clusters (codec := MiniJson.codec) Cases.configDir w1
    = [cluster_object Cases.staging].
Proof.
  destruct (removeCluster_then_load (codec := MiniJson.codec) Cases.configDir "prod"
              Cases.registryWorld _ (or_intror eq_refl) registry_is_readable
              ltac:(vm_compute; reflexivity))
    as (w1 & Hrun & Hstored & _).
  exists w1. split; [exact Hrun|].
  exact (eq_trans Hstored ltac:(vm_compute; reflexivity)).
Defined.

Lemma renameCluster_then_load_witness :
  ∃ w1,
    renameCluster (codec := MiniJson.codec) Cases.configDir "prod" "production"
      Cases.registryWorld = (Ok tt, w1) ∧
    ∃ c', stored_clusters (codec := MiniJson.codec) Cases.configDir w1 !! 0 = Some c' ∧
          name_is "production" c' = true ∧
          alist_get "uri" c' = Some (JStr "mongodb://localhost:27017").
Proof.
  destruct (renameCluster_then_load (codec := MiniJson.codec) Cases.configDir
              "prod" "production" Cases.registryWorld _ (or_intror eq_refl)
              registry_is_readable ltac:(vm_compute; reflexivity))
    as (w1 & Hrun & _ & Hat & _).
  exists w1. split; [exact Hrun|].
  destruct (Hat 0 (cluster_object Cases.prod) ltac:(vm_compute; reflexivity))
    as (c' & Hc' & Hname & _ & Hfields).
  exists c'. split; [exact Hc'|]. split; [exact (Hname eq_refl)|].
  exact (Hfields "uri" ltac:(discriminate)).
Defined.

Lemma registry_NoDup :
  NoDup (cluster_names (stored_clusters (codec := MiniJson.codec) Cases.configDir
                          Cases.registryWorld)).
Proof.
  change (NoDup [Some (JStr "prod"); Some (JStr "staging")]).
  apply NoDup_cons. split; [|apply NoDup_singleton].
  intros Hin%list_elem_of_singleton. discriminate.
Qed.

Lemma addCluster_keeps_names_distinct_witness :
  NoDup (cluster_names
           (stored_clusters (codec := MiniJson.codec) Cases.configDir
              (snd (addCluster (codec := MiniJson.codec) Cases.configDir
                      (mkCluster "dev" "mongodb://localhost:27019") Cases.registryWorld)))).
Proof.
  exact (addCluster_keeps_names_distinct (codec := MiniJson.codec) Cases.configDir
           (mkCluster "dev" "mongodb://localhost:27019") Cases.registryWorld _
           (or_intror eq_refl) ltac:(vm_compute; reflexivity) registry_NoDup _
           ltac:(vm_compute; reflexivity)).
Defined.

Lemma renameCluster_merges_names_witness :
  ∃ w1,
    renameCluster (codec := MiniJson.codec) Cases.configDir "prod" "staging"
      Cases.registryWorld = (Ok tt, w1) ∧
    length (List.filter (name_is "staging")
              (stored_clusters (codec := MiniJson.codec) Cases.configDir w1)) = 2.
Proof.
  destruct (renameCluster_merges_names (codec := MiniJson.codec) Cases.configDir
              "prod" "staging" Cases.registryWorld _ (or_intror eq_refl)
              registry_is_readable ltac:(vm_compute; reflexivity) ltac:(discriminate))
    as (w1 & Hrun & Hcount & _).
  exists w1. split; [exact Hrun|].
  exact (eq_trans Hcount ltac:(vm_compute; reflexivity)).
Defined.

Lemma truncate_width_witness :
  truncate (Cases.units "a-very-long-database-name") 8
  = ELLIPSIS :: Cases.units "se-name".
Proof.
  destruct (proj1 (truncate_width (Cases.units "a-very-long-database-name") 8)
              ltac:(lia)) as (_ & _ & Hlong).
  destruct (Hlong ltac:(vm_compute; reflexivity)) as [Heq _].
  exact (eq_trans Heq ltac:(vm_compute; reflexivity)).
Defined.

Lemma pad_width_witness :
  Z.of_nat (length (pad (Cases.units "SOURCE") 28)) = 28%Z ∧
  pad (Cases.units "SOURCE") 28 = Cases.units "SOURCE" ++ repeat SPACE 22.
Proof.
  destruct (pad_width (Cases.units "SOURCE") 28 ltac:(lia)) as (Hlen & Hfit & _).
  split; [exact Hlen|].
  exact (eq_trans (Hfit ltac:(vm_compute; discriminate)) ltac:(vm_compute; reflexivity)).
Defined.
